(** * FloorplanV2: geometry kernel, snapping, placement, wall solver, history

    A shallow embedding of the algorithmic core of the floor-plan editor
    ([src/utils.ts] and the [App] component) together with the properties
    that its specification states about it.

    Numbers.  A JavaScript [number] is a binary64 floating-point number.
    The file has two models of it.

    - Binary64 ([Binary64], [Snap64], [Parse]): the primitive floats of the
      standard library, with their rounding, NaN, the infinities and the two
      zeros.  The statements on rectangle overlap, on polygons of fewer
      than three points, on snapping a grid point and on parsing text are
      about this model, since they turn on single roundings.
    - Exact rationals [Q] (everything else): arithmetic is exact, NaN and
      the infinities are not represented, [Math.round] is
      [floor (v + 1/2)] and [Math.sqrt d < c] with [c >= 0] is decided on
      the squares.  The statements in this model are structural (which
      records are read, what a list contains, which branch is taken on
      data that is compared and copied), or they keep a margin
      [roundingMargin] from every threshold and bound the size of the
      input ([ordinaryLengths], [ordinaryInput], [ordinaryCoordinate]), so
      that the rounding of binary64, many orders of magnitude below the
      margin at these sizes, cannot change the side of a comparison.

    Comparisons are the boolean ones of the code; [a >= b] is written
    [b <=? a] and [a > b] is written [b <? a].

    Strings that are only compared ([id], [definitionId]) are [string];
    strings that are scanned character by character ([parseFeetInches]) are
    lists of UTF-16 code units. *)

From Stdlib Require Import QArith Qpower Qround Qabs Qminmax ZArith NArith.
From Stdlib Require Import List Bool Ascii String DecimalString Lia Lqa.
From Stdlib Require DecimalNat DecimalFacts.
From Stdlib Require Floats.
Import ListNotations.

Open Scope Q_scope.

(** ** Boolean comparisons of the source language *)

Definition Qltb (a b : Q) : bool := negb (Qle_bool b a).

Infix "<=?" := Qle_bool (at level 70, no associativity) : Q_scope.
Infix "<?" := Qltb (at level 70, no associativity) : Q_scope.
Infix "=?" := Qeq_bool (at level 70, no associativity) : Q_scope.

(** ** Data model ([src/utils.ts]) *)

Record Point := mkPoint { p_x : Q; p_y : Q }.

Inductive ObjectType := standard | door.

Record ObjectDefinition := mkDef {
  d_id : string;
  d_name : string;
  d_width : Q;
  d_length : Q;
  d_type : option ObjectType
}.

Record PlacedObject := mkObj {
  o_id : string;
  o_definitionId : string;
  o_x : Q;
  o_y : Q;
  o_rotation : Q
}.

Record TempWall := mkWall {
  w_id : string;
  w_start : Point;
  w_end : Point;
  w_color : option string;
  w_isDashed : option bool
}.

Record RoomLabel := mkLabel {
  l_id : string;
  l_text : string;
  l_x : Q;
  l_y : Q;
  l_fontSize : Q;
  l_rotation : option Q
}.

Record Room := mkRoom {
  r_id : string;
  r_name : string;
  r_points : list Point;
  r_objects : list PlacedObject;
  r_tempWalls : list TempWall;
  r_labels : option (list RoomLabel)
}.

(** The footprint record that [getObjectRect] builds. *)
Record Rect := mkRect {
  rect_x : Q;
  rect_y : Q;
  rect_width : Q;
  rect_height : Q
}.

Definition GRID_SIZE : Q := 1.

(** ** Geometry kernel ([src/utils.ts]) *)

Module Geometry.

Definition origin : Point := mkPoint 0 0.

(** One turn of the loop of [calculatePolygonArea]; [i] and [j] are below
    [points.length], so the default of [nth] is never read. *)
Definition areaStep (points : list Point) (area : Q) (i : nat) : Q :=
  let j := ((i + 1) mod (List.length points))%nat in
  let pi := nth i points origin in
  let pj := nth j points origin in
  area + p_x pi * p_y pj - p_x pj * p_y pi.

Definition calculatePolygonArea (points : list Point) : Q :=
  let area := fold_left (areaStep points) (seq 0 (List.length points)) 0 in
  Qabs area / 2.

(** One turn of the loop of [isPointInPolygon]; the state is [inside] and
    the trailing index [j].  The division is only looked at when the first
    conjunct holds, and then [yj - yi] is not zero. *)
Definition pipStep (point : Point) (polygon : list Point)
    (st : bool * nat) (i : nat) : bool * nat :=
  let '(inside, j) := st in
  let xi := p_x (nth i polygon origin) in
  let yi := p_y (nth i polygon origin) in
  let xj := p_x (nth j polygon origin) in
  let yj := p_y (nth j polygon origin) in
  let intersect :=
    xorb (p_y point <? yi) (p_y point <? yj)
    && (p_x point <? (xj - xi) * (p_y point - yi) / (yj - yi) + xi) in
  ((if intersect then negb inside else inside), i).

Definition isPointInPolygon (point : Point) (polygon : list Point) : bool :=
  let n := List.length polygon in
  fst (fold_left (pipStep point polygon) (seq 0 n) (false, (n - 1)%nat)).

Definition getObjectRect (obj : PlacedObject) (def : ObjectDefinition) : Rect :=
  let isRotated := (o_rotation obj =? 90) || (o_rotation obj =? 270) in
  let w := if isRotated then d_length def else d_width def in
  let l := if isRotated then d_width def else d_length def in
  mkRect (o_x obj - w / 2) (o_y obj - l / 2) w l.

Definition checkRectOverlap (r1 r2 : Rect) : bool :=
  negb ((rect_x r1 + rect_width r1 <=? rect_x r2)
        || (rect_x r2 + rect_width r2 <=? rect_x r1)
        || (rect_y r1 + rect_height r1 <=? rect_y r2)
        || (rect_y r2 + rect_height r2 <=? rect_y r1)).

Definition isRectInPolygon (rect : Rect) (polygon : list Point) : bool :=
  let corners :=
    [ mkPoint (rect_x rect) (rect_y rect);
      mkPoint (rect_x rect + rect_width rect) (rect_y rect);
      mkPoint (rect_x rect) (rect_y rect + rect_height rect);
      mkPoint (rect_x rect + rect_width rect) (rect_y rect + rect_height rect) ] in
  forallb (fun p => isPointInPolygon p polygon) corners.

Definition doLinesIntersect (a b c d : Point) : bool :=
  let det := (p_x b - p_x a) * (p_y d - p_y c) - (p_y b - p_y a) * (p_x d - p_x c) in
  if det =? 0 then false
  else
    let lambda := ((p_y d - p_y c) * (p_x d - p_x a) + (p_x c - p_x d) * (p_y d - p_y a)) / det in
    let gamma := ((p_y a - p_y b) * (p_x d - p_x a) + (p_x b - p_x a) * (p_y d - p_y a)) / det in
    ((0 <? lambda) && (lambda <? 1)) && ((0 <? gamma) && (gamma <? 1)).

Definition getLineIntersection (p1 p2 p3 p4 : Point) : option Point :=
  let det := (p_x p2 - p_x p1) * (p_y p4 - p_y p3) - (p_y p2 - p_y p1) * (p_x p4 - p_x p3) in
  if det =? 0 then None
  else
    let lambda := ((p_y p4 - p_y p3) * (p_x p4 - p_x p1) + (p_x p3 - p_x p4) * (p_y p4 - p_y p1)) / det in
    let gamma := ((p_y p1 - p_y p2) * (p_x p4 - p_x p1) + (p_x p2 - p_x p1) * (p_y p4 - p_y p1)) / det in
    if (0 <=? lambda) && (lambda <=? 1) && (0 <=? gamma) && (gamma <=? 1)
    then Some (mkPoint (p_x p1 + lambda * (p_x p2 - p_x p1))
                       (p_y p1 + lambda * (p_y p2 - p_y p1)))
    else None.

Definition pointInBounds (p : Point) (left right top bottom : Q) : bool :=
  (left <=? p_x p) && (p_x p <=? right) && (top <=? p_y p) && (p_y p <=? bottom).

Definition lineIntersectRect (p1 p2 : Point) (rect : Rect) : bool :=
  let left := rect_x rect in
  let right := rect_x rect + rect_width rect in
  let top := rect_y rect in
  let bottom := rect_y rect + rect_height rect in
  if pointInBounds p1 left right top bottom then true
  else if pointInBounds p2 left right top bottom then true
  else
    let lines :=
      [ (mkPoint left top, mkPoint right top);
        (mkPoint right top, mkPoint right bottom);
        (mkPoint right bottom, mkPoint left bottom);
        (mkPoint left bottom, mkPoint left top) ] in
    existsb (fun l => doLinesIntersect p1 p2 (fst l) (snd l)) lines.

End Geometry.

(** ** The geometry kernel in binary64 ([src/utils.ts])

    The functions of the kernel whose answer depends on how a sum, a
    product or a quotient is rounded, a second time and operation for
    operation over the machine's binary64 numbers.  [a > b] is [b <? a] and
    [a >= b] is [b <=? a], which agree with the source on NaN as well (every
    comparison with NaN is false). *)

Module Binary64.

Import PrimFloat SpecFloat FloatOps.
Local Open Scope float_scope.

(** The binary64 number nearest to the positive rational [n / d], ties to
    even, an infinity beyond the largest finite number: the value of a
    decimal literal of the source, and of a string read by [parseInt] or
    [parseFloat]. *)
Definition roundPositive (negative : bool) (n d : positive) : spec_float :=
  let '(mz, ez, lz) := SFdiv_core_binary prec emax (Zpos n) 0 (Zpos d) 0 in
  binary_round_aux prec emax negative mz ez lz.

Definition toNumber (q : Q) : float :=
  match Qnum q with
  | Z0 => zero
  | Zpos n => SF2Prim (roundPositive false n (Qden q))
  | Zneg n => SF2Prim (roundPositive true n (Qden q))
  end.

(** The rational that a finite binary64 number is (0 for the infinities and
    for NaN, which are no rationals). *)
Definition valueOf (f : float) : Q :=
  match Prim2SF f with
  | S754_finite s m e => inject_Z (if s then Zneg m else Zpos m) * (2 ^ e)%Q
  | _ => 0%Q
  end.

Record Point := mkPoint { p_x : float; p_y : float }.

Record Rect := mkRect {
  rect_x : float;
  rect_y : float;
  rect_width : float;
  rect_height : float
}.

Definition origin : Point := mkPoint 0 0.

(** One turn of the loop of [calculatePolygonArea]: [area += ...] and then
    [area -= ...], each product and each sum rounded. *)
Definition areaStep (points : list Point) (area : float) (i : nat) : float :=
  let j := ((i + 1) mod (List.length points))%nat in
  let pi := nth i points origin in
  let pj := nth j points origin in
  area + p_x pi * p_y pj - p_x pj * p_y pi.

Definition calculatePolygonArea (points : list Point) : float :=
  let area := fold_left (areaStep points) (seq 0 (List.length points)) 0 in
  abs area / 2.

(** One turn of the loop of [isPointInPolygon]. *)
Definition pipStep (point : Point) (polygon : list Point)
    (st : bool * nat) (i : nat) : bool * nat :=
  let '(inside, j) := st in
  let xi := p_x (nth i polygon origin) in
  let yi := p_y (nth i polygon origin) in
  let xj := p_x (nth j polygon origin) in
  let yj := p_y (nth j polygon origin) in
  let intersect :=
    xorb (p_y point <? yi) (p_y point <? yj)
    && (p_x point <? (xj - xi) * (p_y point - yi) / (yj - yi) + xi) in
  ((if intersect then negb inside else inside), i).

Definition isPointInPolygon (point : Point) (polygon : list Point) : bool :=
  let n := List.length polygon in
  fst (fold_left (pipStep point polygon) (seq 0 n) (false, (n - 1)%nat)).

Definition checkRectOverlap (r1 r2 : Rect) : bool :=
  negb ((rect_x r1 + rect_width r1 <=? rect_x r2)
        || (rect_x r2 + rect_width r2 <=? rect_x r1)
        || (rect_y r1 + rect_height r1 <=? rect_y r2)
        || (rect_y r2 + rect_height r2 <=? rect_y r1)).

End Binary64.

(** Strict equality [a === b] of a string with an optional string argument:
    an omitted argument is [undefined], which no string equals. *)
Definition idIs (a : string) (b : option string) : bool :=
  match b with
  | Some s => String.eqb a s
  | None => false
  end.

(** [objectLibrary.find(d => d.id === id)]: the first definition of that id. *)
Definition findDef (objectLibrary : list ObjectDefinition) (id : string)
  : option ObjectDefinition :=
  find (fun d => String.eqb (d_id d) id) objectLibrary.

(** ** Snapping engine ([App], [snapToGrid] and [findSnapTarget]) *)

Module Snap.
Import Geometry.

Definition Math_round (v : Q) : Q := inject_Z (Qfloor (v + (1#2))).

Definition snapToGrid (val : Q) : Q := Math_round (val / GRID_SIZE) * GRID_SIZE.

Definition threshold : Q := 1#2.

(** The callback of [activeRoom.points.forEach((p, i) => ...)]; the state is
    [(snappedX, snappedY)]. *)
Definition wallSnapStep (points : list Point) (x y : Q)
    (st : Q * Q) (i : nat) : Q * Q :=
  let p1 := nth i points origin in
  let p2 := nth ((i + 1) mod (List.length points))%nat points origin in
  let snappedX :=
    if Qabs (p_x p1 - p_x p2) <? (1#100)
    then (if Qabs (x - p_x p1) <? threshold then p_x p1 else fst st)
    else fst st in
  let snappedY :=
    if Qabs (p_y p1 - p_y p2) <? (1#100)
    then (if Qabs (y - p_y p1) <? threshold then p_y p1 else snd st)
    else snd st in
  (snappedX, snappedY).

(** [edges.forEach(e => { if (Math.abs(v - e) < threshold) snapped = e })] *)
Definition edgeSnap (v : Q) (snapped : Q) (edges : list Q) : Q :=
  fold_left (fun s e => if Qabs (v - e) <? threshold then e else s) edges snapped.

(** The callback of [activeRoom.objects.forEach(other => ...)]. *)
Definition objectSnapStep (objectLibrary : list ObjectDefinition)
    (x y : Q) (objId : option string) (st : Q * Q) (other : PlacedObject) : Q * Q :=
  if idIs (o_id other) objId then st
  else
    match findDef objectLibrary (o_definitionId other) with
    | None => st
    | Some otherDef =>
        let rect := getObjectRect other otherDef in
        let edgesX := [rect_x rect; rect_x rect + rect_width rect] in
        let edgesY := [rect_y rect; rect_y rect + rect_height rect] in
        (edgeSnap x (fst st) edgesX, edgeSnap y (snd st) edgesY)
    end.

Definition findSnapTarget (activeRoom : option Room)
    (objectLibrary : list ObjectDefinition) (x y : Q) (objId : option string) : Point :=
  match activeRoom with
  | None => mkPoint (snapToGrid x) (snapToGrid y)
  | Some activeRoom =>
      let st0 := (snapToGrid x, snapToGrid y) in
      let st1 := fold_left (wallSnapStep (r_points activeRoom) x y)
                           (seq 0 (List.length (r_points activeRoom))) st0 in
      let st2 := fold_left (objectSnapStep objectLibrary x y objId)
                           (r_objects activeRoom) st1 in
      mkPoint (fst st2) (snd st2)
  end.

End Snap.

(** ** The snapping engine in binary64 ([App], [snapToGrid] and
    [findSnapTarget])

    Of an object, a definition and a room only the fields that the snapping
    reads are kept. *)

Module Snap64.

Import PrimFloat.
Local Open Scope float_scope.

Record ObjectDefinition := mkDef {
  d_id : string;
  d_width : float;
  d_length : float
}.

Record PlacedObject := mkObj {
  o_id : string;
  o_definitionId : string;
  o_x : float;
  o_y : float;
  o_rotation : float
}.

Record Room := mkRoom {
  r_points : list Binary64.Point;
  r_objects : list PlacedObject
}.

Definition GRID_SIZE : float := 1.

Definition getObjectRect (obj : PlacedObject) (def : ObjectDefinition)
  : Binary64.Rect :=
  let isRotated := (o_rotation obj =? 90) || (o_rotation obj =? 270) in
  let w := if isRotated then d_length def else d_width def in
  let l := if isRotated then d_width def else d_length def in
  Binary64.mkRect (o_x obj - w / 2) (o_y obj - l / 2) w l.

Definition findDef (objectLibrary : list ObjectDefinition) (id : string)
  : option ObjectDefinition :=
  find (fun d => String.eqb (d_id d) id) objectLibrary.

(** A finite number without a fractional part. *)
Definition isIntegral (n : float) : bool :=
  is_finite n
  && Qeq_bool (Binary64.valueOf n) (inject_Z (Qfloor (Binary64.valueOf n))).

(** [Math.round] as the language defines it: a number that is not finite
    or is integral is returned as it is; a number between 0 and 0.5 gives
    +0 and one from -0.5 to 0 gives -0; otherwise the result is the integer
    closest to the number, the one towards +infinity in a tie. *)
Definition Math_round (n : float) : float :=
  if negb (is_finite n) || isIntegral n then n
  else if (n <? 0.5) && (0 <? n) then 0
  else if (n <? 0) && (-0.5 <=? n) then neg_zero
  else Binary64.toNumber (inject_Z (Qfloor (Binary64.valueOf n + (1 # 2)))).

Definition snapToGrid (val : float) : float :=
  Math_round (val / GRID_SIZE) * GRID_SIZE.

Definition threshold : float := 0.5.

(** The callback of [activeRoom.points.forEach((p, i) => ...)]; the state is
    [(snappedX, snappedY)]. *)
Definition wallSnapStep (points : list Binary64.Point) (x y : float)
    (st : float * float) (i : nat) : float * float :=
  let p1 := nth i points Binary64.origin in
  let p2 := nth ((i + 1) mod (List.length points))%nat points Binary64.origin in
  let snappedX :=
    if abs (Binary64.p_x p1 - Binary64.p_x p2) <? Binary64.toNumber (1 # 100)
    then (if abs (x - Binary64.p_x p1) <? threshold then Binary64.p_x p1 else fst st)
    else fst st in
  let snappedY :=
    if abs (Binary64.p_y p1 - Binary64.p_y p2) <? Binary64.toNumber (1 # 100)
    then (if abs (y - Binary64.p_y p1) <? threshold then Binary64.p_y p1 else snd st)
    else snd st in
  (snappedX, snappedY).

(** [edges.forEach(e => { if (Math.abs(v - e) < threshold) snapped = e })] *)
Definition edgeSnap (v : float) (snapped : float) (edges : list float) : float :=
  fold_left (fun s e => if abs (v - e) <? threshold then e else s) edges snapped.

(** The callback of [activeRoom.objects.forEach(other => ...)]. *)
Definition objectSnapStep (objectLibrary : list ObjectDefinition)
    (x y : float) (objId : option string) (st : float * float)
    (other : PlacedObject) : float * float :=
  if idIs (o_id other) objId then st
  else
    match findDef objectLibrary (o_definitionId other) with
    | None => st
    | Some otherDef =>
        let rect := getObjectRect other otherDef in
        let edgesX :=
          [Binary64.rect_x rect; Binary64.rect_x rect + Binary64.rect_width rect] in
        let edgesY :=
          [Binary64.rect_y rect; Binary64.rect_y rect + Binary64.rect_height rect] in
        (edgeSnap x (fst st) edgesX, edgeSnap y (snd st) edgesY)
    end.

Definition findSnapTarget (activeRoom : option Room)
    (objectLibrary : list ObjectDefinition) (x y : float) (objId : option string)
  : Binary64.Point :=
  match activeRoom with
  | None => Binary64.mkPoint (snapToGrid x) (snapToGrid y)
  | Some activeRoom =>
      let st0 := (snapToGrid x, snapToGrid y) in
      let st1 := fold_left (wallSnapStep (r_points activeRoom) x y)
                           (seq 0 (List.length (r_points activeRoom))) st0 in
      let st2 := fold_left (objectSnapStep objectLibrary x y objId)
                           (r_objects activeRoom) st1 in
      Binary64.mkPoint (fst st2) (snd st2)
  end.

End Snap64.

(** ** Placement validator ([App], [isValidPlacement]) *)

Module Placement.
Import Geometry.

(** The first loop; [true] when it runs to its end, [false] when it leaves
    the function with [return false]. *)
Fixpoint objectOverlapCheck (objectLibrary : list ObjectDefinition)
    (obj : PlacedObject) (rect : Rect) (excludeId : option string)
    (others : list PlacedObject) : bool :=
  match others with
  | [] => true
  | other :: rest =>
      if idIs (o_id other) excludeId || String.eqb (o_id other) (o_id obj)
      then objectOverlapCheck objectLibrary obj rect excludeId rest
      else
        match findDef objectLibrary (o_definitionId other) with
        | None => objectOverlapCheck objectLibrary obj rect excludeId rest
        | Some otherDef =>
            let otherRect := getObjectRect other otherDef in
            if checkRectOverlap rect otherRect then false
            else objectOverlapCheck objectLibrary obj rect excludeId rest
        end
  end.

(** The second loop, with the same convention. *)
Fixpoint tempWallCheck (rect : Rect) (walls : list TempWall) : bool :=
  match walls with
  | [] => true
  | wall :: rest =>
      if lineIntersectRect (w_start wall) (w_end wall) rect then false
      else tempWallCheck rect rest
  end.

Definition isValidPlacement (objectLibrary : list ObjectDefinition)
    (obj : PlacedObject) (room : Room) (excludeId : option string) : bool :=
  match findDef objectLibrary (o_definitionId obj) with
  | None => false
  | Some def =>
      let rect := getObjectRect obj def in
      if objectOverlapCheck objectLibrary obj rect excludeId (r_objects room)
      then tempWallCheck rect (r_tempWalls room)
      else false
  end.

End Placement.

(** ** Undo/redo history ([App], [addToHistory], [setRooms], [undo], [redo])

    The three pieces of React state are read and written together; an
    update function sees the state of the render in which its handler was
    created, which is the current one when handlers run one at a time.
    [rooms] is [None] when it holds [undefined]. *)

Module History.

Record State := mkState {
  rooms : option (list Room);
  history : list (list Room);
  historyIndex : Z
}.

(** [arr.slice(0, e)] *)
Definition slice0 {A} (arr : list A) (e : Z) : list A :=
  let len := Z.of_nat (List.length arr) in
  let k := if (e <? 0)%Z then Z.max (len + e) 0 else Z.min e len in
  firstn (Z.to_nat k) arr.

(** [arr[i]], [None] for [undefined] *)
Definition index {A} (arr : list A) (i : Z) : option A :=
  if (i <? 0)%Z then None else nth_error arr (Z.to_nat i).

(** [useState] initial values. *)
Definition initial : State := mkState (Some []) [] (-1).

(** The mount effect: [setRoomsState(initialRooms); setHistory([initialRooms]);
    setHistoryIndex(0)]. *)
Definition mount (initialRooms : list Room) (s : State) : State :=
  mkState (Some initialRooms) [initialRooms] 0.

Definition addToHistory (newRooms : list Room) (s : State) : State :=
  let nextHistory := slice0 (history s) (historyIndex s + 1) ++ [newRooms] in
  let nextHistory :=
    if (50 <? Z.of_nat (List.length nextHistory))%Z then tl nextHistory
    else nextHistory in
  let nextIndex := (historyIndex s + 1)%Z in
  mkState (rooms s) nextHistory (if (49 <? nextIndex)%Z then 49%Z else nextIndex).

Definition setRooms (next : list Room) (saveToHistory : bool) (s : State) : State :=
  let s' := if saveToHistory then addToHistory next s else s in
  mkState (Some next) (history s') (historyIndex s').

Definition undo (s : State) : State :=
  if (0 <? historyIndex s)%Z then
    let prevIndex := (historyIndex s - 1)%Z in
    mkState (index (history s) prevIndex) (history s) prevIndex
  else s.

Definition redo (s : State) : State :=
  if (historyIndex s <? Z.of_nat (List.length (history s)) - 1)%Z then
    let nextIndex := (historyIndex s + 1)%Z in
    mkState (index (history s) nextIndex) (history s) nextIndex
  else s.

(** What the user interface can do to the history after the mount. *)
Inductive action :=
| ASetRooms (next : list Room) (saveToHistory : bool)
| AUndo
| ARedo.

Definition step (a : action) (s : State) : State :=
  match a with
  | ASetRooms next save => setRooms next save s
  | AUndo => undo s
  | ARedo => redo s
  end.

Definition run (acts : list action) (s : State) : State :=
  fold_left (fun s a => step a s) acts s.

End History.

(** ** Handlers that run before the next render ([App], the same four
    functions)

    A handler is a closure of the render that created it: [addToHistory] is
    memoised on [historyIndex], [setRooms] on [addToHistory], and [undo] and
    [redo] are made anew by every render, so all of them read the [history]
    and the [historyIndex] of the last render.  The updates written as
    functions ([setHistory(prev => ...)], [setHistoryIndex(prev => ...)],
    [setRoomsState(prev => ...)]) receive the pending value instead.  In the
    functions below [c] is the state of the last render and [s] the pending
    state; [History] is the case of one handler per render, where the two
    are the same. *)

Module Batch.

Import History.

Definition addToHistory (c : State) (newRooms : list Room) (s : State) : State :=
  let nextHistory := slice0 (history s) (historyIndex c + 1) ++ [newRooms] in
  let nextHistory :=
    if (50 <? Z.of_nat (List.length nextHistory))%Z then tl nextHistory
    else nextHistory in
  let nextIndex := (historyIndex s + 1)%Z in
  mkState (rooms s) nextHistory (if (49 <? nextIndex)%Z then 49%Z else nextIndex).

Definition setRooms (c : State) (next : list Room) (saveToHistory : bool)
    (s : State) : State :=
  let s' := if saveToHistory then addToHistory c next s else s in
  mkState (Some next) (history s') (historyIndex s').

Definition undo (c s : State) : State :=
  if (0 <? historyIndex c)%Z then
    let prevIndex := (historyIndex c - 1)%Z in
    mkState (index (history c) prevIndex) (history s) prevIndex
  else s.

Definition redo (c s : State) : State :=
  if (historyIndex c <? Z.of_nat (List.length (history c)) - 1)%Z then
    let nextIndex := (historyIndex c + 1)%Z in
    mkState (index (history c) nextIndex) (history s) nextIndex
  else s.

Definition step (c : State) (a : action) (s : State) : State :=
  match a with
  | ASetRooms next save => setRooms c next save s
  | AUndo => undo c s
  | ARedo => redo c s
  end.

(** The handlers that run between two renders, in order. *)
Definition tick (acts : list action) (s : State) : State :=
  fold_left (fun pending a => step s a pending) acts s.

Definition run (ticks : list (list action)) (s : State) : State :=
  fold_left (fun s acts => tick acts s) ticks s.

End Batch.

(** ** Wall segment solver ([App], [handleBulkWallInput])

    The embedding starts at [segments], the result of reading the text
    area line by line.  The handler ends in calls of the state setters,
    which are recorded as an [Effect]; identifiers come from [Math.random]
    and are taken from a supply [ids], one per draw. *)

Module Solver.
Import Geometry Snap.

Inductive Orientation := H | V.

Record Segment := mkSeg { seg_length : Q; seg_orientation : Orientation }.

Definition isH (s : Segment) : bool :=
  match seg_orientation s with H => true | V => false end.

Definition isV (s : Segment) : bool :=
  match seg_orientation s with H => false | V => true end.

(** The inner loop [for j] of [solveDirections] for a fixed mask [i]: the
    remaining segments start at index [j]; the result is [(sum, dirs)]. *)
Fixpoint signLoop (i : nat) (segs : list Segment) (j : nat)
    (sum : Q) (dirs : list Q) : Q * list Q :=
  match segs with
  | [] => (sum, dirs)
  | s :: rest =>
      let dir := if Nat.testbit i j then 1 else -1 in
      signLoop i rest (S j) (sum + seg_length s * dir) (dirs ++ [dir])
  end.

Definition signedSum (segs : list Segment) (i : nat) : Q :=
  fst (signLoop i segs 0 0 []).

Definition signDirs (segs : list Segment) (i : nat) : list Q :=
  snd (signLoop i segs 0 0 []).

(** [segs.map((s, idx) => s.length * dirs[idx])]; [dirs] is as long as
    [segs], so the default of [nth] is never read. *)
Fixpoint applyDirs (segs : list Segment) (dirs : list Q) (idx : nat) : list Q :=
  match segs with
  | [] => []
  | s :: rest => seg_length s * nth idx dirs 0 :: applyDirs rest dirs (S idx)
  end.

Definition closesAt (segs : list Segment) (i : nat) : bool :=
  Qabs (signedSum segs i) <? (1#100).

(** [total] of the source is computed and never used. *)
Definition solveDirections (segs : list Segment) : list Q :=
  let n := List.length segs in
  if (12 <? n)%nat then map seg_length segs
  else
    match find (closesAt segs) (seq 0 (2 ^ n)) with
    | Some i => applyDirs segs (signDirs segs i) 0
    | None => map seg_length segs
    end.

(** The loop [for (const seg of segments)]: the points pushed after
    [current].  [hLengths] and [vLengths] are as long as the two
    subsequences, so the default of [nth] is never read. *)
Fixpoint walk (segments : list Segment) (hLengths vLengths : list Q)
    (hIdx vIdx : nat) (current : Point) : list Point :=
  match segments with
  | [] => []
  | seg :: rest =>
      match seg_orientation seg with
      | H =>
          let length := nth hIdx hLengths 0 in
          let next := mkPoint (p_x current + length) (p_y current) in
          next :: walk rest hLengths vLengths (S hIdx) vIdx next
      | V =>
          let length := nth vIdx vLengths 0 in
          let next := mkPoint (p_x current) (p_y current + length) in
          next :: walk rest hLengths vLengths hIdx (S vIdx) next
      end
  end.

(** [Math.min(...l)] of a list that is never empty here. *)
Definition Math_min (l : list Q) : Q :=
  match l with
  | [] => 0
  | a :: rest => fold_left Qmin rest a
  end.

Definition pathPoints (mousePos : Point) (segments : list Segment) : list Point :=
  let current := mkPoint (snapToGrid (p_x mousePos)) (snapToGrid (p_y mousePos)) in
  let hSegments := filter isH segments in
  let vSegments := filter isV segments in
  let hLengths := solveDirections hSegments in
  let vLengths := solveDirections vSegments in
  current :: walk segments hLengths vLengths 0 0 current.

Definition normalize (points : list Point) : list Point :=
  let minX := Math_min (map p_x points) in
  let minY := Math_min (map p_y points) in
  let offsetX := 10 - minX in
  let offsetY := 10 - minY in
  map (fun p => mkPoint (snapToGrid (p_x p + offsetX)) (snapToGrid (p_y p + offsetY)))
      points.

Definition normalizedPath (mousePos : Point) (segments : list Segment) : list Point :=
  normalize (pathPoints mousePos segments).

(** The square of [distToStart]. *)
Definition distToStartSq (normalizedPoints : list Point) : Q :=
  let lastP := last normalizedPoints origin in
  let firstP := nth 0 normalizedPoints origin in
  (p_x lastP - p_x firstP) * (p_x lastP - p_x firstP)
  + (p_y lastP - p_y firstP) * (p_y lastP - p_y firstP).

(** [distToStart < 1] *)
Definition closes (normalizedPoints : list Point) : bool :=
  distToStartSq normalizedPoints <? 1.

(** The loop that builds [newWalls]; [k] counts the identifiers drawn. *)
Fixpoint wallsOf (ids : nat -> string) (k : nat) (pts : list Point) : list TempWall :=
  match pts with
  | a :: (b :: _) as rest => mkWall (ids k) a b None None :: wallsOf ids (S k) rest
  | _ => []
  end.

Definition natToString (n : nat) : string :=
  DecimalString.NilEmpty.string_of_uint (Nat.to_uint n).

(** [if (activeRoomId)]: neither [null] nor the empty string. *)
Definition truthy (id : option string) : bool :=
  match id with
  | Some s => negb (String.eqb s EmptyString)
  | None => false
  end.

Inductive Effect :=
| NoEffect
| SetRooms (newRooms : list Room) (newActiveRoomId : option string).

Definition handleBulkWallInput (ids : nat -> string) (rooms : list Room)
    (activeRoomId : option string) (mousePos : Point)
    (segments : list Segment) : Effect :=
  match segments with
  | [] => NoEffect
  | _ =>
      let normalizedPoints := normalizedPath mousePos segments in
      if closes normalizedPoints then
        let newRoom :=
          mkRoom (ids 0%nat)
                 (String.append "Bulk Room " (natToString (List.length rooms + 1)))
                 (removelast normalizedPoints) [] [] None in
        SetRooms (rooms ++ [newRoom]) (Some (r_id newRoom))
      else
        let newWalls := wallsOf ids 0 normalizedPoints in
        if truthy activeRoomId then
          SetRooms
            (map (fun r =>
                    if idIs (r_id r) activeRoomId
                    then mkRoom (r_id r) (r_name r) (r_points r) (r_objects r)
                                (r_tempWalls r ++ newWalls) (r_labels r)
                    else r) rooms)
            activeRoomId
        else
          let newRoom :=
            mkRoom (ids (List.length newWalls)) "Imported Walls" [] [] newWalls None in
          SetRooms (rooms ++ [newRoom]) (Some (r_id newRoom))
  end.

End Solver.

(** ** Feet-and-inches text ([src/utils.ts], [parseFeetInches])

    A string is the list of its UTF-16 code units.  The two regular
    expressions are searched the way [String.prototype.match] does it: at
    each start position from the left, and greedily.  In both expressions
    every repetition is followed by an atom that none of its characters
    matches, so giving back characters never helps and the greedy attempt
    is the only one.  The results are binary64 numbers: [parseInt] and
    [parseFloat] give the number nearest to the value of the digits they
    read (the language lets an implementation ignore digits after the
    twentieth; here all digits count), an infinity when that value is
    beyond the largest finite number. *)

Module Parse.

Import PrimFloat.

Definition JsString := list N.

Definition units (s : string) : JsString :=
  map Ascii.N_of_ascii (list_ascii_of_string s).

Definition apostrophe : N := 39.
Definition dquote : N := 34.
Definition dot : N := 46.
Definition plus : N := 43.
Definition minus : N := 45.

(** [\d] *)
Definition isDigit (c : N) : bool := ((48 <=? c) && (c <=? 57))%N.

(** [\s], which is also the white space that [parseFloat] skips *)
Definition isSpace (c : N) : bool :=
  (existsb (N.eqb c)
     [9; 10; 11; 12; 13; 32; 160; 5760; 8232; 8233; 8239; 8287; 12288; 65279]
   || ((8192 <=? c) && (c <=? 8202)))%N.

(** The longest prefix whose characters satisfy [p], and the rest. *)
Fixpoint span (p : N -> bool) (s : JsString) : JsString * JsString :=
  match s with
  | c :: rest =>
      if p c then let (a, b) := span p rest in (c :: a, b) else ([], s)
  | [] => ([], [])
  end.

(** The number that a string of decimal digits denotes. *)
Definition digitsValue (ds : JsString) : N :=
  fold_left (fun acc c => 10 * acc + (c - 48))%N ds 0%N.

Definition integerValue (ds : JsString) : Q := inject_Z (Z.of_N (digitsValue ds)).

(** [parseInt(ds, 10)] of a string of decimal digits *)
Definition parseInt (ds : JsString) : float := Binary64.toNumber (integerValue ds).

(** The first expression (digits, an apostrophe, optional white space,
    digits, a double quote) tried at the start of [s]: the two groups. *)
Definition matchFeetInchesHere (s : JsString) : option (JsString * JsString) :=
  let (feet, r1) := span isDigit s in
  match feet, r1 with
  | _ :: _, c1 :: r2 =>
      if (c1 =? apostrophe)%N then
        let (_, r3) := span isSpace r2 in
        let (inches, r4) := span isDigit r3 in
        match inches, r4 with
        | _ :: _, c2 :: _ => if (c2 =? dquote)%N then Some (feet, inches) else None
        | _, _ => None
        end
      else None
  | _, _ => None
  end.

Fixpoint searchFeetInches (s : JsString) : option (JsString * JsString) :=
  match matchFeetInchesHere s with
  | Some m => Some m
  | None =>
      match s with
      | [] => None
      | _ :: rest => searchFeetInches rest
      end
  end.

(** The second expression (digits, an apostrophe) tried at the start of
    [s]: the group. *)
Definition matchFeetHere (s : JsString) : option JsString :=
  let (feet, r1) := span isDigit s in
  match feet, r1 with
  | _ :: _, c1 :: _ => if (c1 =? apostrophe)%N then Some feet else None
  | _, _ => None
  end.

Fixpoint searchFeet (s : JsString) : option JsString :=
  match matchFeetHere s with
  | Some m => Some m
  | None =>
      match s with
      | [] => None
      | _ :: rest => searchFeet rest
      end
  end.

Fixpoint startsWith (pre s : JsString) : bool :=
  match pre, s with
  | [], _ => true
  | a :: pre', b :: s' => (a =? b)%N && startsWith pre' s'
  | _ :: _, [] => false
  end.

(** The value of an [ExponentPart] at the start of [s], 0 when there is
    none (the literal then ends before [s]). *)
Definition exponentOf (s : JsString) : Z :=
  match s with
  | c :: r =>
      if ((c =? 101) || (c =? 69))%N then
        let '(neg, r') :=
          match r with
          | sg :: r1 =>
              if (sg =? minus)%N then (true, r1)
              else if (sg =? plus)%N then (false, r1)
              else (false, r)
          | [] => (false, r)
          end in
        match fst (span isDigit r') with
        | [] => 0%Z
        | ds => let e := Z.of_N (digitsValue ds) in if neg then (- e)%Z else e
        end
      else 0%Z
  | [] => 0%Z
  end.

(** The value of a decimal literal with the integer digits [ip] and the
    fraction digits [fp]. *)
Definition decimalValue (ip fp : JsString) : Q :=
  integerValue ip + integerValue fp / inject_Z (10 ^ Z.of_nat (List.length fp)).

(** The longest prefix of [s] that is a [StrUnsignedDecimalLiteral], as the
    number nearest to its value; NaN when no prefix is one. *)
Definition unsignedLiteral (s : JsString) : float :=
  if startsWith (units "Infinity") s then infinity
  else
    let (ip, r1) := span isDigit s in
    match r1 with
    | c :: r2 =>
        if (c =? dot)%N then
          let (fp, r3) := span isDigit r2 in
          match ip, fp with
          | [], [] => nan
          | _, _ => Binary64.toNumber (decimalValue ip fp * 10 ^ exponentOf r3)
          end
        else
          match ip with
          | [] => nan
          | _ => Binary64.toNumber (integerValue ip * 10 ^ exponentOf r1)
          end
    | [] =>
        match ip with
        | [] => nan
        | _ => Binary64.toNumber (integerValue ip)
        end
    end.

Definition parseFloat (str : JsString) : float :=
  let trimmed := snd (span isSpace str) in
  match trimmed with
  | c :: r =>
      if (c =? minus)%N then (- unsignedLiteral r)%float
      else if (c =? plus)%N then unsignedLiteral r
      else unsignedLiteral trimmed
  | [] => nan
  end.

(** [None] is the [null] of the source. *)
Definition parseFeetInches (str : JsString) : option float :=
  match searchFeetInches str with
  | Some (feet, inches) => Some (parseInt feet + parseInt inches / 12)%float
  | None =>
      match searchFeet str with
      | Some feet => Some (parseInt feet)
      | None =>
          let decimal := parseFloat str in
          if negb (is_nan decimal) then Some decimal else None
      end
  end.

End Parse.

(** ** Text of a length ([src/utils.ts], [formatFeetInches]) *)

Module Format.

(** The decimal digits of a natural number, as code units. *)
Definition natDigits (n : nat) : Parse.JsString :=
  Parse.units (DecimalString.NilEmpty.string_of_uint (Nat.to_uint n)).

(** The text that a template literal gives for an integer: its decimal
    digits, after a minus sign when it is negative.  (From 10^21 on the
    language prints an exponent instead; lengths of that size are outside
    this model.) *)
Definition intToString (z : Z) : Parse.JsString :=
  if (z <? 0)%Z then Parse.minus :: natDigits (Z.to_nat (- z))
  else natDigits (Z.to_nat z).

Definition formatFeetInches (decimalFeet : Q) : Parse.JsString :=
  let feet := Qfloor decimalFeet in
  let inches := Qfloor ((decimalFeet - inject_Z feet) * 12 + (1 # 2)) in
  intToString feet ++ Parse.apostrophe :: intToString inches ++ [Parse.dquote].

End Format.

(** ** Room list and library handlers ([App]) *)

Definition PIXELS_PER_FOOT : Q := 30.

Module Rooms.

(** [rooms.find(r => r.id === activeRoomId) || null] *)
Definition activeRoomOf (rooms : list Room) (activeRoomId : option string)
  : option Room :=
  find (fun r => idIs (r_id r) activeRoomId) rooms.

(** [rooms.map(r => r.id === activeRoomId ? f(r) : r)] *)
Definition updateActive (activeRoomId : option string) (f : Room -> Room)
    (rooms : list Room) : list Room :=
  map (fun r => if idIs (r_id r) activeRoomId then f r else r) rooms.

(** The new rooms and the new active room id. *)
Definition handleDeleteRoom (rooms : list Room) (activeRoomId : option string)
    (id : string) : list Room * option string :=
  let newRooms := filter (fun r => negb (String.eqb (r_id r) id)) rooms in
  (newRooms,
   if idIs id activeRoomId
   then match newRooms with
        | r :: _ => Some (r_id r)
        | [] => None
        end
   else activeRoomId).

(** The update of the object library in [handleImportJSON]: the imported
    definitions whose id is not there yet are appended, one after the
    other. *)
Definition mergeLibrary (prev imported : list ObjectDefinition)
  : list ObjectDefinition :=
  fold_left
    (fun newLibrary newDef =>
       if existsb (fun d => String.eqb (d_id d) (d_id newDef)) newLibrary
       then newLibrary
       else newLibrary ++ [newDef])
    imported prev.

End Rooms.

(** ** Object and wall handlers ([App])

    A handler that leaves without calling [setRooms] gives [None]. *)

Module Objects.
Import Geometry Snap Placement Rooms.

(** [ids.includes(id)] *)
Definition includes (ids : list string) (id : string) : bool :=
  existsb (String.eqb id) ids.

(** [a % b]: the remainder of the division that truncates. *)
Definition jsRem (a b : Q) : Q :=
  let q := a / b in
  a - b * inject_Z (if 0 <=? q then Qfloor q else Qceiling q).

Definition setRotation (o : PlacedObject) (rotation : Q) : PlacedObject :=
  mkObj (o_id o) (o_definitionId o) (o_x o) (o_y o) rotation.

Definition setPosition (o : PlacedObject) (x y : Q) : PlacedObject :=
  mkObj (o_id o) (o_definitionId o) x y (o_rotation o).

Definition setObjects (r : Room) (objects : list PlacedObject) : Room :=
  mkRoom (r_id r) (r_name r) (r_points r) objects (r_tempWalls r) (r_labels r).

Definition setTempWalls (r : Room) (tempWalls : list TempWall) : Room :=
  mkRoom (r_id r) (r_name r) (r_points r) (r_objects r) tempWalls (r_labels r).

Definition setPoints (r : Room) (points : list Point) : Room :=
  mkRoom (r_id r) (r_name r) points (r_objects r) (r_tempWalls r) (r_labels r).

Definition handleRotate (objectLibrary : list ObjectDefinition)
    (rooms : list Room) (activeRoomId : option string) (id : string)
  : option (list Room) :=
  match activeRoomOf rooms activeRoomId with
  | None => None
  | Some activeRoom =>
      match find (fun o => String.eqb (o_id o) id) (r_objects activeRoom) with
      | None => None
      | Some obj =>
          let nextRotation := jsRem (o_rotation obj + 90) 360 in
          let updatedObj := setRotation obj nextRotation in
          if isValidPlacement objectLibrary updatedObj activeRoom (Some id)
          then Some (updateActive activeRoomId
                       (fun r => setObjects r
                          (map (fun o => if String.eqb (o_id o) id then updatedObj else o)
                               (r_objects r)))
                       rooms)
          else None
      end
  end.

(** The callback of [r.objects.map] when a group is dragged. *)
Definition dragGroupStep (selectedObjectIds : list string) (id : string)
    (newX newY dx dy : Q) (o : PlacedObject) : PlacedObject :=
  if includes selectedObjectIds (o_id o) && negb (String.eqb (o_id o) id)
  then setPosition o (o_x o + dx) (o_y o + dy)
  else if String.eqb (o_id o) id then setPosition o newX newY
  else o.

Definition handleObjectDragEnd (rooms : list Room) (activeRoomId : option string)
    (selectedObjectIds : list string) (id : string) (targetX targetY : Q)
  : option (list Room) :=
  match activeRoomOf rooms activeRoomId with
  | None => None
  | Some activeRoom =>
      let newX := targetX / PIXELS_PER_FOOT in
      let newY := targetY / PIXELS_PER_FOOT in
      match find (fun o => String.eqb (o_id o) id) (r_objects activeRoom) with
      | None => None
      | Some obj =>
          if includes selectedObjectIds id then
            let dx := newX - o_x obj in
            let dy := newY - o_y obj in
            Some (updateActive activeRoomId
                    (fun r => setObjects r
                       (map (dragGroupStep selectedObjectIds id newX newY dx dy)
                            (r_objects r)))
                    rooms)
          else
            Some (updateActive activeRoomId
                    (fun r => setObjects r
                       (map (fun o => if String.eqb (o_id o) id
                                      then setPosition o newX newY else o)
                            (r_objects r)))
                    rooms)
      end
  end.

Definition handleWallDragEnd (rooms : list Room) (activeRoomId : option string)
    (id : string) (targetX targetY : Q) : option (list Room) :=
  match activeRoomOf rooms activeRoomId with
  | None => None
  | Some activeRoom =>
      match find (fun w => String.eqb (w_id w) id) (r_tempWalls activeRoom) with
      | None => None
      | Some wall =>
          let newStartX := snapToGrid (targetX / PIXELS_PER_FOOT) in
          let newStartY := snapToGrid (targetY / PIXELS_PER_FOOT) in
          let dx := newStartX - p_x (w_start wall) in
          let dy := newStartY - p_y (w_start wall) in
          let updatedWall :=
            mkWall (w_id wall) (mkPoint newStartX newStartY)
                   (mkPoint (p_x (w_end wall) + dx) (p_y (w_end wall) + dy))
                   (w_color wall) (w_isDashed wall) in
          Some (updateActive activeRoomId
                  (fun r => setTempWalls r
                     (map (fun w => if String.eqb (w_id w) id then updatedWall else w)
                          (r_tempWalls r)))
                  rooms)
      end
  end.

(** The ids that [handleMouseUp] selects in multi-select mode: the objects
    of the active room whose footprint lies within the rectangle spanned by
    the two corners. *)
Definition selectedBy (objectLibrary : list ObjectDefinition) (activeRoom : Room)
    (selectionStart selectionEnd : Point) : list string :=
  let x1 := Qmin (p_x selectionStart) (p_x selectionEnd) in
  let y1 := Qmin (p_y selectionStart) (p_y selectionEnd) in
  let x2 := Qmax (p_x selectionStart) (p_x selectionEnd) in
  let y2 := Qmax (p_y selectionStart) (p_y selectionEnd) in
  map o_id
    (filter
       (fun obj =>
          match findDef objectLibrary (o_definitionId obj) with
          | None => false
          | Some def =>
              let isRotated := (o_rotation obj =? 90) || (o_rotation obj =? 270) in
              let w := if isRotated then d_length def else d_width def in
              let h := if isRotated then d_width def else d_length def in
              let objX1 := o_x obj - w / 2 in
              let objY1 := o_y obj - h / 2 in
              let objX2 := o_x obj + w / 2 in
              let objY2 := o_y obj + h / 2 in
              (x1 <=? objX1) && (objX2 <=? x2) && (y1 <=? objY1) && (objY2 <=? y2)
          end)
       (r_objects activeRoom)).

End Objects.

(** ** Clicks on the canvas ([App], [handleCanvasClick])

    The handler reads the state of the current render and calls setters;
    the result is the state after them.  [onStage] says whether the click
    hit the stage itself rather than a shape on it. *)

Module Canvas.
Import Geometry Snap Rooms Objects.

Inductive Mode :=
| select | move | draw_room | draw_wall | place_object
| measure_line | measure_rect | add_text | multi_select.

Inductive WallStyle := solid | dotted.

Record State := mkCanvas {
  mode : Mode;
  rooms : list Room;
  activeRoomId : option string;
  drawingPoints : list Point;
  tempWallStart : option Point;
  measureStart : option Point;
  measureEnd : option Point;
  selectedObjectId : option string;
  selectedWallId : option string;
  selectedLabelId : option string;
  pendingTextPos : option Point;
  showTextInput : bool;
  wallColor : string;
  wallStyle : WallStyle
}.

Definition isSome {A} (o : option A) : bool :=
  match o with Some _ => true | None => false end.

(** "Enforce horizontal/vertical alignment": the click is moved onto the
    horizontal or the vertical through [anchor]. *)
Definition alignTo (anchor : Point) (gridX gridY : Q) : Q * Q :=
  let dx := Qabs (gridX - p_x anchor) in
  let dy := Qabs (gridY - p_y anchor) in
  if dy <? dx then (gridX, p_y anchor) else (p_x anchor, gridY).

(** The state with the three selections cleared. *)
Definition clearSelection (s : State) : State :=
  mkCanvas (mode s) (rooms s) (activeRoomId s) (drawingPoints s) (tempWallStart s)
           (measureStart s) (measureEnd s) None None None
           (pendingTextPos s) (showTextInput s) (wallColor s) (wallStyle s).

Definition handleCanvasClick (objectLibrary : list ObjectDefinition)
    (ids : nat -> string) (s : State) (pointerX pointerY : Q) (onStage : bool)
  : State :=
  let target :=
    findSnapTarget (activeRoomOf (rooms s) (activeRoomId s)) objectLibrary
                   (pointerX / PIXELS_PER_FOOT) (pointerY / PIXELS_PER_FOOT) None in
  let gridX := p_x target in
  let gridY := p_y target in
  match mode s with
  | measure_line | measure_rect =>
      if negb (isSome (measureStart s)) || (isSome (measureStart s) && isSome (measureEnd s))
      then mkCanvas (mode s) (rooms s) (activeRoomId s) (drawingPoints s)
                    (tempWallStart s) (Some (mkPoint gridX gridY)) None
                    (selectedObjectId s) (selectedWallId s) (selectedLabelId s)
                    (pendingTextPos s) (showTextInput s) (wallColor s) (wallStyle s)
      else mkCanvas (mode s) (rooms s) (activeRoomId s) (drawingPoints s)
                    (tempWallStart s) (measureStart s) (Some (mkPoint gridX gridY))
                    (selectedObjectId s) (selectedWallId s) (selectedLabelId s)
                    (pendingTextPos s) (showTextInput s) (wallColor s) (wallStyle s)
  | _ =>
      if negb onStage then s
      else
        let s0 := clearSelection s in
        match mode s with
        | draw_room =>
            let '(gridX, gridY) :=
              match drawingPoints s with
              | [] => (gridX, gridY)
              | _ => alignTo (last (drawingPoints s) origin) gridX gridY
              end in
            let newPoint := mkPoint gridX gridY in
            let first := nth 0 (drawingPoints s) origin in
            if (2 <? List.length (drawingPoints s))%nat
               && (Qabs (p_x first - gridX) <? (1 # 2))
               && (Qabs (p_y first - gridY) <? (1 # 2))
            then
              if Solver.truthy (activeRoomId s) then
                let lastP := last (drawingPoints s) origin in
                let points :=
                  if negb (p_x lastP =? p_x first) && negb (p_y lastP =? p_y first)
                  then drawingPoints s ++ [mkPoint (p_x lastP) (p_y first)]
                  else drawingPoints s in
                mkCanvas select
                         (updateActive (activeRoomId s) (fun r => setPoints r points)
                                       (rooms s))
                         (activeRoomId s) [] (tempWallStart s)
                         (measureStart s) (measureEnd s) None None None
                         (pendingTextPos s) (showTextInput s) (wallColor s) (wallStyle s)
              else s0
            else
              mkCanvas (mode s) (rooms s) (activeRoomId s)
                       (drawingPoints s ++ [newPoint]) (tempWallStart s)
                       (measureStart s) (measureEnd s) None None None
                       (pendingTextPos s) (showTextInput s) (wallColor s) (wallStyle s)
        | draw_wall =>
            match tempWallStart s with
            | None =>
                mkCanvas (mode s) (rooms s) (activeRoomId s) (drawingPoints s)
                         (Some (mkPoint gridX gridY))
                         (measureStart s) (measureEnd s) None None None
                         (pendingTextPos s) (showTextInput s) (wallColor s) (wallStyle s)
            | Some start =>
                let '(gridX, gridY) := alignTo start gridX gridY in
                let newWall :=
                  mkWall (ids 0%nat) start (mkPoint gridX gridY) (Some (wallColor s))
                         (Some (match wallStyle s with dotted => true | solid => false end)) in
                mkCanvas (mode s)
                         (if Solver.truthy (activeRoomId s)
                          then updateActive (activeRoomId s)
                                 (fun r => setTempWalls r (r_tempWalls r ++ [newWall]))
                                 (rooms s)
                          else rooms s)
                         (activeRoomId s) (drawingPoints s) None
                         (measureStart s) (measureEnd s) None None None
                         (pendingTextPos s) (showTextInput s) (wallColor s) (wallStyle s)
            end
        | add_text =>
            mkCanvas (mode s) (rooms s) (activeRoomId s) (drawingPoints s)
                     (tempWallStart s) (measureStart s) (measureEnd s) None None None
                     (Some (mkPoint gridX gridY)) true (wallColor s) (wallStyle s)
        | _ => s0
        end
  end.

End Canvas.

(** ** The rectangle measuring tool ([App], the pallet estimate) *)

Module Measure.





End Measure.

(** * Notions used in the statements *)

(** Extent of the intersection of two footprints along each axis. *)
Definition overlapWidth (r1 r2 : Rect) : Q :=
  Qmin (rect_x r1 + rect_width r1) (rect_x r2 + rect_width r2)
  - Qmax (rect_x r1) (rect_x r2).

Definition overlapHeight (r1 r2 : Rect) : Q :=
  Qmin (rect_y r1 + rect_height r1) (rect_y r2 + rect_height r2)
  - Qmax (rect_y r1) (rect_y r2).

(** One rectangle ends exactly where the other one starts. *)
Definition touchAtEdge (r1 r2 : Rect) : Prop :=
  rect_x r1 + rect_width r1 == rect_x r2
  \/ rect_x r2 + rect_width r2 == rect_x r1
  \/ rect_y r1 + rect_height r1 == rect_y r2
  \/ rect_y r2 + rect_height r2 == rect_y r1.

Definition properRect (r : Rect) : Prop :=
  0 < rect_width r /\ 0 < rect_height r.

(** A room with another list of placed objects. *)
Definition withObjects (room : Room) (objects : list PlacedObject) : Room :=
  mkRoom (r_id room) (r_name room) (r_points room) objects
         (r_tempWalls room) (r_labels room).

(** The history holds at most 50 snapshots and the cursor is on one of
    them. *)
Definition historyBounded (s : History.State) : Prop :=
  (List.length (History.history s) <= 50)%nat
  /\ (0 <= History.historyIndex s
           <= Z.of_nat (List.length (History.history s)) - 1)%Z.

(** The history holds at most 50 snapshots and the cursor is between 0 and
    49. *)
Definition historyCapped (s : History.State) : Prop :=
  (List.length (History.history s) <= 50)%nat
  /\ (0 <= History.historyIndex s <= 49)%Z.

(** Before the mount effect has run the history is empty and the cursor is
    the initial -1. *)
Definition historyEmpty (s : History.State) : Prop :=
  History.history s = [] /\ History.historyIndex s = (-1)%Z.

(** The rooms on display are the snapshot under the cursor. *)
Definition historyConsistent (s : History.State) : Prop :=
  History.rooms s = History.index (History.history s) (History.historyIndex s).


(** Dropping the oldest entry of a buffer that grew past the cap. *)
Definition evictOldest {A} (buffer : list A) : list A :=
  if (50 <? List.length buffer)%nat then tl buffer else buffer.

(** A coordinate that is an integer multiple of the grid unit. *)
Definition onGrid (v : Q) : Prop := exists k : Z, v == inject_Z k * GRID_SIZE.

(** The sum of a list of signed lengths. *)
Definition sumQ (l : list Q) : Q := fold_right Qplus 0 l.



(** A run of one or more decimal digits. *)
Definition digitRun (ds : Parse.JsString) : Prop :=
  ds <> [] /\ forallb Parse.isDigit ds = true.

(** The feet-inches form: digits, an apostrophe, optional white space,
    digits, a double quote. *)
Definition feetInchesForm (feet ws inches : Parse.JsString) : Parse.JsString :=
  feet ++ Parse.apostrophe :: ws ++ inches ++ [Parse.dquote].

Definition containsFeetInches (s : Parse.JsString) : Prop :=
  exists pre feet ws inches post,
    s = pre ++ feetInchesForm feet ws inches ++ post
    /\ digitRun feet /\ forallb Parse.isSpace ws = true /\ digitRun inches.

(** The bare-feet form: digits and an apostrophe. *)
Definition containsFeet (s : Parse.JsString) : Prop :=
  exists pre feet post,
    s = pre ++ feet ++ Parse.apostrophe :: post /\ digitRun feet.

(** The feet-inches form with the groups [feet] and [inches] starts at
    position [k] of the string. *)
Definition feetInchesAt (s : Parse.JsString) (k : nat)
    (feet inches : Parse.JsString) : Prop :=
  exists pre ws post,
    s = pre ++ feetInchesForm feet ws inches ++ post /\ List.length pre = k
    /\ digitRun feet /\ forallb Parse.isSpace ws = true /\ digitRun inches.

(** It is the first one: no feet-inches form starts further left. *)
Definition firstFeetInches (s feet inches : Parse.JsString) : Prop :=
  exists k,
    feetInchesAt s k feet inches
    /\ forall k' feet' inches', (k' < k)%nat -> ~ feetInchesAt s k' feet' inches'.

(** The same for the bare-feet form. *)
Definition feetAt (s : Parse.JsString) (k : nat) (feet : Parse.JsString) : Prop :=
  exists pre post,
    s = pre ++ feet ++ Parse.apostrophe :: post /\ List.length pre = k
    /\ digitRun feet.

Definition firstFeet (s feet : Parse.JsString) : Prop :=
  exists k,
    feetAt s k feet /\ forall k' feet', (k' < k)%nat -> ~ feetAt s k' feet'.

(** A plain decimal: digits, or digits, a dot and digits, and nothing else. *)
Definition isPlainDecimal (s : Parse.JsString) : bool :=
  match Parse.span Parse.isDigit s with
  | (_ :: _, []) => true
  | (_ :: _, c :: fp) =>
      (c =? Parse.dot)%N
      && match fp with [] => false | _ => forallb Parse.isDigit fp end
  | ([], _) => false
  end.

(** The text starts with an unsigned literal: a digit, a dot and a digit,
    or the word Infinity. *)
Definition literalStart (u : Parse.JsString) : bool :=
  match u with
  | c :: r =>
      Parse.isDigit c
      || ((c =? Parse.dot)%N && match r with d :: _ => Parse.isDigit d | [] => false end)
      || Parse.startsWith (Parse.units "Infinity") u
  | [] => false
  end.

(** The text starts with something [parseFloat] can read: white space, one
    optional sign, and then an unsigned literal. *)
Definition startsNumber (s : Parse.JsString) : bool :=
  let trimmed := snd (Parse.span Parse.isSpace s) in
  match trimmed with
  | c :: r =>
      if ((c =? Parse.minus) || (c =? Parse.plus))%N then literalStart r
      else literalStart trimmed
  | [] => false
  end.

(** The pair of snapped coordinates is still the point itself. *)
Definition stillAt (x y : Q) (st : Q * Q) : Prop := fst st == x /\ snd st == y.

(** The boundary of an axis-aligned rectangular room with the opposite
    corners [(x0, y0)] and [(x1, y1)], listed from [(x0, y0)] along the x
    axis first. *)
Definition rectangleRoom (x0 y0 x1 y1 : Q) : list Point :=
  [mkPoint x0 y0; mkPoint x1 y0; mkPoint x1 y1; mkPoint x0 y1].

(** The pair of snapped coordinates is within the snapping threshold of
    the raw position on each axis. *)
Definition nearRaw (x y : Q) (st : Q * Q) : Prop :=
  Qabs (fst st - x) <= 1 # 2 /\ Qabs (snd st - y) <= 1 # 2.

(** The objects that can attract the cursor: not the one being moved, and
    with a definition in the library. *)
Definition attracts (objectLibrary : list ObjectDefinition) (objId : option string)
    (other : PlacedObject) : bool :=
  negb (idIs (o_id other) objId)
  && match findDef objectLibrary (o_definitionId other) with
     | Some _ => true
     | None => false
     end.

(** A room with other objects and temporary walls. *)
Definition withContents (room : Room) (objects : list PlacedObject)
    (walls : list TempWall) : Room :=
  mkRoom (r_id room) (r_name room) (r_points room) objects walls (r_labels room).

(** The sign that mask [i] gives to segment [j]. *)
Definition dirOf (i j : nat) : Q := if Nat.testbit i j then 1 else -1.

(** The signed lengths that mask [i] gives to the segments from index [j]
    on. *)
Fixpoint signedFrom (i : nat) (segs : list Solver.Segment) (j : nat) : list Q :=
  match segs with
  | [] => []
  | s :: rest => Solver.seg_length s * dirOf i j :: signedFrom i rest (S j)
  end.

(** Consecutive points share a coordinate: every step of the path is
    horizontal or vertical. *)
Fixpoint rectilinearPath (pts : list Point) : Prop :=
  match pts with
  | a :: (b :: _) as rest =>
      (p_x a = p_x b \/ p_y a = p_y b) /\ rectilinearPath rest
  | _ => True
  end.

(** Each wall starts where the one before it ends. *)
Fixpoint chained (walls : list TempWall) : Prop :=
  match walls with
  | a :: (b :: _) as rest => w_end a = w_start b /\ chained rest
  | _ => True
  end.

Definition axisAligned (w : TempWall) : Prop :=
  p_x (w_start w) = p_x (w_end w) \/ p_y (w_start w) = p_y (w_end w).

(** Room for the rounding of the sums of binary64: 2^-20 ft. *)
Definition roundingMargin : Q := 1 # 1048576.


(** Lengths of at most 4096 ft. *)
Definition ordinaryLengths (segs : list Solver.Segment) : Prop :=
  Forall (fun s => Qabs (Solver.seg_length s) <= 4096) segs.






(** The whole feet of the length have fewer than 22 digits, so that their
    text is the plain decimal one (from 10^21 on it has an exponent). *)
Definition plainFeet (decimalFeet : Q) : Prop :=
  (Z.abs (Qfloor decimalFeet) < 10 ^ 21)%Z.

(** The object after the quarter turn that [handleRotate] tries. *)
Definition turned (obj : PlacedObject) : PlacedObject :=
  Objects.setRotation obj (Objects.jsRem (o_rotation obj + 90) 360).

(** A rotation by a whole number of quarter turns. *)
Definition quarterTurn (rotation : Q) : Prop :=
  rotation == 0 \/ rotation == 90 \/ rotation == 180 \/ rotation == 270.

(** [o'] is [o] moved by [(dx, dy)], up to the rounding margin. *)
Definition offsetBy (dx dy : Q) (o o' : PlacedObject) : Prop :=
  o_id o' = o_id o /\ o_definitionId o' = o_definitionId o
  /\ o_rotation o' = o_rotation o
  /\ Qabs (o_x o' - (o_x o + dx)) <= roundingMargin
  /\ Qabs (o_y o' - (o_y o + dy)) <= roundingMargin.

(** A coordinate of ordinary size, at most 2^20 in absolute value, on which
    the rounding of a few sums stays below the margin. *)
Definition ordinaryCoordinate (v : Q) : Prop := Qabs v <= 1048576.

(** The edge from the last point of a boundary back to its first one is
    horizontal or vertical. *)
Definition closingEdgeAligned (pts : list Point) : Prop :=
  match pts with
  | [] => True
  | first :: _ =>
      p_x (last pts Geometry.origin) == p_x first
      \/ p_y (last pts Geometry.origin) == p_y first
  end.

(** A boundary all of whose edges, the closing one included, are
    horizontal or vertical. *)
Definition rectilinearLoop (pts : list Point) : Prop :=
  rectilinearPath pts /\ closingEdgeAligned pts.

(** What the drawing tools keep: the points clicked so far make a
    rectilinear path, every room boundary is a rectilinear loop, and every
    temporary wall is horizontal or vertical. *)
Definition canvasWellFormed (s : Canvas.State) : Prop :=
  rectilinearPath (Canvas.drawingPoints s)
  /\ Forall (fun r => rectilinearLoop (r_points r)) (Canvas.rooms s)
  /\ Forall (fun r => Forall axisAligned (r_tempWalls r)) (Canvas.rooms s).

(** What a click on the canvas leaves alone in a room. *)
Definition roomFrame (r : Room)
  : string * string * list PlacedObject * option (list RoomLabel) :=
  (r_id r, r_name r, r_objects r, r_labels r).

(** ** Notions for the binary64 statements *)

Section Binary64Notions.
Import PrimFloat SpecFloat FloatOps.

(** The point and the rectangle written with decimal literals. *)
Definition literalPoint (x y : Q) : Binary64.Point :=
  Binary64.mkPoint (Binary64.toNumber x) (Binary64.toNumber y).

Definition literalRect (x y width height : Q) : Binary64.Rect :=
  Binary64.mkRect (Binary64.toNumber x) (Binary64.toNumber y)
                  (Binary64.toNumber width) (Binary64.toNumber height).

(** The abscissa at which [isPointInPolygon] puts the crossing of the edge
    from [pi] to [pj] with the horizontal line at [py]. *)
Definition crossingAbscissa (pi pj : Binary64.Point) (py : float) : float :=
  ((Binary64.p_x pj - Binary64.p_x pi) * (py - Binary64.p_y pi)
   / (Binary64.p_y pj - Binary64.p_y pi) + Binary64.p_x pi)%float.

(** Taking [c'] from [c] and adding it back gives [c] again: the two
    roundings leave no residue. *)
Definition cancelsExactly (c c' : float) : Prop :=
  (0 + c - c' + c')%float = (0 + c)%float.

(** The far edges of a rectangle as [checkRectOverlap] computes them. *)
Definition farX (r : Binary64.Rect) : float :=
  (Binary64.rect_x r + Binary64.rect_width r)%float.

Definition farY (r : Binary64.Rect) : float :=
  (Binary64.rect_y r + Binary64.rect_height r)%float.

(** None of the four edges is NaN. *)
Definition comparable (r : Binary64.Rect) : Prop :=
  is_nan (Binary64.rect_x r) = false /\ is_nan (Binary64.rect_y r) = false
  /\ is_nan (farX r) = false /\ is_nan (farY r) = false.

(** The computed far edge of one rectangle is the near edge of the other. *)
Definition touchAtComputedEdge (r1 r2 : Binary64.Rect) : Prop :=
  (farX r1 =? Binary64.rect_x r2)%float = true
  \/ (farX r2 =? Binary64.rect_x r1)%float = true
  \/ (farY r1 =? Binary64.rect_y r2)%float = true
  \/ (farY r2 =? Binary64.rect_y r1)%float = true.

(** The rectangle of rationals that a rectangle of finite numbers is. *)
Definition exactRect (r : Binary64.Rect) : Rect :=
  mkRect (Binary64.valueOf (Binary64.rect_x r)) (Binary64.valueOf (Binary64.rect_y r))
         (Binary64.valueOf (Binary64.rect_width r))
         (Binary64.valueOf (Binary64.rect_height r)).

(** The four edges are finite and the two sums [x + width] and
    [y + height] are not rounded. *)
Definition exactFarEdges (r : Binary64.Rect) : Prop :=
  is_finite (Binary64.rect_x r) = true /\ is_finite (Binary64.rect_y r) = true
  /\ is_finite (farX r) = true /\ is_finite (farY r) = true
  /\ Binary64.valueOf (farX r)
     == Binary64.valueOf (Binary64.rect_x r) + Binary64.valueOf (Binary64.rect_width r)
  /\ Binary64.valueOf (farY r)
     == Binary64.valueOf (Binary64.rect_y r) + Binary64.valueOf (Binary64.rect_height r).

(** A finite number or a zero in the form that the machine keeps. *)
Definition finiteSF (x : spec_float) : Prop :=
  match x with
  | S754_zero _ => True
  | S754_finite _ m e => bounded prec emax m e = true
  | _ => False
  end.

(** A finite number as a multiple of the smallest positive one, 2^-1074. *)
Definition scaled (x : spec_float) : Z :=
  match x with
  | S754_finite s m e => ((if s then Zneg m else Zpos m) * 2 ^ (e + 1074))%Z
  | _ => 0%Z
  end.

Definition flip (c : option comparison) : option comparison :=
  match c with Some c => Some (CompOpp c) | None => None end.

(** A record of a shifted mantissa with no bit lost. *)
Definition exactRecord (m : Z) : shr_record :=
  {| shr_m := m; shr_r := false; shr_s := false |}.

(** A finite number without a fractional part: a coordinate on the 1 ft
    grid. *)
Definition integral (n : float) : Prop := Snap64.isIntegral n = true.

(** The edge [e] is strictly within the snapping threshold of [v]. *)
Definition withinThreshold (v e : float) : bool :=
  (abs (v - e) <? Snap64.threshold)%float.

(** The abscissae of the vertical walls of a boundary and the ordinates of
    its horizontal walls, in the order of the vertices: a wall counts as
    vertical (horizontal) when its ends differ by less than 0.01 in x
    (in y), and it is taken at its first end. *)
Definition wallEdges (coord : Binary64.Point -> float)
    (points : list Binary64.Point) : list float :=
  flat_map (fun i =>
              let p1 := nth i points Binary64.origin in
              let p2 := nth ((i + 1) mod (List.length points))%nat points
                            Binary64.origin in
              if (abs (coord p1 - coord p2) <? Binary64.toNumber (1 # 100))%float
              then [coord p1] else [])
           (seq 0 (List.length points)).

(** The near and far edges, along x and along y, of the footprints of the
    objects that attract: all but the object being moved and those whose
    definition is not in the library. *)
Definition footprintEdges (near extent : Binary64.Rect -> float)
    (objectLibrary : list Snap64.ObjectDefinition) (objId : option string)
    (objects : list Snap64.PlacedObject) : list float :=
  flat_map (fun other =>
              if idIs (Snap64.o_id other) objId then []
              else
                match Snap64.findDef objectLibrary (Snap64.o_definitionId other) with
                | None => []
                | Some def =>
                    let rect := Snap64.getObjectRect other def in
                    [near rect; (near rect + extent rect)%float]
                end)
           objects.

Definition snapEdgesX (objectLibrary : list Snap64.ObjectDefinition)
    (objId : option string) (room : Snap64.Room) : list float :=
  wallEdges Binary64.p_x (Snap64.r_points room)
  ++ footprintEdges Binary64.rect_x Binary64.rect_width objectLibrary objId
                    (Snap64.r_objects room).

Definition snapEdgesY (objectLibrary : list Snap64.ObjectDefinition)
    (objId : option string) (room : Snap64.Room) : list float :=
  wallEdges Binary64.p_y (Snap64.r_points room)
  ++ footprintEdges Binary64.rect_y Binary64.rect_height objectLibrary objId
                    (Snap64.r_objects room).

(** The last edge of the list that is strictly within the threshold of [v],
    and [v] itself when there is none. *)
Definition snapsTo (v : float) (edges : list float) : float :=
  match find (withinThreshold v) (rev edges) with
  | Some e => e
  | None => v
  end.

(** No edge other than [v] itself is strictly within the threshold of [v]. *)
Definition notAttracted (v : float) (edges : list float) : Prop :=
  Forall (fun e => withinThreshold v e = true -> e = v) edges.

(** The finite number [x] is the integer [n], as a multiple of 2^-1074. *)
Definition wholeSF (x : spec_float) (n : Z) : Prop :=
  finiteSF x /\ scaled x = (n * 2 ^ 1074)%Z.

(** The number [x] is the integer [n]. *)
Definition whole (x : float) (n : Z) : Prop := wholeSF (Prim2SF x) n.

(** A point of the 1 ft grid, of ordinary size: both coordinates are
    finite numbers without a fractional part, at most 2^20 in absolute
    value. *)
Definition gridPoint (p : Binary64.Point) : Prop :=
  integral (Binary64.p_x p) /\ integral (Binary64.p_y p)
  /\ ordinaryCoordinate (Binary64.valueOf (Binary64.p_x p))
  /\ ordinaryCoordinate (Binary64.valueOf (Binary64.p_y p)).

(** The two points are the ends of a vertical or of a horizontal wall. *)
Definition axisAligned64 (a b : Binary64.Point) : Prop :=
  Binary64.valueOf (Binary64.p_x a) == Binary64.valueOf (Binary64.p_x b)
  \/ Binary64.valueOf (Binary64.p_y a) == Binary64.valueOf (Binary64.p_y b).

End Binary64Notions.

(** ** Sample data for the instances *)

Module Sample.

Definition library : list ObjectDefinition :=
  [ mkDef "sofa" "Sofa" 3 6 None;
    mkDef "desk" "Desk" (10#3) 4 None;
    mkDef "table" "Table" 2 4 None;
    mkDef "default-door" "Standard Door" 3 3 (Some door) ].

Definition sofa : PlacedObject := mkObj "o1" "sofa" 4 5 0.
Definition desk : PlacedObject := mkObj "o2" "desk" 5 5 0.
Definition ghost : PlacedObject := mkObj "o3" "deleted-definition" 4 5 90.
Definition chair : PlacedObject := mkObj "o4" "sofa" 20 20 90.

Definition wall : TempWall := mkWall "w1" (mkPoint 0 12) (mkPoint 9 12) None None.

Definition square : list Point :=
  [mkPoint 0 0; mkPoint 10 0; mkPoint 10 10; mkPoint 0 10].

Definition roomA : Room := mkRoom "r1" "Office" square [chair] [wall] None.
Definition roomB : Room := mkRoom "r2" "Shed" [mkPoint 100 100] [chair] [wall] None.
Definition haunted : Room := mkRoom "r3" "Attic" square [chair; ghost] [wall] None.
Definition deskRoom : Room := mkRoom "r4" "Study" square [desk] [] None.
Definition squareSegments : list Solver.Segment :=
  [ Solver.mkSeg 2 Solver.H; Solver.mkSeg 2 Solver.V;
    Solver.mkSeg 2 Solver.H; Solver.mkSeg 2 Solver.V ].



Definition ids (k : nat) : string :=
  String.append "id" (DecimalString.NilEmpty.string_of_uint (Nat.to_uint k)).

Definition squareRoomPoints : list Point :=
  [mkPoint 10 10; mkPoint 12 10; mkPoint 12 12; mkPoint 10 12].

Definition table : PlacedObject := mkObj "o5" "table" 5 5 0.
Definition tableRoom : Room := mkRoom "r5" "Kitchen" square [table; ghost] [] None.

(** A room being drawn: three corners clicked in the active room. *)
Definition drawing : Canvas.State :=
  Canvas.mkCanvas Canvas.draw_room [roomA] (Some "r1"%string)
    [mkPoint 0 0; mkPoint 10 0; mkPoint 10 10] None None None None None None None
    false "#1e293b" Canvas.solid.

(** The study in binary64: a desk 10/3 ft wide and 4 ft long centred at
    (5, 5) in the 10 ft square. *)
Definition library64 : list Snap64.ObjectDefinition :=
  [ Snap64.mkDef "sofa" (Binary64.toNumber 3) (Binary64.toNumber 6);
    Snap64.mkDef "desk" (Binary64.toNumber (10 # 3)) (Binary64.toNumber 4) ].

Definition desk64 : Snap64.PlacedObject :=
  Snap64.mkObj "o2" "desk" (Binary64.toNumber 5) (Binary64.toNumber 5)
               (Binary64.toNumber 0).

Definition square64 : list Binary64.Point :=
  [literalPoint 0 0; literalPoint 10 0; literalPoint 10 10; literalPoint 0 10].

Definition deskRoom64 : Snap64.Room := Snap64.mkRoom square64 [desk64].

End Sample.

(** * Properties *)

Import Geometry.

(** ** Comparisons *)

Lemma Qltb_lt (a b : Q) : (a <? b) = true <-> a < b.
Proof.
  unfold Qltb. rewrite negb_true_iff.
  split; intro H.
  - apply Qnot_le_lt. intro Hle. apply Qle_bool_iff in Hle. congruence.
  - destruct (Qle_bool b a) eqn:E; [|reflexivity].
    apply Qle_bool_iff in E. exfalso. exact (Qlt_not_le _ _ H E).
Qed.

Lemma Qltb_ge (a b : Q) : (a <? b) = false <-> b <= a.
Proof.
  unfold Qltb. rewrite negb_false_iff. apply Qle_bool_iff.
Qed.

Lemma Qleb_le (a b : Q) : (a <=? b) = true <-> a <= b.
Proof. apply Qle_bool_iff. Qed.

Lemma Qleb_gt (a b : Q) : (a <=? b) = false <-> b < a.
Proof.
  rewrite <- Qltb_lt. unfold Qltb. rewrite negb_true_iff. tauto.
Qed.

#[export] Instance Qltb_comp : Proper (Qeq ==> Qeq ==> eq) Qltb.
Proof. intros a b E c d F. unfold Qltb. now rewrite E, F. Qed.

(** ** Binary64 numbers *)

Section Binary64Facts.
Import PrimFloat SpecFloat FloatOps FloatAxioms.

Lemma SFcompare_refl (x : spec_float) : x <> S754_nan -> SFcompare x x = Some Eq.
Proof.
  destruct x as [s|s| |s m e]; intro H; cbn; try congruence.
  - now destruct s.
  - destruct s; rewrite Z.compare_refl, Pos.compare_cont_refl; reflexivity.
Qed.

Lemma is_nan_spec (x : float) : is_nan x = true <-> Prim2SF x = S754_nan.
Proof.
  unfold is_nan. rewrite eqb_spec. unfold SFeqb. split.
  - destruct (Prim2SF x) eqn:E; intro H; try reflexivity;
      rewrite SFcompare_refl in H by discriminate; discriminate.
  - intros ->. reflexivity.
Qed.

Lemma is_nan_false (x : float) : is_nan x = false <-> Prim2SF x <> S754_nan.
Proof.
  rewrite <- is_nan_spec. destruct (is_nan x); split; congruence.
Qed.

Lemma leb_refl (x : float) : is_nan x = false -> (x <=? x)%float = true.
Proof.
  intro H. apply is_nan_false in H. rewrite leb_spec. unfold SFleb.
  now rewrite SFcompare_refl.
Qed.

Lemma SFcompare_flip (x y : spec_float) : SFcompare y x = flip (SFcompare x y).
Proof.
  destruct x as [sx|sx| |sx mx ex], y as [sy|sy| |sy my ey]; cbn;
    try reflexivity;
    try (destruct sx; reflexivity); try (destruct sy; reflexivity);
    try (destruct sx, sy; reflexivity).
  destruct sx, sy; try reflexivity;
    rewrite (Z.compare_antisym ex ey);
    destruct (ex ?= ey)%Z; cbn; try reflexivity;
    rewrite (Pos.compare_cont_antisym mx my Eq); cbn;
    now destruct (Pos.compare_cont Eq mx my).
Qed.

Lemma ltb_not_leb (x y : float) :
  is_nan x = false -> is_nan y = false ->
  (x <? y)%float = negb (y <=? x)%float.
Proof.
  intros Hx Hy. apply is_nan_false in Hx, Hy.
  rewrite ltb_spec, leb_spec. unfold SFltb, SFleb.
  rewrite (SFcompare_flip (Prim2SF x) (Prim2SF y)).
  destruct (Prim2SF x) as [sx|sx| |sx mx ex], (Prim2SF y) as [sy|sy| |sy my ey];
    try congruence;
    destruct (SFcompare _ _) as [[| |]|] eqn:E; cbn; try reflexivity;
    cbn in E; try discriminate;
    try (destruct sx; discriminate); try (destruct sy; discriminate);
    try (destruct sx, sy; discriminate).
Qed.

Lemma is_finite_spec (x : float) :
  is_finite x = true ->
  (exists s, Prim2SF x = S754_zero s) \/ (exists s m e, Prim2SF x = S754_finite s m e).
Proof.
  unfold is_finite, is_infinity. rewrite negb_true_iff, orb_false_iff.
  intros [Hn Hi]. apply is_nan_false in Hn.
  rewrite eqb_spec, abs_spec in Hi.
  destruct (Prim2SF x) as [s|s| |s m e]; try congruence.
  - left. now exists s.
  - exfalso. cbn in Hi. unfold SFeqb in Hi. vm_compute in Hi. discriminate.
  - right. now exists s, m, e.
Qed.

(** [(0 + a) - a] is [+0] for every finite [a]. *)
Lemma add_zero_sub_diag (a : float) :
  is_finite a = true -> (0 + a - a)%float = 0%float.
Proof.
  intro Hf. apply Prim2SF_inj. rewrite sub_spec, add_spec.
  change (Prim2SF 0) with (S754_zero false).
  destruct (is_finite_spec a Hf) as [[s ->] | (s & m & e & ->)].
  - now destruct s.
  - cbn. rewrite Z.min_id. rewrite Z.sub_diag. reflexivity.
Qed.

Lemma shr_1_nonneg (mrs : shr_record) :
  (0 <= shr_m mrs)%Z -> (0 <= shr_m (shr_1 mrs))%Z.
Proof.
  destruct mrs as [m r s]. destruct m as [|[p|p|]|[p|p|]]; cbn; lia.
Qed.

Lemma iter_shr_1_nonneg (p : positive) (mrs : shr_record) :
  (0 <= shr_m mrs)%Z -> (0 <= shr_m (iter_pos shr_1 p mrs))%Z.
Proof.
  revert mrs. induction p as [p IH|p IH|]; intros mrs H; cbn [iter_pos].
  - apply IH, IH. now apply shr_1_nonneg.
  - now apply IH, IH.
  - now apply shr_1_nonneg.
Qed.

Lemma shr_fexp_nonneg (m e : Z) (l : location) :
  (0 <= m)%Z -> (0 <= shr_m (fst (shr_fexp prec emax m e l)))%Z.
Proof.
  intro H. unfold shr_fexp, shr.
  assert (H0 : (0 <= shr_m (shr_record_of_loc m l))%Z)
    by (destruct l as [|[| |]]; exact H).
  destruct (fexp prec emax (Zdigits2 m + e) - e)%Z; cbn [fst]; try exact H0.
  now apply iter_shr_1_nonneg.
Qed.

Lemma binary_round_aux_not_nan (s : bool) (m e : Z) (l : location) :
  (0 <= m)%Z -> binary_round_aux prec emax s m e l <> S754_nan.
Proof.
  intro H. unfold binary_round_aux.
  pose proof (shr_fexp_nonneg m e l H) as H1.
  destruct (shr_fexp prec emax m e l) as [mrs' e']. cbn [fst] in H1.
  assert (H2 : (0 <= round_nearest_even (shr_m mrs') (loc_of_shr_record mrs'))%Z).
  { unfold round_nearest_even.
    destruct (loc_of_shr_record mrs') as [|[| |]]; try exact H1; try lia.
    destruct (Z.even (shr_m mrs')); lia. }
  pose proof (shr_fexp_nonneg _ e' loc_Exact H2) as H3.
  destruct (shr_fexp prec emax _ e' loc_Exact) as [mrs'' e'']. cbn [fst] in H3.
  destruct (shr_m mrs''); try discriminate; [|lia].
  destruct (e'' <=? emax - prec)%Z; discriminate.
Qed.

Lemma binary_round_not_nan (s : bool) (m : positive) (e : Z) :
  binary_round prec emax s m e <> S754_nan.
Proof.
  unfold binary_round. destruct (shl_align _ _ _) as [mz ez].
  now apply binary_round_aux_not_nan.
Qed.

Lemma SFldexp_not_nan (x : spec_float) (e : Z) :
  x <> S754_nan -> SFldexp prec emax x e <> S754_nan.
Proof.
  destruct x; cbn; try congruence. intros _. apply binary_round_not_nan.
Qed.

Lemma SF2Prim_not_nan (x : spec_float) :
  x <> S754_nan -> is_nan (SF2Prim x) = false.
Proof.
  intro H. apply is_nan_false. destruct x as [s|s| |s m e]; try congruence.
  - now destruct s.
  - now destruct s.
  - unfold SF2Prim.
    assert (Hl : Prim2SF (Z.ldexp (of_uint63 (Uint63Axioms.of_Z (Zpos m))) e) <> S754_nan).
    { rewrite FloatLemmas.Z_ldexp_spec. apply SFldexp_not_nan.
      rewrite of_uint63_spec. unfold binary_normalize.
      destruct (Uint63Axioms.to_Z _); try discriminate; apply binary_round_not_nan. }
    destruct s; [|exact Hl].
    rewrite opp_spec. destruct (Prim2SF _); cbn; congruence.
Qed.

Lemma roundPositive_not_nan (s : bool) (n d : positive) :
  Binary64.roundPositive s n d <> S754_nan.
Proof.
  unfold Binary64.roundPositive, SFdiv_core_binary.
  set (m' := match _ with Zpos _ => _ | Z0 => _ | Zneg _ => _ end).
  assert (Hm : (0 <= m')%Z).
  { unfold m'. destruct (_ - _ - _)%Z; try lia.
    apply Z.shiftl_nonneg. lia. }
  pose proof (Z.div_pos m' (Zpos d) Hm ltac:(lia)) as Hq.
  unfold Z.div in Hq. destruct (Z.div_eucl m' (Zpos d)) as [q r].
  cbn [fst] in Hq. now apply binary_round_aux_not_nan.
Qed.

Lemma toNumber_not_nan (q : Q) : is_nan (Binary64.toNumber q) = false.
Proof.
  unfold Binary64.toNumber. destruct (Qnum q).
  - reflexivity.
  - apply SF2Prim_not_nan, roundPositive_not_nan.
  - apply SF2Prim_not_nan, roundPositive_not_nan.
Qed.
Lemma digits2_pos_bounds (m : positive) :
  (2 ^ (Zpos (digits2_pos m) - 1) <= Zpos m < 2 ^ Zpos (digits2_pos m))%Z.
Proof.
  induction m as [m IH|m IH|]; cbn [digits2_pos].
  - rewrite Pos2Z.inj_succ.
    replace (Z.succ (Zpos (digits2_pos m)) - 1)%Z with (Zpos (digits2_pos m) - 1 + 1)%Z by lia.
    rewrite Z.pow_succ_r by lia.
    rewrite Z.pow_add_r by lia. change (2 ^ 1)%Z with 2%Z. lia.
  - rewrite Pos2Z.inj_succ.
    replace (Z.succ (Zpos (digits2_pos m)) - 1)%Z with (Zpos (digits2_pos m) - 1 + 1)%Z by lia.
    rewrite Z.pow_succ_r by lia.
    rewrite Z.pow_add_r by lia. change (2 ^ 1)%Z with 2%Z. lia.
  - cbn. lia.
Qed.

Lemma bounded_exponent (m : positive) (e : Z) :
  bounded prec emax m e = true ->
  (-1074 <= e)%Z /\ (Zpos (digits2_pos m) <= 53)%Z
  /\ ((-1074 < e)%Z -> Zpos (digits2_pos m) = 53%Z).
Proof.
  unfold bounded, canonical_mantissa, fexp. rewrite andb_true_iff, Z.eqb_eq.
  change (SpecFloat.emin prec emax) with (-1074)%Z. change prec with 53%Z.
  intros [H _]. change IntDef.Z.max with Z.max in H. lia.
Qed.

Lemma scaled_lt_exponent (m1 m2 : positive) (e1 e2 : Z) :
  bounded prec emax m1 e1 = true -> bounded prec emax m2 e2 = true ->
  (e1 < e2)%Z ->
  (Zpos m1 * 2 ^ (e1 + 1074) < Zpos m2 * 2 ^ (e2 + 1074))%Z.
Proof.
  intros H1 H2 Hlt.
  destruct (bounded_exponent _ _ H1) as (Hmin1 & Hd1 & _).
  destruct (bounded_exponent _ _ H2) as (_ & _ & Hd2).
  specialize (Hd2 ltac:(lia)).
  pose proof (digits2_pos_bounds m1) as [_ Hm1].
  pose proof (digits2_pos_bounds m2) as [Hm2 _].
  rewrite Hd2 in Hm2. change (2 ^ (53 - 1))%Z with (2 ^ 52)%Z in Hm2.
  assert (Hm1' : (Zpos m1 < 2 ^ 53)%Z).
  { eapply Z.lt_le_trans; [exact Hm1|]. apply Z.pow_le_mono_r; lia. }
  replace (e2 + 1074)%Z with ((e1 + 1074) + (e2 - e1))%Z by lia.
  rewrite (Z.pow_add_r 2 (e1 + 1074) (e2 - e1)) by lia.
  assert (Hp : (0 < 2 ^ (e1 + 1074))%Z) by (apply Z.pow_pos_nonneg; lia).
  assert (Hq : (2 ^ 1 <= 2 ^ (e2 - e1))%Z) by (apply Z.pow_le_mono_r; lia).
  change (2 ^ 1)%Z with 2%Z in Hq. change (2 ^ 53)%Z with (2 * 2 ^ 52)%Z in Hm1'.
  set (P := (2 ^ (e1 + 1074))%Z) in *. set (R := (2 ^ (e2 - e1))%Z) in *.
  set (K := (2 ^ 52)%Z) in *.
  apply Z.lt_le_trans with (2 * K * P)%Z.
  - apply Z.mul_lt_mono_pos_r; assumption.
  - apply Z.le_trans with (Z.pos m2 * (P * 2))%Z.
    + replace (2 * K * P)%Z with (K * (P * 2))%Z by ring.
      apply Z.mul_le_mono_nonneg_r; lia.
    + apply Z.mul_le_mono_nonneg_l; [lia|].
      apply Z.mul_le_mono_nonneg_l; lia.
Qed.

Lemma compare_cont_Eq (m1 m2 : positive) :
  Pos.compare_cont Eq m1 m2 = (Zpos m1 ?= Zpos m2)%Z.
Proof. reflexivity. Qed.

Lemma SFltb_scaled (x y : spec_float) :
  finiteSF x -> finiteSF y ->
  (SFltb x y = true <-> (scaled x < scaled y)%Z).
Proof.
  unfold SFltb.
  destruct x as [sx|sx| |sx mx ex], y as [sy|sy| |sy my ey]; cbn [finiteSF];
    intros Hx Hy; try contradiction.
  - cbn. split; [discriminate | lia].
  - assert (Hp : (0 < 2 ^ (ey + 1074))%Z)
      by (apply Z.pow_pos_nonneg; [lia | destruct (bounded_exponent _ _ Hy); lia]).
    cbn. destruct sy; split; try discriminate; try reflexivity; nia.
  - assert (Hp : (0 < 2 ^ (ex + 1074))%Z)
      by (apply Z.pow_pos_nonneg; [lia | destruct (bounded_exponent _ _ Hx); lia]).
    cbn. destruct sx; split; try discriminate; try reflexivity; nia.
  - assert (Hpx : (0 < 2 ^ (ex + 1074))%Z)
      by (apply Z.pow_pos_nonneg; [lia | destruct (bounded_exponent _ _ Hx); lia]).
    assert (Hpy : (0 < 2 ^ (ey + 1074))%Z)
      by (apply Z.pow_pos_nonneg; [lia | destruct (bounded_exponent _ _ Hy); lia]).
    cbn [SFcompare scaled].
    destruct sx, sy.
    + (* both negative *)
      destruct (Z.compare_spec ex ey) as [E|E|E].
      * subst ey. rewrite compare_cont_Eq.
        rewrite <- (Z.mul_lt_mono_pos_r _ _ _ Hpx).
        destruct (Z.compare_spec (Zpos mx) (Zpos my)) as [F|F|F]; cbn;
          split; try discriminate; try reflexivity; lia.
      * pose proof (scaled_lt_exponent _ _ _ _ Hx Hy E).
        split; intro; try reflexivity; try discriminate; lia.
      * pose proof (scaled_lt_exponent _ _ _ _ Hy Hx E).
        split; intro; try reflexivity; try discriminate; lia.
    + split; intro; try reflexivity; try discriminate; nia.
    + split; intro; try reflexivity; try discriminate; nia.
    + destruct (Z.compare_spec ex ey) as [E|E|E].
      * subst ey. rewrite compare_cont_Eq.
        rewrite <- (Z.mul_lt_mono_pos_r _ _ _ Hpx).
        destruct (Z.compare_spec (Zpos mx) (Zpos my)) as [F|F|F]; cbn;
          split; try discriminate; try reflexivity; lia.
      * pose proof (scaled_lt_exponent _ _ _ _ Hx Hy E).
        split; intro; try reflexivity; try discriminate; lia.
      * pose proof (scaled_lt_exponent _ _ _ _ Hy Hx E).
        split; intro; try reflexivity; try discriminate; lia.
Qed.

Lemma is_finite_SF (x : float) : is_finite x = true -> finiteSF (Prim2SF x).
Proof.
  unfold is_finite, is_infinity. rewrite negb_true_iff, orb_false_iff.
  intros [Hn Hi]. apply is_nan_false in Hn.
  rewrite eqb_spec, abs_spec in Hi.
  pose proof (Prim2SF_valid x) as Hv.
  destruct (Prim2SF x) as [s|s| |s m e]; try congruence.
  - exact I.
  - exfalso. cbn in Hi. unfold SFeqb in Hi. vm_compute in Hi. discriminate.
  - exact Hv.
Qed.

Lemma valueOf_scaled (x : float) :
  is_finite x = true ->
  Binary64.valueOf x == inject_Z (scaled (Prim2SF x)) * 2 ^ (-1074).
Proof.
  intro Hf. apply is_finite_SF in Hf. unfold Binary64.valueOf.
  destruct (Prim2SF x) as [s|s| |s m e]; cbn [finiteSF scaled] in *;
    try contradiction; try (rewrite Qmult_0_l; reflexivity).
  destruct (bounded_exponent _ _ Hf) as (He & _).
  rewrite inject_Z_mult, Zpower_Qpower by lia.
  change (inject_Z 2) with 2.
  rewrite <- Qmult_assoc, <- Qpower_plus by discriminate.
  replace (e + 1074 + -1074)%Z with e by lia. reflexivity.
Qed.

Lemma ltb_valueOf (x y : float) :
  is_finite x = true -> is_finite y = true ->
  ((x <? y)%float = true <-> Binary64.valueOf x < Binary64.valueOf y).
Proof.
  intros Hx Hy. rewrite ltb_spec.
  rewrite (SFltb_scaled _ _ (is_finite_SF x Hx) (is_finite_SF y Hy)).
  rewrite (valueOf_scaled x Hx), (valueOf_scaled y Hy).
  rewrite Qmult_lt_r by (apply Qpower_0_lt; reflexivity).
  now rewrite <- Zlt_Qlt.
Qed.
Lemma is_finite_not_nan (x : float) : is_finite x = true -> is_nan x = false.
Proof.
  unfold is_finite. rewrite negb_true_iff, orb_false_iff. tauto.
Qed.

Lemma leb_valueOf (x y : float) :
  is_finite x = true -> is_finite y = true ->
  ((x <=? y)%float = true <-> Binary64.valueOf x <= Binary64.valueOf y).
Proof.
  intros Hx Hy.
  pose proof (ltb_not_leb y x (is_finite_not_nan y Hy) (is_finite_not_nan x Hx)) as E.
  pose proof (ltb_valueOf y x Hy Hx) as L.
  destruct (x <=? y)%float; cbn in E.
  - split; [intros _ | reflexivity].
    apply Qnot_lt_le. intro H. apply L in H. congruence.
  - split; [discriminate|]. intro H. exfalso.
    apply (Qle_not_lt _ _ H). now apply L.
Qed.

Lemma eqb_leb (x y : float) : (x =? y)%float = true -> (x <=? y)%float = true.
Proof.
  rewrite eqb_spec, leb_spec. unfold SFeqb, SFleb.
  destruct (SFcompare _ _) as [[| |]|]; congruence.
Qed.

Lemma iter_pos_iter {A} (f : A -> A) (p : positive) (x : A) :
  iter_pos f p x = Pos.iter f x p.
Proof.
  revert x. induction p as [p IH|p IH|]; intro x; cbn [iter_pos Pos.iter].
  - rewrite !IH, !Pos.iter_swap. reflexivity.
  - now rewrite !IH.
  - reflexivity.
Qed.

Lemma iter_shr_1_shifted (k m : positive) :
  Pos.iter shr_1 (exactRecord (Zpos (Pos.iter xO m k))) k = exactRecord (Zpos m).
Proof.
  induction k as [|k IH] using Pos.peano_ind.
  - reflexivity.
  - rewrite Pos.iter_succ_r. rewrite (Pos.iter_succ k _ xO m). exact IH.
Qed.

Lemma digits2_pos_shifted (k m : positive) :
  Zpos (digits2_pos (Pos.iter xO m k)) = (Zpos (digits2_pos m) + Zpos k)%Z.
Proof.
  induction k as [|k IH] using Pos.peano_ind.
  - cbn. lia.
  - rewrite Pos.iter_succ. cbn [digits2_pos]. rewrite Pos2Z.inj_succ, IH. lia.
Qed.

Lemma bounded_canonical (m : positive) (e : Z) :
  bounded prec emax m e = true ->
  fexp prec emax (Zpos (digits2_pos m) + e) = e /\ (e <=? emax - prec)%Z = true.
Proof.
  unfold bounded, canonical_mantissa. rewrite andb_true_iff, Z.eqb_eq. tauto.
Qed.

Lemma binary_round_aux_canonical (s : bool) (m : positive) (e : Z) :
  bounded prec emax m e = true ->
  binary_round_aux prec emax s (Zpos m) e loc_Exact = S754_finite s m e.
Proof.
  intro Hb. destruct (bounded_canonical m e Hb) as [Hc He].
  unfold binary_round_aux, shr_fexp. cbn [Zdigits2 shr_record_of_loc].
  rewrite Hc, Z.sub_diag. cbn [shr shr_m loc_of_shr_record round_nearest_even].
  cbn [Zdigits2 shr_record_of_loc]. rewrite Hc, Z.sub_diag. cbn [shr shr_m].
  now rewrite He.
Qed.

Lemma binary_round_aux_shifted (s : bool) (m k : positive) (e : Z) :
  bounded prec emax m e = true ->
  binary_round_aux prec emax s (Zpos (Pos.iter xO m k)) (e - Zpos k) loc_Exact
  = S754_finite s m e.
Proof.
  intro Hb. destruct (bounded_canonical m e Hb) as [Hc He].
  unfold binary_round_aux, shr_fexp at 1. cbn [Zdigits2 shr_record_of_loc].
  rewrite digits2_pos_shifted.
  replace (Zpos (digits2_pos m) + Zpos k + (e - Zpos k))%Z
    with (Zpos (digits2_pos m) + e)%Z by lia.
  rewrite Hc.
  replace (e - (e - Zpos k))%Z with (Zpos k) by lia.
  cbn [shr]. rewrite iter_pos_iter.
  fold (exactRecord (Zpos (Pos.iter xO m k))). rewrite iter_shr_1_shifted.
  cbn [exactRecord shr_m loc_of_shr_record round_nearest_even].
  replace (e - Zpos k + Zpos k)%Z with e by lia.
  unfold shr_fexp. cbn [Zdigits2 shr_record_of_loc]. rewrite Hc, Z.sub_diag.
  cbn [shr shr_m]. now rewrite He.
Qed.

Lemma SFmul_one (x : spec_float) :
  finiteSF x ->
  SFmul prec emax x (S754_finite false 4503599627370496 (-52)) = x.
Proof.
  destruct x as [s|s| |s m e]; cbn [finiteSF]; intro H; try contradiction.
  - cbn. now rewrite xorb_false_r.
  - cbn [SFmul]. rewrite xorb_false_r.
    rewrite (Pos.mul_comm m).
    change (4503599627370496 * m)%positive with (Pos.iter xO m 52).
    change (e + -52)%Z with (e - Zpos 52)%Z.
    now apply binary_round_aux_shifted.
Qed.

Lemma SFdiv_one (x : spec_float) :
  finiteSF x ->
  SFdiv prec emax x (S754_finite false 4503599627370496 (-52)) = x.
Proof.
  destruct x as [s|s| |s m e]; cbn [finiteSF]; intro H; try contradiction.
  - cbn. now rewrite xorb_false_r.
  - cbn [SFdiv]. rewrite xorb_false_r.
    destruct (bounded_canonical m e H) as [Hc He].
    unfold SFdiv_core_binary. cbn [Zdigits2].
    change (Zpos (digits2_pos 4503599627370496)) with 53%Z.
    replace (Zpos (digits2_pos m) + e - (53 + -52))%Z
      with (Zpos (digits2_pos m) + e - 1)%Z by lia.
    assert (Hf : fexp prec emax (Zpos (digits2_pos m) + e - 1) = (e - 1)%Z
                 \/ fexp prec emax (Zpos (digits2_pos m) + e - 1) = e).
    { revert Hc. unfold fexp. change IntDef.Z.max with Z.max.
      change (SpecFloat.emin prec emax) with (-1074)%Z. change prec with 53%Z. lia. }
    change IntDef.Z.min with Z.min. change IntDef.Z.shiftl with Z.shiftl.
    change IntDef.Z.div_eucl with Z.div_eucl.
    destruct Hf as [-> | ->].
    + rewrite Z.min_l by lia.
      replace (e - -52 - (e - 1))%Z with 53%Z by lia.
      rewrite Z.shiftl_mul_pow2 by lia.
      assert (E : Z.div_eucl (Zpos m * 2 ^ 53) 4503599627370496 = (Zpos m~0, 0%Z)).
      { pose proof (Z.div_eucl_eq (Zpos m * 2 ^ 53) 4503599627370496 ltac:(lia)) as Hq.
        pose proof (Z.mod_pos_bound (Zpos m * 2 ^ 53) 4503599627370496 ltac:(lia)) as Hr.
        unfold Z.modulo in Hr.
        destruct (Z.div_eucl _ _) as [q r]. cbn [fst snd] in *.
        change (2 ^ 53)%Z with (2 * 4503599627370496)%Z in Hq.
        assert (q = Zpos m~0 /\ r = 0%Z) as [-> ->]; [|reflexivity].
        rewrite Pos2Z.inj_xO. nia. }
      rewrite E.
      change (new_location 4503599627370496 0) with loc_Exact.
      change (m~0)%positive with (Pos.iter xO m 1).
      now apply binary_round_aux_shifted.
    + rewrite Z.min_l by lia.
      replace (e - -52 - e)%Z with 52%Z by lia.
      rewrite Z.shiftl_mul_pow2 by lia.
      assert (E : Z.div_eucl (Zpos m * 2 ^ 52) 4503599627370496 = (Zpos m, 0%Z)).
      { pose proof (Z.div_eucl_eq (Zpos m * 2 ^ 52) 4503599627370496 ltac:(lia)) as Hq.
        pose proof (Z.mod_pos_bound (Zpos m * 2 ^ 52) 4503599627370496 ltac:(lia)) as Hr.
        unfold Z.modulo in Hr.
        destruct (Z.div_eucl _ _) as [q r]. cbn [fst snd] in *.
        change (2 ^ 52)%Z with 4503599627370496%Z in Hq.
        assert (q = Zpos m /\ r = 0%Z) as [-> ->]; [|reflexivity].
        nia. }
      rewrite E.
      change (new_location 4503599627370496 0) with loc_Exact.
      now apply binary_round_aux_canonical.
Qed.
Lemma one_spec : Prim2SF 1 = S754_finite false 4503599627370496 (-52).
Proof. reflexivity. Qed.

(** Multiplying and dividing by 1 are exact. *)
Lemma mul_one (x : float) : is_finite x = true -> (x * 1)%float = x.
Proof.
  intro Hf. apply Prim2SF_inj. rewrite mul_spec, one_spec.
  apply SFmul_one. now apply is_finite_SF.
Qed.

Lemma div_one (x : float) : is_finite x = true -> (x / 1)%float = x.
Proof.
  intro Hf. apply Prim2SF_inj. rewrite div_spec, one_spec.
  apply SFdiv_one. now apply is_finite_SF.
Qed.

(** Sums, differences and products of integers are not rounded as long as
    they stay below 2^53. *)

Lemma iter_xO_value (k m : positive) :
  Zpos (Pos.iter xO m k) = (Zpos m * 2 ^ Zpos k)%Z.
Proof.
  induction k as [|k IH] using Pos.peano_ind.
  - cbn. lia.
  - rewrite Pos.iter_succ, Pos2Z.inj_xO, IH, Pos2Z.inj_succ, Z.pow_succ_r by lia.
    lia.
Qed.

Lemma digits2_pos_unique (m : positive) (d : Z) :
  (2 ^ (d - 1) <= Zpos m < 2 ^ d)%Z -> Zpos (digits2_pos m) = d.
Proof.
  intros [Hl Hu]. pose proof (digits2_pos_bounds m) as [Hl' Hu'].
  set (D := Zpos (digits2_pos m)) in *.
  destruct (Z.lt_trichotomy D d) as [H | [H | H]]; [exfalso | exact H | exfalso].
  - assert (2 ^ D <= 2 ^ (d - 1))%Z by (apply Z.pow_le_mono_r; lia). lia.
  - assert (2 ^ d <= 2 ^ (D - 1))%Z by (apply Z.pow_le_mono_r; lia). lia.
Qed.

Lemma digits_scaled_eq (M m : positive) (a b : Z) :
  (0 <= a)%Z -> (0 <= b)%Z ->
  (Zpos M * 2 ^ a = Zpos m * 2 ^ b)%Z ->
  (Zpos (digits2_pos M) + a = Zpos (digits2_pos m) + b)%Z.
Proof.
  intros Ha Hb E.
  pose proof (digits2_pos_bounds M) as [HlM HuM].
  pose proof (digits2_pos_bounds m) as [Hlm Hum].
  set (dM := Zpos (digits2_pos M)) in *. set (dm := Zpos (digits2_pos m)) in *.
  assert (HdM : (1 <= dM)%Z) by (unfold dM; lia).
  assert (Hdm : (1 <= dm)%Z) by (unfold dm; lia).
  assert (Pa : (0 < 2 ^ a)%Z) by (apply Z.pow_pos_nonneg; lia).
  assert (Pb : (0 < 2 ^ b)%Z) by (apply Z.pow_pos_nonneg; lia).
  assert (L1 : (2 ^ (dM - 1 + a) <= Zpos M * 2 ^ a)%Z).
  { rewrite Z.pow_add_r by lia. apply Z.mul_le_mono_nonneg_r; lia. }
  assert (U1 : (Zpos M * 2 ^ a < 2 ^ (dM + a))%Z).
  { rewrite Z.pow_add_r by lia. apply Z.mul_lt_mono_pos_r; lia. }
  assert (L2 : (2 ^ (dm - 1 + b) <= Zpos m * 2 ^ b)%Z).
  { rewrite Z.pow_add_r by lia. apply Z.mul_le_mono_nonneg_r; lia. }
  assert (U2 : (Zpos m * 2 ^ b < 2 ^ (dm + b))%Z).
  { rewrite Z.pow_add_r by lia. apply Z.mul_lt_mono_pos_r; lia. }
  assert (A1 : (2 ^ (dM - 1 + a) < 2 ^ (dm + b))%Z) by lia.
  assert (A2 : (2 ^ (dm - 1 + b) < 2 ^ (dM + a))%Z) by lia.
  apply Z.pow_lt_mono_r_iff in A1; [|lia|lia].
  apply Z.pow_lt_mono_r_iff in A2; [|lia|lia].
  lia.
Qed.

Lemma binary_round_aux_exact (s : bool) (M m : positive) (ez e : Z) :
  bounded prec emax m e = true -> (ez <= e)%Z ->
  Zpos M = (Zpos m * 2 ^ (e - ez))%Z ->
  binary_round_aux prec emax s (Zpos M) ez loc_Exact = S754_finite s m e.
Proof.
  intros Hb Hle HM. destruct (e - ez)%Z as [|k|k] eqn:E; try lia.
  - assert (ez = e) by lia. subst ez. rewrite Z.pow_0_r, Z.mul_1_r in HM.
    injection HM as ->. now apply binary_round_aux_canonical.
  - rewrite <- iter_xO_value in HM. injection HM as ->.
    replace ez with (e - Zpos k)%Z by lia. now apply binary_round_aux_shifted.
Qed.

Lemma binary_round_exact (s : bool) (M m : positive) (ez e : Z) :
  bounded prec emax m e = true -> (-1074 <= ez)%Z ->
  (Zpos M * 2 ^ (ez + 1074) = Zpos m * 2 ^ (e + 1074))%Z ->
  binary_round prec emax s M ez = S754_finite s m e.
Proof.
  intros Hb Hez E.
  destruct (bounded_exponent _ _ Hb) as (He & _).
  destruct (bounded_canonical _ _ Hb) as (Hc & _).
  pose proof (digits_scaled_eq M m (ez + 1074) (e + 1074) ltac:(lia) ltac:(lia) E) as Hd.
  unfold binary_round.
  replace (Zpos (digits2_pos M) + ez)%Z with (Zpos (digits2_pos m) + e)%Z by lia.
  rewrite Hc. unfold shl_align.
  destruct (e - ez)%Z as [|k|k] eqn:Ek.
  - apply binary_round_aux_exact; [assumption | lia |].
    assert (ez = e) by lia. subst ez. rewrite Z.sub_diag, Z.pow_0_r.
    apply Z.mul_cancel_r in E; [lia|]. apply Z.pow_nonzero; lia.
  - apply binary_round_aux_exact; [assumption | lia |].
    rewrite Ek. replace (e + 1074)%Z with (Zpos k + (ez + 1074))%Z in E by lia.
    rewrite (Z.pow_add_r 2 (Zpos k) (ez + 1074)) in E by lia.
    rewrite Z.mul_assoc in E.
    apply Z.mul_cancel_r in E; [lia|]. apply Z.pow_nonzero; lia.
  - replace (ez + 1074)%Z with (Zpos k + (e + 1074))%Z in E by lia.
    rewrite (Z.pow_add_r 2 (Zpos k) (e + 1074)) in E by lia.
    rewrite Z.mul_assoc in E.
    apply Z.mul_cancel_r in E; [|apply Z.pow_nonzero; lia].
    rewrite <- iter_xO_value in E. injection E as ->.
    now apply binary_round_aux_canonical.
Qed.

Lemma integer_representation (N : Z) :
  (0 < N < 2 ^ 53)%Z ->
  exists m e, bounded prec emax m e = true
              /\ (Zpos m * 2 ^ (e + 1074) = N * 2 ^ 1074)%Z.
Proof.
  intros [Hpos Hlt].
  pose proof (Z.log2_spec N Hpos) as [Hl Hu].
  assert (Hlog : (Z.log2 N < 53)%Z) by (apply Z.log2_lt_pow2; lia).
  pose proof (Z.log2_nonneg N) as Hn.
  set (d := (Z.log2 N + 1)%Z) in *.
  replace (Z.succ (Z.log2 N)) with d in Hu by (unfold d; lia).
  replace (Z.log2 N) with (d - 1)%Z in Hl by (unfold d; lia).
  assert (P : (0 < 2 ^ (53 - d))%Z) by (apply Z.pow_pos_nonneg; lia).
  assert (Hm : (2 ^ 52 <= N * 2 ^ (53 - d) < 2 ^ 53)%Z).
  { split.
    - replace 52%Z with ((d - 1) + (53 - d))%Z by lia.
      rewrite Z.pow_add_r by lia. apply Z.mul_le_mono_nonneg_r; lia.
    - replace 53%Z with (d + (53 - d))%Z at 2 by lia.
      rewrite Z.pow_add_r by lia. apply Z.mul_lt_mono_pos_r; lia. }
  exists (Z.to_pos (N * 2 ^ (53 - d))), (d - 53)%Z.
  assert (Em : Zpos (Z.to_pos (N * 2 ^ (53 - d))) = (N * 2 ^ (53 - d))%Z).
  { apply Z2Pos.id. lia. }
  split.
  - unfold bounded, canonical_mantissa, fexp.
    rewrite (digits2_pos_unique _ 53) by (rewrite Em; exact Hm).
    apply andb_true_iff. split.
    + apply Z.eqb_eq. change (SpecFloat.emin prec emax) with (-1074)%Z.
      change prec with 53%Z. change IntDef.Z.max with Z.max. lia.
    + apply Z.leb_le. change (emax - prec)%Z with 971%Z. lia.
  - rewrite Em, <- Z.mul_assoc, <- Z.pow_add_r by lia.
    f_equal. f_equal. lia.
Qed.


Lemma shl_align_scaled (m : positive) (e ez : Z) :
  (ez <= e)%Z -> (-1074 <= ez)%Z ->
  (Zpos (fst (shl_align m e ez)) * 2 ^ (ez + 1074) = Zpos m * 2 ^ (e + 1074))%Z.
Proof.
  intros Hle Hez. unfold shl_align.
  destruct (ez - e)%Z as [|d|d] eqn:E; try lia; cbn [fst].
  - f_equal. f_equal. lia.
  - rewrite iter_xO_value, <- Z.mul_assoc, <- Z.pow_add_r by lia.
    f_equal. f_equal. lia.
Qed.

Lemma wholeSF_zero (s : bool) (n : Z) : wholeSF (S754_zero s) n -> n = 0%Z.
Proof.
  intros [_ H]. cbn [scaled] in H. symmetry in H.
  apply Z.mul_eq_0_l in H; [exact H|]. apply Z.pow_nonzero; lia.
Qed.

Lemma binary_normalize_whole (M ez n : Z) :
  (-1074 <= ez)%Z -> (M * 2 ^ (ez + 1074) = n * 2 ^ 1074)%Z ->
  (Z.abs n < 2 ^ 53)%Z ->
  wholeSF (binary_normalize prec emax M ez false) n.
Proof.
  intros Hez E Hn.
  assert (P1 : (0 < 2 ^ (ez + 1074))%Z) by (apply Z.pow_pos_nonneg; lia).
  assert (P2 : (0 < 2 ^ 1074)%Z) by (apply Z.pow_pos_nonneg; lia).
  destruct M as [|p|p]; cbn [binary_normalize].
  - split; [exact I|]. cbn [scaled]. lia.
  - assert (Hpos : (0 < n)%Z) by nia.
    destruct (integer_representation n ltac:(lia)) as (m & e & Hb & Hv).
    rewrite (binary_round_exact false p m ez e Hb Hez) by lia.
    split; [exact Hb | exact Hv].
  - assert (Hneg : (n < 0)%Z) by nia.
    destruct (integer_representation (- n) ltac:(lia)) as (m & e & Hb & Hv).
    rewrite (binary_round_exact true p m ez e Hb Hez) by lia.
    split; [exact Hb |]. cbn [scaled]. lia.
Qed.

Lemma scaled_finite (s : bool) (m : positive) (e : Z) :
  scaled (S754_finite s m e) = (cond_Zopp s (Zpos m) * 2 ^ (e + 1074))%Z.
Proof. now destruct s. Qed.

Lemma cond_Zopp_mul (s : bool) (a b : Z) :
  (cond_Zopp s a * b = cond_Zopp s (a * b))%Z.
Proof. destruct s; cbn; lia. Qed.

Lemma aligned_sum (sx sy : bool) (mx my : positive) (ex ey : Z) :
  (-1074 <= ex)%Z -> (-1074 <= ey)%Z ->
  let ez := Z.min ex ey in
  ((cond_Zopp sx (Zpos (fst (shl_align mx ex ez))) * 2 ^ (ez + 1074)
    = scaled (S754_finite sx mx ex))
   /\ (cond_Zopp sy (Zpos (fst (shl_align my ey ez))) * 2 ^ (ez + 1074)
       = scaled (S754_finite sy my ey)))%Z.
Proof.
  intros Hx Hy ez. rewrite !scaled_finite, !cond_Zopp_mul.
  rewrite !shl_align_scaled by (unfold ez; lia). split; reflexivity.
Qed.

Lemma SFadd_whole (x y : spec_float) (n k : Z) :
  wholeSF x n -> wholeSF y k -> (Z.abs (n + k) < 2 ^ 53)%Z ->
  wholeSF (SFadd prec emax x y) (n + k).
Proof.
  intros Hx Hy Hb.
  destruct x as [sx|sx| |sx mx ex]; try (exfalso; exact (proj1 Hx));
    destruct y as [sy|sy| |sy my ey]; try (exfalso; exact (proj1 Hy)).
  - rewrite (wholeSF_zero _ _ Hx), (wholeSF_zero _ _ Hy).
    destruct sx, sy; split; try exact I; reflexivity.
  - rewrite (wholeSF_zero _ _ Hx). exact Hy.
  - rewrite (wholeSF_zero _ _ Hy), Z.add_0_r. exact Hx.
  - destruct Hx as [Bx Ex], Hy as [By Ey]. cbn [finiteSF] in Bx, By.
    destruct (bounded_exponent _ _ Bx) as (Hex & _).
    destruct (bounded_exponent _ _ By) as (Hey & _).
    cbn [SFadd]. change IntDef.Z.min with Z.min.
    destruct (aligned_sum sx sy mx my ex ey Hex Hey) as [Ax Ay].
    apply binary_normalize_whole; [lia | | exact Hb].
    rewrite Z.mul_add_distr_r, Ax, Ay, Ex, Ey. lia.
Qed.

Lemma SFsub_whole (x y : spec_float) (n k : Z) :
  wholeSF x n -> wholeSF y k -> (Z.abs (n - k) < 2 ^ 53)%Z ->
  wholeSF (SFsub prec emax x y) (n - k).
Proof.
  intros Hx Hy Hb.
  destruct x as [sx|sx| |sx mx ex]; try (exfalso; exact (proj1 Hx));
    destruct y as [sy|sy| |sy my ey]; try (exfalso; exact (proj1 Hy)).
  - rewrite (wholeSF_zero _ _ Hx), (wholeSF_zero _ _ Hy).
    destruct sx, sy; split; try exact I; reflexivity.
  - rewrite (wholeSF_zero _ _ Hx). destruct Hy as [By Ey]. cbn [SFsub].
    split; [exact By|]. rewrite scaled_finite in *.
    destruct sy; cbn [negb cond_Zopp] in *; lia.
  - rewrite (wholeSF_zero _ _ Hy), Z.sub_0_r. exact Hx.
  - destruct Hx as [Bx Ex], Hy as [By Ey]. cbn [finiteSF] in Bx, By.
    destruct (bounded_exponent _ _ Bx) as (Hex & _).
    destruct (bounded_exponent _ _ By) as (Hey & _).
    cbn [SFsub]. change IntDef.Z.min with Z.min.
    destruct (aligned_sum sx sy mx my ex ey Hex Hey) as [Ax Ay].
    apply binary_normalize_whole; [lia | | exact Hb].
    rewrite Z.mul_sub_distr_r, Ax, Ay, Ex, Ey. lia.
Qed.


Lemma whole_normal (s : bool) (m : positive) (e n : Z) :
  wholeSF (S754_finite s m e) n ->
  (2 ^ 52 <= Zpos m < 2 ^ 53)%Z /\ (-1074 <= e)%Z
  /\ (Zpos m * 2 ^ (e + 1074) = Z.abs n * 2 ^ 1074)%Z
  /\ n = cond_Zopp s (Z.abs n) /\ (0 < Z.abs n)%Z.
Proof.
  intros [Hb E]. cbn [finiteSF] in Hb. rewrite scaled_finite in E.
  destruct (bounded_exponent _ _ Hb) as (He & Hd & Hn).
  pose proof (digits2_pos_bounds m) as [Hl Hu].
  assert (P : (0 < 2 ^ (e + 1074))%Z) by (apply Z.pow_pos_nonneg; lia).
  assert (T : (0 < 2 ^ 1074)%Z) by (apply Z.pow_pos_nonneg; lia).
  assert (Hu53 : (Zpos m < 2 ^ 53)%Z).
  { eapply Z.lt_le_trans; [exact Hu|]. apply Z.pow_le_mono_r; lia. }
  assert (Ea : (Zpos m * 2 ^ (e + 1074) = Z.abs n * 2 ^ 1074)%Z).
  { apply (f_equal Z.abs) in E. rewrite !Z.abs_mul in E.
    rewrite (Z.abs_eq (2 ^ (e + 1074))), (Z.abs_eq (2 ^ 1074)) in E by lia.
    destruct s; cbn [cond_Zopp] in E; rewrite <- E; f_equal; lia. }
  assert (Hpos : (0 < Z.abs n)%Z).
  { destruct (Z.eq_dec (Z.abs n) 0) as [Z0 | NZ]; [|lia].
    rewrite Z0, Z.mul_0_l in Ea. lia. }
  assert (Hsign : n = cond_Zopp s (Z.abs n)).
  { set (Pw := (2 ^ (e + 1074))%Z) in *. set (Tw := (2 ^ 1074)%Z) in *.
    destruct s; cbn [cond_Zopp] in *.
    - assert (n * Tw < 0)%Z by (rewrite <- E; nia).
      assert (n < 0)%Z by nia. lia.
    - assert (0 < n * Tw)%Z by (rewrite <- E; nia).
      assert (0 < n)%Z by nia. lia. }
  repeat split; try assumption.
  destruct (Z.eq_dec e (-1074)) as [-> | Hne].
  - exfalso. change (-1074 + 1074)%Z with 0%Z in Ea.
    rewrite Z.pow_0_r, Z.mul_1_r in Ea.
    assert (2 ^ 53 <= 2 ^ 1074)%Z by (apply Z.pow_le_mono_r; lia).
    assert (1 * 2 ^ 1074 <= Z.abs n * 2 ^ 1074)%Z
      by (apply Z.mul_le_mono_nonneg_r; lia).
    lia.
  - rewrite Hn in Hl by lia. exact Hl.
Qed.

Lemma SFmul_whole (x y : spec_float) (n k : Z) :
  wholeSF x n -> wholeSF y k -> (Z.abs (n * k) < 2 ^ 53)%Z ->
  wholeSF (SFmul prec emax x y) (n * k).
Proof.
  intros Hx Hy Hb.
  destruct x as [sx|sx| |sx mx ex]; try (exfalso; exact (proj1 Hx));
    destruct y as [sy|sy| |sy my ey]; try (exfalso; exact (proj1 Hy)).
  - rewrite (wholeSF_zero _ _ Hx). split; [exact I | reflexivity].
  - rewrite (wholeSF_zero _ _ Hx). split; [exact I | reflexivity].
  - rewrite (wholeSF_zero _ _ Hy), Z.mul_0_r. split; [exact I | reflexivity].
  - destruct (whole_normal _ _ _ _ Hx) as (Mx & Hex & Ex & Sx & Px).
    destruct (whole_normal _ _ _ _ Hy) as (My & Hey & Ey & Sy & Py).
    rewrite Z.abs_mul in Hb.
    destruct (integer_representation (Z.abs n * Z.abs k) ltac:(nia))
      as (m0 & e0 & B0 & E0).
    destruct (bounded_exponent _ _ B0) as (He0 & Hd0 & _).
    pose proof (digits2_pos_bounds m0) as [_ Hu0].
    assert (Hu53 : (Zpos m0 < 2 ^ 53)%Z).
    { eapply Z.lt_le_trans; [exact Hu0|]. apply Z.pow_le_mono_r; lia. }
    assert (Hprod : (2 ^ 52 * 2 ^ 52 <= Zpos mx * Zpos my)%Z).
    { apply Z.mul_le_mono_nonneg; lia. }
    assert (Eq2 : (Zpos mx * Zpos my * 2 ^ (ex + ey + 2148)
                   = Zpos m0 * 2 ^ (e0 + 2148))%Z).
    { replace (ex + ey + 2148)%Z with ((ex + 1074) + (ey + 1074))%Z by lia.
      replace (e0 + 2148)%Z with ((e0 + 1074) + 1074)%Z by lia.
      rewrite (Z.pow_add_r 2 (ex + 1074) (ey + 1074)) by lia.
      rewrite (Z.pow_add_r 2 (e0 + 1074) 1074) by lia.
      transitivity ((Zpos mx * 2 ^ (ex + 1074)) * (Zpos my * 2 ^ (ey + 1074)))%Z;
        [ring|].
      rewrite Ex, Ey, (Z.mul_assoc (Zpos m0)), E0. ring. }
    assert (Hle : (ex + ey <= e0)%Z).
    { destruct (Z_le_gt_dec (ex + ey) e0) as [L | G]; [exact L | exfalso].
      replace (ex + ey + 2148)%Z with ((ex + ey - e0) + (e0 + 2148))%Z in Eq2 by lia.
      rewrite (Z.pow_add_r 2 (ex + ey - e0) (e0 + 2148)) in Eq2 by lia.
      rewrite Z.mul_assoc in Eq2.
      apply Z.mul_cancel_r in Eq2; [|apply Z.pow_nonzero; lia].
      assert (0 < 2 ^ (ex + ey - e0))%Z by (apply Z.pow_pos_nonneg; lia).
      assert (Zpos mx * Zpos my * 1 <= Zpos mx * Zpos my * 2 ^ (ex + ey - e0))%Z
        by (apply Z.mul_le_mono_nonneg_l; lia).
      assert (2 ^ 53 <= 2 ^ 52 * 2 ^ 52)%Z by (vm_compute; discriminate).
      lia. }
    cbn [SFmul].
    rewrite (binary_round_aux_exact _ (mx * my) m0 (ex + ey) e0 B0 Hle).
    + split; [exact B0|]. rewrite scaled_finite, cond_Zopp_mul, E0.
      set (an := Z.abs n) in *. set (ak := Z.abs k) in *. clearbody an ak.
      rewrite Sx, Sy.
      destruct sx, sy; cbn [xorb cond_Zopp]; ring.
    + replace (e0 + 2148)%Z with ((e0 - (ex + ey)) + (ex + ey + 2148))%Z in Eq2 by lia.
      rewrite (Z.pow_add_r 2 (e0 - (ex + ey)) (ex + ey + 2148)) in Eq2 by lia.
      rewrite Z.mul_assoc in Eq2.
      apply Z.mul_cancel_r in Eq2; [|apply Z.pow_nonzero; lia].
      rewrite Pos2Z.inj_mul. exact Eq2.
Qed.

Lemma add_whole (x y : float) (n k : Z) :
  whole x n -> whole y k -> (Z.abs (n + k) < 2 ^ 53)%Z -> whole (x + y) (n + k).
Proof. unfold whole. rewrite add_spec. apply SFadd_whole. Qed.

Lemma sub_whole (x y : float) (n k : Z) :
  whole x n -> whole y k -> (Z.abs (n - k) < 2 ^ 53)%Z -> whole (x - y) (n - k).
Proof. unfold whole. rewrite sub_spec. apply SFsub_whole. Qed.

Lemma mul_whole (x y : float) (n k : Z) :
  whole x n -> whole y k -> (Z.abs (n * k) < 2 ^ 53)%Z -> whole (x * y) (n * k).
Proof. unfold whole. rewrite mul_spec. apply SFmul_whole. Qed.

Lemma zero_whole : whole 0 0.
Proof. split; [exact I | reflexivity]. Qed.

Lemma whole_zero_half (x : float) : whole x 0 -> (abs x / 2)%float = 0%float.
Proof.
  intros [Hf E]. rewrite <- (SF2Prim_Prim2SF x).
  destruct (Prim2SF x) as [s|s| |s m e]; try contradiction.
  - destruct s; reflexivity.
  - exfalso. rewrite scaled_finite in E. cbn [finiteSF] in Hf.
    rewrite Z.mul_0_l in E. apply Z.mul_eq_0_l in E.
    + destruct s; discriminate.
    + apply Z.pow_nonzero; [lia|]. destruct (bounded_exponent _ _ Hf). lia.
Qed.

Lemma integral_whole (x : float) :
  integral x ->
  exists n, whole x n /\ Binary64.valueOf x == inject_Z n.
Proof.
  unfold integral, Snap64.isIntegral. rewrite andb_true_iff.
  intros [Hf Hq]. apply Qeq_bool_eq in Hq.
  exists (Qfloor (Binary64.valueOf x)). split; [|exact Hq].
  split; [now apply is_finite_SF|].
  rewrite (valueOf_scaled x Hf) in Hq at 1.
  set (n := Qfloor (Binary64.valueOf x)) in *.
  apply inject_Z_injective.
  rewrite inject_Z_mult, Zpower_Qpower by lia. change (inject_Z 2) with 2.
  rewrite <- Hq, <- Qmult_assoc, <- Qpower_plus by discriminate.
  change (-1074 + 1074)%Z with 0%Z. cbn [Qpower]. ring.
Qed.

Lemma ordinary_whole (x : float) (n : Z) :
  Binary64.valueOf x == inject_Z n -> ordinaryCoordinate (Binary64.valueOf x) ->
  (Z.abs n <= 2 ^ 20)%Z.
Proof.
  unfold ordinaryCoordinate. intros E H. rewrite E in H.
  change (Qabs (inject_Z n)) with (inject_Z (Z.abs n)) in H.
  change 1048576 with (inject_Z 1048576) in H.
  rewrite <- Zle_Qle in H. exact H.
Qed.


Lemma ltb_whole (x y : float) (n k : Z) :
  whole x n -> whole y k -> (x <? y)%float = (n <? k)%Z.
Proof.
  intros [Fx Ex] [Fy Ey]. rewrite ltb_spec. apply Bool.eq_iff_eq_true.
  rewrite (SFltb_scaled _ _ Fx Fy), Ex, Ey, Z.ltb_lt.
  symmetry. apply Z.mul_lt_mono_pos_r. apply Z.pow_pos_nonneg; lia.
Qed.

Lemma div_whole_zero (x d : float) (k : Z) :
  whole x 0 -> whole d k -> k <> 0%Z -> whole (x / d) 0.
Proof.
  unfold whole. rewrite div_spec. intros [Fx Ex] [Fd Ed] Hk.
  destruct (Prim2SF x) as [s|s| |s m e]; try contradiction.
  - destruct (Prim2SF d) as [sd|sd| |sd md ed]; try contradiction.
    + exfalso. apply Hk. now apply (wholeSF_zero sd).
    + split; [exact I | reflexivity].
  - exfalso. destruct (whole_normal s m e 0 (conj Fx Ex)) as (_ & _ & _ & _ & H).
    cbn in H. lia.
Qed.

End Binary64Facts.

(** ** The examples of the specification, evaluated *)

Example area_unit_square :
  calculatePolygonArea [mkPoint 0 0; mkPoint 1 0; mkPoint 1 1; mkPoint 0 1] == 1.
Proof. reflexivity. Qed.

Example area_triangle :
  calculatePolygonArea [mkPoint 0 0; mkPoint 4 0; mkPoint 0 3] == 6.
Proof. reflexivity. Qed.

Example inside_unit_square :
  isPointInPolygon (mkPoint (1#2) (1#2))
    [mkPoint 0 0; mkPoint 1 0; mkPoint 1 1; mkPoint 0 1] = true
  /\ isPointInPolygon (mkPoint 2 2)
       [mkPoint 0 0; mkPoint 1 0; mkPoint 1 1; mkPoint 0 1] = false.
Proof. split; reflexivity. Qed.

Example crossing_diagonals :
  match getLineIntersection (mkPoint 0 0) (mkPoint 2 2) (mkPoint 0 2) (mkPoint 2 0) with
  | Some p => p_x p == 1 /\ p_y p == 1
  | None => False
  end
  /\ getLineIntersection (mkPoint 0 0) (mkPoint 1 0) (mkPoint 0 1) (mkPoint 1 1) = None.
Proof. split; [split; reflexivity | reflexivity]. Qed.

Example rotation_swaps_footprint :
  let rect := getObjectRect (mkObj "o" "d" 0 0 90) (mkDef "d" "D" 4 2 None) in
  rect_width rect = 2 /\ rect_height rect = 4.
Proof. split; reflexivity. Qed.

(** ** Rectangle overlap *)

Lemma checkRectOverlap_true (r1 r2 : Rect) :
  checkRectOverlap r1 r2 = true <->
  rect_x r2 < rect_x r1 + rect_width r1
  /\ rect_x r1 < rect_x r2 + rect_width r2
  /\ rect_y r2 < rect_y r1 + rect_height r1
  /\ rect_y r1 < rect_y r2 + rect_height r2.
Proof.
  unfold checkRectOverlap. rewrite negb_true_iff, !orb_false_iff.
  rewrite !Qleb_gt. tauto.
Qed.

Lemma checkRectOverlap_false (r1 r2 : Rect) :
  checkRectOverlap r1 r2 = false <->
  rect_x r1 + rect_width r1 <= rect_x r2
  \/ rect_x r2 + rect_width r2 <= rect_x r1
  \/ rect_y r1 + rect_height r1 <= rect_y r2
  \/ rect_y r2 + rect_height r2 <= rect_y r1.
Proof.
  unfold checkRectOverlap. rewrite negb_false_iff, !orb_true_iff.
  rewrite !Qleb_le. tauto.
Qed.

Lemma Qmin_gt_iff (a b c : Q) : c < Qmin a b <-> c < a /\ c < b.
Proof.
  split.
  - intro Hc. split.
    + eapply Qlt_le_trans; [exact Hc | apply Q.le_min_l].
    + eapply Qlt_le_trans; [exact Hc | apply Q.le_min_r].
  - intros [Ha Hb]. destruct (Q.min_spec a b) as [[_ E] | [_ E]]; now rewrite E.
Qed.

Lemma Qmax_lt_iff (a b c : Q) : Qmax a b < c <-> a < c /\ b < c.
Proof.
  split.
  - intro Hc. split.
    + eapply Qle_lt_trans; [apply Q.le_max_l | exact Hc].
    + eapply Qle_lt_trans; [apply Q.le_max_r | exact Hc].
  - intros [Ha Hb]. destruct (Q.max_spec a b) as [[_ E] | [_ E]]; now rewrite E.
Qed.

Lemma overlap_positive (lo1 hi1 lo2 hi2 : Q) :
  0 < Qmin hi1 hi2 - Qmax lo1 lo2 <->
  lo1 < hi1 /\ lo1 < hi2 /\ lo2 < hi1 /\ lo2 < hi2.
Proof.
  assert (E : 0 < Qmin hi1 hi2 - Qmax lo1 lo2 <-> Qmax lo1 lo2 < Qmin hi1 hi2)
    by (split; intro; lra).
  rewrite E, Qmin_gt_iff, !Qmax_lt_iff. tauto.
Qed.

Lemma checkRectOverlap_positive_area (r1 r2 : Rect) :
  properRect r1 -> properRect r2 ->
  (checkRectOverlap r1 r2 = true <->
   0 < overlapWidth r1 r2 /\ 0 < overlapHeight r1 r2).
Proof.
  intros [Hw1 Hh1] [Hw2 Hh2].
  unfold overlapWidth, overlapHeight.
  rewrite checkRectOverlap_true, !overlap_positive.
  split; intro Ho; repeat split; try tauto; lra.
Qed.

Section RectOverlap64.
Import PrimFloat.

Lemma leb_exact (a b : float) (q : Q) :
  is_finite a = true -> is_finite b = true -> Binary64.valueOf a == q ->
  (a <=? b)%float = (q <=? Binary64.valueOf b).
Proof.
  intros Ha Hb E. pose proof (leb_valueOf a b Ha Hb) as L. rewrite E in L.
  destruct (a <=? b)%float.
  - symmetry. apply Qleb_le. now apply L.
  - destruct (q <=? Binary64.valueOf b) eqn:F; [|reflexivity].
    apply Qleb_le in F. apply L in F. discriminate.
Qed.

Lemma checkRectOverlap64_exact (r1 r2 : Binary64.Rect) :
  exactFarEdges r1 -> exactFarEdges r2 ->
  Binary64.checkRectOverlap r1 r2 = checkRectOverlap (exactRect r1) (exactRect r2).
Proof.
  intros (Hx1 & Hy1 & Hfx1 & Hfy1 & Ex1 & Ey1) (Hx2 & Hy2 & Hfx2 & Hfy2 & Ex2 & Ey2).
  unfold Binary64.checkRectOverlap, checkRectOverlap, exactRect.
  cbn [rect_x rect_y rect_width rect_height].
  fold (farX r1) (farX r2) (farY r1) (farY r2).
  rewrite (leb_exact (farX r1) _ _ Hfx1 Hx2 Ex1).
  rewrite (leb_exact (farX r2) _ _ Hfx2 Hx1 Ex2).
  rewrite (leb_exact (farY r1) _ _ Hfy1 Hy2 Ey1).
  rewrite (leb_exact (farY r2) _ _ Hfy2 Hy1 Ey2).
  reflexivity.
Qed.

(** C6: [checkRectOverlap] is strict at the boundaries.  Two rectangles of
    which one ends exactly where the other starts do not overlap, and
    neither do two rectangles of which one starts at the far edge that the
    code computes for the other.  As long as no edge is NaN the answer is
    the conjunction of the four strict comparisons of a near edge with the
    other rectangle's computed far edge.  When the two sums [x + width] and
    [y + height] of both rectangles are not rounded, the answer is the one
    of exact arithmetic, which for rectangles of positive width and height
    is "the intersection has positive area".  The two pairs of rectangles of
    the specification behave as it says. *)
Theorem checkRectOverlap_strict_at_boundaries :
  (forall r1 r2, touchAtEdge r1 r2 -> checkRectOverlap r1 r2 = false)
  /\ (forall r1 r2,
        touchAtComputedEdge r1 r2 -> Binary64.checkRectOverlap r1 r2 = false)
  /\ (forall r1 r2,
        comparable r1 -> comparable r2 ->
        Binary64.checkRectOverlap r1 r2
        = (Binary64.rect_x r2 <? farX r1)%float
          && (Binary64.rect_x r1 <? farX r2)%float
          && (Binary64.rect_y r2 <? farY r1)%float
          && (Binary64.rect_y r1 <? farY r2)%float)
  /\ (forall r1 r2,
        exactFarEdges r1 -> exactFarEdges r2 ->
        Binary64.checkRectOverlap r1 r2
        = checkRectOverlap (exactRect r1) (exactRect r2))
  /\ (forall r1 r2,
        exactFarEdges r1 -> exactFarEdges r2 ->
        properRect (exactRect r1) -> properRect (exactRect r2) ->
        (Binary64.checkRectOverlap r1 r2 = true <->
         0 < overlapWidth (exactRect r1) (exactRect r2)
         /\ 0 < overlapHeight (exactRect r1) (exactRect r2)))
  /\ Binary64.checkRectOverlap (literalRect 0 0 1 1) (literalRect 1 0 1 1) = false
  /\ Binary64.checkRectOverlap (literalRect 0 0 2 2) (literalRect 1 1 2 2) = true.
Proof.
  split; [| split; [| split; [| split; [| split; [| split]]]]].
  - intros r1 r2 Ht. apply checkRectOverlap_false.
    destruct Ht as [E | [E | [E | E]]]; rewrite E; auto using Qle_refl.
  - intros r1 r2 Ht. unfold Binary64.checkRectOverlap.
    fold (farX r1) (farX r2) (farY r1) (farY r2).
    destruct Ht as [E | [E | [E | E]]]; apply eqb_leb in E; rewrite E;
      now rewrite ?orb_true_r.
  - intros r1 r2 (Hx1 & Hy1 & Hfx1 & Hfy1) (Hx2 & Hy2 & Hfx2 & Hfy2).
    unfold Binary64.checkRectOverlap.
    fold (farX r1) (farX r2) (farY r1) (farY r2).
    rewrite (ltb_not_leb _ _ Hx2 Hfx1), (ltb_not_leb _ _ Hx1 Hfx2),
            (ltb_not_leb _ _ Hy2 Hfy1), (ltb_not_leb _ _ Hy1 Hfy2).
    now rewrite !negb_orb.
  - exact checkRectOverlap64_exact.
  - intros r1 r2 H1 H2 P1 P2. rewrite (checkRectOverlap64_exact r1 r2 H1 H2).
    now apply checkRectOverlap_positive_area.
  - reflexivity.
  - reflexivity.
Qed.

Lemma checkRectOverlap_strict_at_boundaries_witness :
  let r1 := literalRect (1 # 2) 0 (5 # 2) 3 in
  let r2 := literalRect 2 1 2 (3 # 4) in
  checkRectOverlap (mkRect 0 0 1 1) (mkRect 0 1 1 3) = false
  /\ Binary64.checkRectOverlap (literalRect (1 # 10) 0 (7 # 10) 1)
                               (literalRect (7999999999999999 # 10000000000000000) 0 1 1)
     = false
  /\ Binary64.checkRectOverlap r1 r2
     = (Binary64.rect_x r2 <? farX r1)%float && (Binary64.rect_x r1 <? farX r2)%float
       && (Binary64.rect_y r2 <? farY r1)%float && (Binary64.rect_y r1 <? farY r2)%float
  /\ (Binary64.checkRectOverlap r1 r2 = true <->
      0 < overlapWidth (exactRect r1) (exactRect r2)
      /\ 0 < overlapHeight (exactRect r1) (exactRect r2)).
Proof.
  intros r1 r2.
  destruct checkRectOverlap_strict_at_boundaries as (Ht & Hc & Hn & _ & Hiff & _).
  split; [| split; [| split]].
  - apply (Ht (mkRect 0 0 1 1) (mkRect 0 1 1 3)).
    right; right; left. reflexivity.
  - apply Hc. left. reflexivity.
  - apply (Hn r1 r2); repeat split; reflexivity.
  - apply (Hiff r1 r2); repeat split; vm_compute; reflexivity.
Defined.

(** C6, as the specification has it, fails: the rectangles
    {x: 0.1, y: 0, width: 0.7, height: 1} and
    {x: 0.7999999999999999, y: 0, width: 1, height: 1} intersect in a strip
    of positive width and height 1, yet [0.1 + 0.7] is rounded down to
    0.7999999999999999 and the code reports no overlap, in either order. *)
Lemma checkRectOverlap_misses_thin_overlap :
  let r1 := literalRect (1 # 10) 0 (7 # 10) 1 in
  let r2 := literalRect (7999999999999999 # 10000000000000000) 0 1 1 in
  0 < overlapWidth (exactRect r1) (exactRect r2)
  /\ 0 < overlapHeight (exactRect r1) (exactRect r2)
  /\ Binary64.checkRectOverlap r1 r2 = false
  /\ Binary64.checkRectOverlap r2 r1 = false.
Proof.
  repeat split; vm_compute; reflexivity.
Qed.

End RectOverlap64.

(** C10: [checkRectOverlap] is symmetric in its two rectangles. *)
Theorem checkRectOverlap_symmetric (r1 r2 : Rect) :
  checkRectOverlap r1 r2 = checkRectOverlap r2 r1.
Proof.
  unfold checkRectOverlap.
  destruct (rect_x r1 + rect_width r1 <=? rect_x r2),
           (rect_x r2 + rect_width r2 <=? rect_x r1),
           (rect_y r1 + rect_height r1 <=? rect_y r2),
           (rect_y r2 + rect_height r2 <=? rect_y r1); reflexivity.
Qed.

(** ** Degenerate polygons *)

Section DegeneratePolygons.
Import PrimFloat.

Lemma abs_zero_half : (abs 0 / 2)%float = 0%float.
Proof. reflexivity. Qed.

Lemma gridPoint_whole (p : Binary64.Point) :
  gridPoint p ->
  exists nx ny,
    whole (Binary64.p_x p) nx /\ whole (Binary64.p_y p) ny
    /\ Binary64.valueOf (Binary64.p_x p) == inject_Z nx
    /\ Binary64.valueOf (Binary64.p_y p) == inject_Z ny
    /\ (Z.abs nx <= 2 ^ 20)%Z /\ (Z.abs ny <= 2 ^ 20)%Z.
Proof.
  intros (Ix & Iy & Ox & Oy).
  destruct (integral_whole _ Ix) as (nx & Wx & Vx).
  destruct (integral_whole _ Iy) as (ny & Wy & Vy).
  exists nx, ny.
  exact (conj Wx (conj Wy (conj Vx (conj Vy
           (conj (ordinary_whole _ _ Vx Ox) (ordinary_whole _ _ Vy Oy)))))).
Qed.

Lemma abs_mul_bound (a b : Z) :
  (Z.abs a <= 2 ^ 20)%Z -> (Z.abs b <= 2 ^ 20)%Z -> (Z.abs (a * b) <= 2 ^ 40)%Z.
Proof.
  intros Ha Hb. rewrite Z.abs_mul.
  change (2 ^ 40)%Z with (2 ^ 20 * 2 ^ 20)%Z.
  apply Z.mul_le_mono_nonneg; lia.
Qed.

Lemma grid_area_two (a b : Binary64.Point) :
  gridPoint a -> gridPoint b -> Binary64.calculatePolygonArea [a; b] = 0%float.
Proof.
  intros Ha Hb.
  destruct (gridPoint_whole a Ha) as (ax & ay & Wax & Way & _ & _ & Bax & Bay).
  destruct (gridPoint_whole b Hb) as (bx & by' & Wbx & Wby & _ & _ & Bbx & Bby).
  pose proof (abs_mul_bound ax by' Bax Bby) as B1.
  pose proof (abs_mul_bound bx ay Bbx Bay) as B2.
  assert (P53 : (2 ^ 40 + 2 ^ 40 < 2 ^ 53)%Z) by (vm_compute; reflexivity).
  pose proof (mul_whole _ _ _ _ Wax Wby ltac:(lia)) as C1.
  pose proof (mul_whole _ _ _ _ Wbx Way ltac:(lia)) as C2.
  pose proof (add_whole _ _ _ _ zero_whole C1 ltac:(lia)) as S1.
  pose proof (sub_whole _ _ _ _ S1 C2 ltac:(lia)) as S2.
  pose proof (add_whole _ _ _ _ S2 C2 ltac:(lia)) as S3.
  pose proof (sub_whole _ _ _ _ S3 C1 ltac:(lia)) as S4.
  replace (0 + ax * by' - bx * ay + bx * ay - ax * by')%Z with 0%Z in S4 by lia.
  unfold Binary64.calculatePolygonArea, Binary64.areaStep. cbn.
  now apply whole_zero_half.
Qed.

Lemma grid_area_one (a : Binary64.Point) :
  gridPoint a -> Binary64.calculatePolygonArea [a] = 0%float.
Proof.
  intros Ha.
  destruct (gridPoint_whole a Ha) as (ax & ay & Wax & Way & _ & _ & Bax & Bay).
  pose proof (abs_mul_bound ax ay Bax Bay) as B1.
  assert (P53 : (2 ^ 40 + 2 ^ 40 < 2 ^ 53)%Z) by (vm_compute; reflexivity).
  pose proof (mul_whole _ _ _ _ Wax Way ltac:(lia)) as C1.
  pose proof (add_whole _ _ _ _ zero_whole C1 ltac:(lia)) as S1.
  pose proof (sub_whole _ _ _ _ S1 C1 ltac:(lia)) as S2.
  replace (0 + ax * ay - ax * ay)%Z with 0%Z in S2 by lia.
  unfold Binary64.calculatePolygonArea, Binary64.areaStep. cbn.
  now apply whole_zero_half.
Qed.

Lemma grid_crossing (a b : Binary64.Point) (py : float)
    (ax ay bx by' ny : Z) :
  whole (Binary64.p_x a) ax -> whole (Binary64.p_y a) ay ->
  whole (Binary64.p_x b) bx -> whole (Binary64.p_y b) by' ->
  whole py ny ->
  (Z.abs ax <= 2 ^ 20)%Z -> (Z.abs ay <= 2 ^ 20)%Z ->
  (Z.abs bx <= 2 ^ 20)%Z -> (Z.abs by' <= 2 ^ 20)%Z -> (Z.abs ny <= 2 ^ 20)%Z ->
  ax = bx -> ay <> by' ->
  whole (crossingAbscissa a b py) ax.
Proof.
  intros Wax Way Wbx Wby Wpy Bax Bay Bbx Bby Bny Ex Ny.
  assert (P53 : (2 ^ 20 + 2 ^ 20 < 2 ^ 53)%Z) by (vm_compute; reflexivity).
  unfold crossingAbscissa.
  pose proof (sub_whole _ _ _ _ Wbx Wax ltac:(lia)) as D1.
  replace (bx - ax)%Z with 0%Z in D1 by lia.
  pose proof (sub_whole _ _ _ _ Wpy Way ltac:(lia)) as D2.
  pose proof (mul_whole _ _ _ _ D1 D2 ltac:(cbn; lia)) as M.
  rewrite Z.mul_0_l in M.
  pose proof (sub_whole _ _ _ _ Wby Way ltac:(lia)) as D3.
  pose proof (div_whole_zero _ _ _ M D3 ltac:(lia)) as Q0.
  pose proof (add_whole _ _ _ _ Q0 Wax ltac:(lia)) as R.
  exact R.
Qed.

Lemma grid_inside_two (point a b : Binary64.Point) :
  gridPoint point -> gridPoint a -> gridPoint b ->
  axisAligned64 a b ->
  Binary64.isPointInPolygon point [a; b] = false.
Proof.
  intros Hp Ha Hb Haxis.
  destruct (gridPoint_whole point Hp) as (px & py & Wpx & Wpy & _ & _ & Bpx & Bpy).
  destruct (gridPoint_whole a Ha) as (ax & ay & Wax & Way & Vax & Vay & Bax & Bay).
  destruct (gridPoint_whole b Hb) as (bx & by' & Wbx & Wby & Vbx & Vby & Bbx & Bby).
  unfold Binary64.isPointInPolygon. cbn.
  rewrite (ltb_whole _ _ _ _ Wpy Way), (ltb_whole _ _ _ _ Wpy Wby).
  destruct (Z.eq_dec ay by') as [Ey | Ny].
  - subst by'. now rewrite xorb_nilpotent.
  - destruct Haxis as [Hx | Hy].
    + rewrite Vax, Vbx, inject_Z_injective in Hx.
      pose proof (grid_crossing a b (Binary64.p_y point) ax ay bx by' py
                    Wax Way Wbx Wby Wpy Bax Bay Bbx Bby Bpy Hx Ny) as C1.
      pose proof (grid_crossing b a (Binary64.p_y point) bx by' ax ay py
                    Wbx Wby Wax Way Wpy Bbx Bby Bax Bay Bpy (eq_sym Hx)
                    (fun E => Ny (eq_sym E))) as C2.
      unfold crossingAbscissa in C1, C2.
      rewrite (ltb_whole _ _ _ _ Wpx C1), (ltb_whole _ _ _ _ Wpx C2), Hx.
      destruct (py <? ay)%Z, (py <? by')%Z, (px <? bx)%Z; reflexivity.
    + exfalso. rewrite Vay, Vby, inject_Z_injective in Hy. contradiction.
Qed.

(** C4, as the code has it.  For the empty polygon [calculatePolygonArea]
    returns 0 and [isPointInPolygon] answers [false] for every point.  For a
    polygon of one point [isPointInPolygon] answers [false], and the area is
    0 unless the product x * y overflows.  For a polygon of two points a
    point is reported inside exactly when its y lies between the two y's and
    its x is below one of the two computed crossing abscissae and not below
    the other (in exact arithmetic the two are the same number); the area is
    0 when the first cross product is finite and subtracting the second and
    adding it back leaves no rounding residue.  For points on the 1 ft grid
    (whole numbers of at most 2^20 in absolute value, which is where the
    editor puts its vertices) no product and no sum is rounded: the area of
    one and of two such points is 0, and no grid point is inside two such
    points that are the ends of a vertical or horizontal wall.  Both
    functions are total, so there is no error case. *)
Theorem degenerate_polygon_results :
  (forall point,
      Binary64.calculatePolygonArea [] = 0%float
      /\ Binary64.isPointInPolygon point [] = false)
  /\ (forall point a,
        Binary64.isPointInPolygon point [a] = false
        /\ (is_finite (Binary64.p_x a * Binary64.p_y a) = true ->
            Binary64.calculatePolygonArea [a] = 0%float))
  /\ (forall point a b,
        Binary64.isPointInPolygon point [a; b]
        = xorb (Binary64.p_y point <? Binary64.p_y a)%float
               (Binary64.p_y point <? Binary64.p_y b)%float
          && xorb (Binary64.p_x point
                   <? crossingAbscissa a b (Binary64.p_y point))%float
                  (Binary64.p_x point
                   <? crossingAbscissa b a (Binary64.p_y point))%float)
  /\ (forall a b,
        is_finite (Binary64.p_x a * Binary64.p_y b) = true ->
        cancelsExactly (Binary64.p_x a * Binary64.p_y b)
                       (Binary64.p_x b * Binary64.p_y a) ->
        Binary64.calculatePolygonArea [a; b] = 0%float)
  /\ (forall a b,
        gridPoint a -> gridPoint b ->
        Binary64.calculatePolygonArea [a] = 0%float
        /\ Binary64.calculatePolygonArea [a; b] = 0%float
        /\ forall point,
             gridPoint point -> axisAligned64 a b ->
             Binary64.isPointInPolygon point [a; b] = false).
Proof.
  split; [| split; [| split; [| split]]].
  - intro point. split; reflexivity.
  - intros point a. split.
    + unfold Binary64.isPointInPolygon. cbn.
      now rewrite xorb_nilpotent.
    + intro Hf. unfold Binary64.calculatePolygonArea, Binary64.areaStep. cbn.
      rewrite (add_zero_sub_diag _ Hf). apply abs_zero_half.
  - intros point a b. unfold Binary64.isPointInPolygon, crossingAbscissa. cbn.
    rewrite (xorb_comm (Binary64.p_y point <? Binary64.p_y b)%float).
    destruct (xorb _ _); cbn; [|reflexivity].
    now destruct (_ <? _)%float, (_ <? _)%float.
  - intros a b Hf Hc.
    unfold Binary64.calculatePolygonArea, Binary64.areaStep. cbn.
    unfold cancelsExactly in Hc. rewrite Hc.
    rewrite (add_zero_sub_diag _ Hf). apply abs_zero_half.
  - intros a b Ha Hb. split; [now apply grid_area_one|].
    split; [now apply grid_area_two|].
    intros point Hp Haxis. now apply grid_inside_two.
Qed.

Lemma degenerate_polygon_results_witness :
  Binary64.isPointInPolygon (literalPoint 0 2) [literalPoint 3 1] = false
  /\ Binary64.calculatePolygonArea [literalPoint 3 1] = 0%float
  /\ Binary64.calculatePolygonArea [literalPoint 3 1; literalPoint (-2) (7 # 2)]
     = 0%float
  /\ Binary64.calculatePolygonArea [literalPoint 3 1; literalPoint 3 9] = 0%float
  /\ Binary64.isPointInPolygon (literalPoint 3 4)
                               [literalPoint 3 1; literalPoint 3 9] = false.
Proof.
  destruct degenerate_polygon_results as (_ & H1 & _ & H2 & H3).
  assert (Ga : gridPoint (literalPoint 3 1))
    by (repeat split; try reflexivity; apply Qle_bool_iff; reflexivity).
  assert (Gb : gridPoint (literalPoint 3 9))
    by (repeat split; try reflexivity; apply Qle_bool_iff; reflexivity).
  assert (Gp : gridPoint (literalPoint 3 4))
    by (repeat split; try reflexivity; apply Qle_bool_iff; reflexivity).
  destruct (H3 _ _ Ga Gb) as (_ & A2 & In2).
  split; [| split; [| split; [| split]]].
  - apply (H1 (literalPoint 0 2) (literalPoint 3 1)).
  - apply (H1 (literalPoint 0 2) (literalPoint 3 1)). reflexivity.
  - apply (H2 (literalPoint 3 1) (literalPoint (-2) (7 # 2))); reflexivity.
  - exact A2.
  - apply (In2 _ Gp). left. reflexivity.
Defined.

(** C4, as the specification has it, fails for two points: the polygon
    [(0.1, 1), (0.1, 0.1)] has the area 2^-58, about 3.47e-18, because
    [0.1 - 0.1 * 0.1 + 0.1 * 0.1] is not [0.1]; and the point
    (0.3333333333333333, 1) is reported inside the polygon [(0, 0), (1, 3)],
    because the two computed crossings of its two edges with the line y = 1
    are 0.3333333333333333 and 0.33333333333333337.  For the one point
    (1e200, 1e200) the product overflows and the area is NaN. *)
Lemma degenerate_polygon_rounding_residue :
  (0 <? Binary64.calculatePolygonArea
          [literalPoint (1 # 10) 1; literalPoint (1 # 10) (1 # 10)])%float = true
  /\ Binary64.valueOf
       (Binary64.calculatePolygonArea
          [literalPoint (1 # 10) 1; literalPoint (1 # 10) (1 # 10)])
     == 2 ^ (-58)
  /\ Binary64.isPointInPolygon
       (literalPoint (3333333333333333 # 10000000000000000) 1)
       [literalPoint 0 0; literalPoint 1 3] = true
  /\ is_nan (Binary64.calculatePolygonArea
               [literalPoint (10 ^ 200) (10 ^ 200)]) = true.
Proof.
  repeat split; vm_compute; reflexivity.
Qed.

End DegeneratePolygons.

(** ** Placement validity *)

Import Placement.

(** C3: [isValidPlacement] reads the objects and the temporary walls of the
    room and nothing else: two rooms that agree on those two arrays get the
    same answer, whatever their boundary points are. *)
Theorem isValidPlacement_ignores_boundary
    (objectLibrary : list ObjectDefinition) (obj : PlacedObject)
    (excludeId : option string) (room1 room2 : Room) :
  r_objects room1 = r_objects room2 ->
  r_tempWalls room1 = r_tempWalls room2 ->
  isValidPlacement objectLibrary obj room1 excludeId
  = isValidPlacement objectLibrary obj room2 excludeId.
Proof.
  intros Hobjects Hwalls. unfold isValidPlacement.
  now rewrite Hobjects, Hwalls.
Qed.

Lemma isValidPlacement_ignores_boundary_witness :
  isValidPlacement Sample.library Sample.sofa Sample.roomA None
  = isValidPlacement Sample.library Sample.sofa Sample.roomB None.
Proof.
  apply (isValidPlacement_ignores_boundary
           Sample.library Sample.sofa None Sample.roomA Sample.roomB);
    reflexivity.
Defined.

Lemma objectOverlapCheck_skips_dangling
    (objectLibrary : list ObjectDefinition) (obj : PlacedObject) (rect : Rect)
    (excludeId : option string) (other : PlacedObject)
    (before after : list PlacedObject) :
  findDef objectLibrary (o_definitionId other) = None ->
  objectOverlapCheck objectLibrary obj rect excludeId (before ++ other :: after)
  = objectOverlapCheck objectLibrary obj rect excludeId (before ++ after).
Proof.
  intro Hnone. induction before as [|o before IH]; cbn.
  - rewrite Hnone. now destruct (idIs _ excludeId || _).
  - now rewrite IH.
Qed.

(** C8: a candidate whose definition does not resolve is never valid; an
    object of the room whose definition does not resolve is passed over by
    the overlap check, so the answer is the one for the room without it. *)
Theorem isValidPlacement_dangling_definitions
    (objectLibrary : list ObjectDefinition) (obj : PlacedObject)
    (excludeId : option string) (room : Room) :
  (findDef objectLibrary (o_definitionId obj) = None ->
   isValidPlacement objectLibrary obj room excludeId = false)
  /\ (forall other before after,
        findDef objectLibrary (o_definitionId other) = None ->
        r_objects room = before ++ other :: after ->
        isValidPlacement objectLibrary obj room excludeId
        = isValidPlacement objectLibrary obj
            (withObjects room (before ++ after)) excludeId).
Proof.
  split.
  - intro Hnone. unfold isValidPlacement. now rewrite Hnone.
  - intros other before after Hnone Hobjects. unfold isValidPlacement.
    destruct (findDef objectLibrary (o_definitionId obj)); [|reflexivity].
    rewrite Hobjects. cbn.
    now rewrite objectOverlapCheck_skips_dangling.
Qed.

Lemma isValidPlacement_dangling_definitions_witness :
  isValidPlacement Sample.library Sample.ghost Sample.roomA None = false
  /\ isValidPlacement Sample.library Sample.sofa Sample.haunted None
     = isValidPlacement Sample.library Sample.sofa
         (withObjects Sample.haunted ([Sample.chair] ++ [])) None.
Proof.
  split.
  - apply (isValidPlacement_dangling_definitions
             Sample.library Sample.ghost None Sample.roomA).
    reflexivity.
  - apply (isValidPlacement_dangling_definitions
             Sample.library Sample.sofa None Sample.haunted)
      with (other := Sample.ghost); reflexivity.
Defined.

(** ** Undo/redo history *)

Import History.

Lemma slice0_firstn {A} (arr : list A) (e : Z) :
  (0 <= e <= Z.of_nat (List.length arr))%Z ->
  slice0 arr e = firstn (Z.to_nat e) arr.
Proof.
  intro He. unfold slice0.
  destruct (e <? 0)%Z eqn:E; [lia|].
  now rewrite Z.min_l by lia.
Qed.

Lemma index_nth_error {A} (arr : list A) (i : Z) :
  (0 <= i)%Z -> index arr i = nth_error arr (Z.to_nat i).
Proof.
  intro Hi. unfold index. destruct (i <? 0)%Z eqn:E; [lia | reflexivity].
Qed.

Lemma index_in_range {A} (arr : list A) (i : Z) :
  (0 <= i <= Z.of_nat (List.length arr) - 1)%Z -> exists a, index arr i = Some a.
Proof.
  intro Hi. rewrite index_nth_error by lia.
  destruct (nth_error arr (Z.to_nat i)) as [a|] eqn:E; [now exists a|].
  apply nth_error_None in E. lia.
Qed.

Lemma addToHistory_history (newRooms : list Room) (s : State) :
  historyBounded s ->
  history (addToHistory newRooms s)
  = evictOldest (firstn (Z.to_nat (historyIndex s + 1)) (history s) ++ [newRooms]).
Proof.
  intros [Hlen Hidx]. unfold addToHistory, evictOldest. cbn [history].
  rewrite slice0_firstn by lia.
  set (kept := firstn _ _ ++ _).
  destruct (50 <? Z.of_nat (List.length kept))%Z eqn:E1,
           (50 <? List.length kept)%nat eqn:E2; try reflexivity.
  - apply Z.ltb_lt in E1. apply Nat.ltb_ge in E2. lia.
  - apply Z.ltb_ge in E1. apply Nat.ltb_lt in E2. lia.
Qed.

Lemma nth_error_snoc {A} (l : list A) (x : A) :
  nth_error (l ++ [x]) (List.length l) = Some x.
Proof.
  rewrite nth_error_app2 by lia. now rewrite Nat.sub_diag.
Qed.

Lemma nth_error_tl_snoc {A} (l : list A) (x : A) :
  l <> [] -> nth_error (tl (l ++ [x])) (List.length l - 1) = Some x.
Proof.
  destruct l as [|a rest]; [congruence|]. intros _. cbn.
  rewrite Nat.sub_0_r. apply nth_error_snoc.
Qed.

Lemma addToHistory_bounded (newRooms : list Room) (s : State) :
  historyBounded s ->
  historyBounded (addToHistory newRooms s)
  /\ index (history (addToHistory newRooms s)) (historyIndex (addToHistory newRooms s))
     = Some newRooms
  /\ historyIndex (addToHistory newRooms s)
     = (Z.of_nat (List.length (history (addToHistory newRooms s))) - 1)%Z.
Proof.
  intros Hb. pose proof (addToHistory_history newRooms s Hb) as Hh.
  destruct Hb as [Hlen Hidx].
  remember (firstn (Z.to_nat (historyIndex s + 1)) (history s)) as kept eqn:Ek.
  assert (Hk : List.length kept = Z.to_nat (historyIndex s + 1)).
  { subst kept. rewrite length_firstn. lia. }
  assert (Hne : kept <> []).
  { intro E. rewrite E in Hk. cbn in Hk. lia. }
  assert (Hnext : historyIndex (addToHistory newRooms s)
                  = if (49 <? historyIndex s + 1)%Z then 49%Z
                    else (historyIndex s + 1)%Z) by reflexivity.
  unfold historyBounded. rewrite Hh, Hnext. unfold evictOldest.
  rewrite length_app, Hk. cbn [List.length].
  destruct (50 <? Z.to_nat (historyIndex s + 1) + 1)%nat eqn:E.
  - apply Nat.ltb_lt in E.
    assert (Hi : historyIndex s = 49%Z) by lia.
    rewrite length_tl, length_app, Hk, Hi. cbn [List.length].
    replace (49 <? 49 + 1)%Z with true by reflexivity.
    repeat split; try lia.
    rewrite index_nth_error by lia.
    replace (Z.to_nat 49) with (List.length kept - 1)%nat by lia.
    now apply nth_error_tl_snoc.
  - apply Nat.ltb_ge in E.
    destruct (49 <? historyIndex s + 1)%Z eqn:E2; [apply Z.ltb_lt in E2; lia|].
    rewrite length_app, Hk. cbn [List.length].
    repeat split; try lia.
    rewrite index_nth_error by lia.
    replace (Z.to_nat (historyIndex s + 1)) with (List.length kept) by lia.
    apply nth_error_snoc.
Qed.

Lemma undo_bounded (s : State) :
  historyBounded s ->
  historyBounded (undo s)
  /\ history (undo s) = history s
  /\ (historyIndex s - 1 <= historyIndex (undo s) <= historyIndex s)%Z
  /\ (undo s = s \/ rooms (undo s) = index (history s) (historyIndex s - 1)
                    /\ exists r, rooms (undo s) = Some r).
Proof.
  intros [Hlen Hidx]. unfold undo, historyBounded.
  destruct (0 <? historyIndex s)%Z eqn:E; cbn.
  - apply Z.ltb_lt in E. repeat split; try lia.
    right. split; [reflexivity|]. apply index_in_range. lia.
  - repeat split; try lia. now left.
Qed.

Lemma redo_bounded (s : State) :
  historyBounded s ->
  historyBounded (redo s)
  /\ history (redo s) = history s
  /\ (historyIndex s <= historyIndex (redo s) <= historyIndex s + 1)%Z
  /\ (redo s = s \/ rooms (redo s) = index (history s) (historyIndex s + 1)
                    /\ exists r, rooms (redo s) = Some r).
Proof.
  intros [Hlen Hidx]. unfold redo, historyBounded.
  destruct (historyIndex s <? Z.of_nat (List.length (history s)) - 1)%Z eqn:E; cbn.
  - apply Z.ltb_lt in E. repeat split; try lia.
    right. split; [reflexivity|]. apply index_in_range. lia.
  - repeat split; try lia. now left.
Qed.

Lemma step_bounded (a : action) (s : State) :
  historyBounded s -> historyBounded (step a s).
Proof.
  intro Hb. destruct a as [next [|] | |]; cbn.
  - unfold setRooms. cbn. now apply (addToHistory_bounded next s).
  - exact Hb.
  - now apply undo_bounded.
  - now apply redo_bounded.
Qed.

Lemma run_bounded (acts : list action) (s : State) :
  historyBounded s -> historyBounded (run acts s).
Proof.
  revert s. induction acts as [|a acts IH]; intros s Hb; cbn.
  - exact Hb.
  - apply IH. now apply step_bounded.
Qed.

Lemma step_from_empty (a : action) (s : State) :
  historyEmpty s -> historyEmpty (step a s) \/ historyBounded (step a s).
Proof.
  destruct s as [r h i]. intros [Hh Hi]. cbn in Hh, Hi. subst h i.
  destruct a as [next [|] | |].
  - right. unfold historyBounded. cbn. lia.
  - left. split; reflexivity.
  - left. split; reflexivity.
  - left. split; reflexivity.
Qed.

Lemma run_from_empty (acts : list action) (s : State) :
  historyEmpty s -> historyEmpty (run acts s) \/ historyBounded (run acts s).
Proof.
  revert s. induction acts as [|a acts IH]; intros s He; cbn.
  - now left.
  - destruct (step_from_empty a s He) as [He' | Hb].
    + now apply IH.
    + right. now apply run_bounded.
Qed.

(** One handler between two renders sees the state it changes. *)
Lemma tick_single (a : action) (s : State) : Batch.tick [a] s = step a s.
Proof. now destruct a. Qed.

Lemma tick_at_most_one (acts : list action) (s : State) :
  (List.length acts <= 1)%nat -> Batch.tick acts s = run acts s.
Proof.
  destruct acts as [|a [|b rest]]; cbn [List.length]; intro H; try lia.
  - reflexivity.
  - apply tick_single.
Qed.

Lemma run_one_per_render (ticks : list (list action)) (s : State) :
  Forall (fun acts => (List.length acts <= 1)%nat) ticks ->
  Batch.run ticks s = run (List.concat ticks) s.
Proof.
  intro Hall. revert s.
  induction Hall as [|acts ticks Hlen Hall IH]; intro s; cbn [Batch.run fold_left List.concat].
  - reflexivity.
  - unfold run at 1. rewrite fold_left_app. fold (run acts s).
    rewrite <- (tick_at_most_one acts s Hlen). apply IH.
Qed.

Lemma batch_step_capped (c : State) (a : action) (s : State) :
  historyCapped c -> historyCapped s -> historyCapped (Batch.step c a s).
Proof.
  intros (Hlc & Hic) (Hls & His). destruct a as [next [|] | |]; cbn.
  - unfold historyCapped, Batch.setRooms, Batch.addToHistory.
    cbn [history historyIndex].
    assert (Hk : (List.length (slice0 (history s) (historyIndex c + 1)) <= 50)%nat).
    { unfold slice0. rewrite length_firstn. lia. }
    set (kept := slice0 _ _) in *.
    split.
    + destruct (50 <? Z.of_nat (List.length (kept ++ [next])))%Z eqn:E.
      * rewrite length_tl, length_app. cbn [List.length]. lia.
      * apply Z.ltb_ge in E. lia.
    + destruct (49 <? historyIndex s + 1)%Z eqn:E;
        [apply Z.ltb_lt in E | apply Z.ltb_ge in E]; lia.
  - unfold Batch.setRooms. cbn. now split.
  - unfold Batch.undo. destruct (0 <? historyIndex c)%Z eqn:E; [|now split].
    apply Z.ltb_lt in E. unfold historyCapped. cbn. lia.
  - unfold Batch.redo.
    destruct (historyIndex c <? Z.of_nat (List.length (history c)) - 1)%Z eqn:E;
      [|now split].
    apply Z.ltb_lt in E. unfold historyCapped. cbn. lia.
Qed.

Lemma batch_tick_capped (acts : list action) (s : State) :
  historyCapped s -> historyCapped (Batch.tick acts s).
Proof.
  intro Hs. unfold Batch.tick.
  assert (H : forall pending, historyCapped pending ->
                historyCapped (fold_left (fun pending a => Batch.step s a pending)
                                         acts pending)).
  { induction acts as [|a acts IH]; intros pending Hp; cbn [fold_left].
    - exact Hp.
    - apply IH. now apply batch_step_capped. }
  now apply H.
Qed.

Lemma batch_run_capped (ticks : list (list action)) (s : State) :
  historyCapped s -> historyCapped (Batch.run ticks s).
Proof.
  revert s. induction ticks as [|acts ticks IH]; intros s Hs; cbn.
  - exact Hs.
  - apply IH. now apply batch_tick_capped.
Qed.

(** C9, on the code.  Two [setRooms] that run before the next render, after
    the mount effect, leave the cursor past the end of the buffer: the
    second push cuts the buffer at the index of the last render while the
    cursor is moved on from its pending value, so the buffer is
    [[initialRooms; b]] and the cursor is 2, under which there is no
    snapshot; the next [undo] then shows the rooms that are already on
    display.  What holds whatever the handlers and the renders are: the
    buffer never holds more than 50 snapshots and the cursor stays between
    0 and 49.  And when at most one handler runs between two renders the
    cursor is always an index into the buffer. *)
Theorem history_cursor_escapes_within_a_tick :
  (forall initialRooms a b,
      let s := Batch.tick [ASetRooms a true; ASetRooms b true]
                          (mount initialRooms initial) in
      history s = [initialRooms; b] /\ historyIndex s = 2%Z
      /\ rooms s = Some b
      /\ index (history s) (historyIndex s) = None
      /\ ~ historyBounded s
      /\ rooms (Batch.tick [AUndo] s) = Some b)
  /\ (forall initialRooms ticks,
        historyCapped (Batch.run ticks (mount initialRooms initial)))
  /\ (forall initialRooms ticks,
        Forall (fun acts => (List.length acts <= 1)%nat) ticks ->
        historyBounded (Batch.run ticks (mount initialRooms initial))).
Proof.
  split; [| split].
  - intros initialRooms a b. cbn.
    repeat split; try reflexivity.
    unfold historyBounded. intros [_ H]. vm_compute in H. destruct H as [_ H].
    now apply H.
  - intros initialRooms ticks. apply batch_run_capped.
    unfold historyCapped. cbn. lia.
  - intros initialRooms ticks Hall. rewrite (run_one_per_render _ _ Hall).
    apply run_bounded. unfold historyBounded. cbn. lia.
Qed.

Lemma history_cursor_escapes_within_a_tick_witness :
  historyBounded
    (Batch.run [[ASetRooms [Sample.roomA] true]; [AUndo]; [];
                [ASetRooms [Sample.roomB] true]; [ARedo]]
               (mount [] initial)).
Proof.
  apply (proj2 (proj2 history_cursor_escapes_within_a_tick)).
  repeat constructor.
Defined.

(** ** Rounding *)

Import Snap.

Lemma Qfloor_unique (x : Q) (z : Z) :
  inject_Z z <= x -> x < inject_Z (z + 1) -> Qfloor x = z.
Proof.
  intros Hlo Hhi.
  pose proof (Qfloor_le x) as Hfl. pose proof (Qlt_floor x) as Hfh.
  assert (H1 : (Qfloor x < z + 1)%Z).
  { rewrite Zlt_Qlt. eapply Qle_lt_trans; eassumption. }
  assert (H2 : (z < Qfloor x + 1)%Z).
  { rewrite Zlt_Qlt. eapply Qle_lt_trans; eassumption. }
  lia.
Qed.

Lemma Qfloor_add_Z (x : Q) (z : Z) : Qfloor (x + inject_Z z) = (Qfloor x + z)%Z.
Proof.
  pose proof (Qfloor_le x) as Hfl. pose proof (Qlt_floor x) as Hfh.
  apply Qfloor_unique.
  - rewrite inject_Z_plus. lra.
  - rewrite !inject_Z_plus in *. lra.
Qed.

Lemma Math_round_Z (k : Z) : Math_round (inject_Z k) = inject_Z k.
Proof.
  unfold Math_round. f_equal. apply Qfloor_unique.
  - lra.
  - rewrite inject_Z_plus. change (inject_Z 1) with 1. lra.
Qed.

#[export] Instance Math_round_comp : Proper (Qeq ==> eq) Math_round.
Proof. intros a b E. unfold Math_round. now rewrite E. Qed.

#[export] Instance snapToGrid_comp : Proper (Qeq ==> eq) snapToGrid.
Proof.
  intros a b E. unfold snapToGrid.
  assert (E' : a / GRID_SIZE == b / GRID_SIZE) by now rewrite E.
  now rewrite E'.
Qed.

Lemma snapToGrid_Z (k : Z) : snapToGrid (inject_Z k) == inject_Z k.
Proof.
  unfold snapToGrid, GRID_SIZE.
  assert (E : inject_Z k / 1 == inject_Z k) by (field).
  rewrite E, Math_round_Z. ring.
Qed.

Lemma snapToGrid_onGrid (v : Q) : onGrid v -> snapToGrid v == v.
Proof.
  intros [k Hk]. unfold GRID_SIZE in Hk.
  assert (E : v == inject_Z k) by (rewrite Hk; ring).
  rewrite E at 2. rewrite (snapToGrid_comp _ _ E). apply snapToGrid_Z.
Qed.

(** Two grid values closer than the threshold are the same value. *)
Lemma onGrid_close (a b : Q) :
  onGrid a -> onGrid b -> (Qabs (a - b) <? threshold) = true -> b == a.
Proof.
  intros [k Hk] [m Hm] Hclose. unfold GRID_SIZE in *.
  apply Qltb_lt in Hclose. apply Qabs_Qlt_condition in Hclose.
  unfold threshold in Hclose.
  assert (Ea : a == inject_Z k) by (rewrite Hk; ring).
  assert (Eb : b == inject_Z m) by (rewrite Hm; ring).
  rewrite Ea, Eb in *.
  destruct Hclose as [Hlo Hhi].
  assert (H1 : inject_Z (k - m) < inject_Z 1).
  { unfold Z.sub. rewrite inject_Z_plus, inject_Z_opp. change (inject_Z 1) with 1. lra. }
  assert (H2 : inject_Z (m - k) < inject_Z 1).
  { unfold Z.sub. rewrite inject_Z_plus, inject_Z_opp. change (inject_Z 1) with 1. lra. }
  rewrite <- Zlt_Qlt in H1, H2.
  assert (k = m) by lia. now subst.
Qed.

(** ** Snapping *)

Lemma onGrid_0 : onGrid 0.
Proof. exists 0%Z. reflexivity. Qed.

Lemma fold_left_invariant {A B} (P : A -> Prop) (Q : B -> Prop)
    (f : A -> B -> A) (l : list B) (a : A) :
  (forall a b, P a -> Q b -> P (f a b)) -> Forall Q l -> P a -> P (fold_left f l a).
Proof.
  intros Hf Hl. revert a. induction Hl as [|b l Hb Hl IH]; intros a Ha; cbn.
  - exact Ha.
  - apply IH. now apply Hf.
Qed.

Section GridPoint.
Import PrimFloat.

Lemma fold_left_last_match {A} (p : A -> bool) (edges : list A) (s : A) :
  fold_left (fun s e => if p e then e else s) edges s
  = match find p (rev edges) with Some e => e | None => s end.
Proof.
  induction edges as [|e edges IH] using rev_ind.
  - reflexivity.
  - rewrite fold_left_app, rev_app_distr. cbn [fold_left rev app find].
    destruct (p e); [reflexivity | exact IH].
Qed.

Lemma edgeSnap_snapsTo (v : float) (edges : list float) :
  Snap64.edgeSnap v v edges = snapsTo v edges.
Proof. apply fold_left_last_match. Qed.

Lemma edgeSnap_app (v s : float) (l1 l2 : list float) :
  Snap64.edgeSnap v s (l1 ++ l2) = Snap64.edgeSnap v (Snap64.edgeSnap v s l1) l2.
Proof. apply fold_left_app. Qed.

Lemma wallSnap_edges (points : list Binary64.Point) (x y : float)
    (indices : list nat) (st : float * float) :
  fold_left (Snap64.wallSnapStep points x y) indices st
  = (Snap64.edgeSnap x (fst st)
       (flat_map (fun i =>
                    let p1 := nth i points Binary64.origin in
                    let p2 := nth ((i + 1) mod (List.length points))%nat points
                                  Binary64.origin in
                    if (abs (Binary64.p_x p1 - Binary64.p_x p2)
                        <? Binary64.toNumber (1 # 100))%float
                    then [Binary64.p_x p1] else []) indices),
     Snap64.edgeSnap y (snd st)
       (flat_map (fun i =>
                    let p1 := nth i points Binary64.origin in
                    let p2 := nth ((i + 1) mod (List.length points))%nat points
                                  Binary64.origin in
                    if (abs (Binary64.p_y p1 - Binary64.p_y p2)
                        <? Binary64.toNumber (1 # 100))%float
                    then [Binary64.p_y p1] else []) indices)).
Proof.
  revert st. induction indices as [|i indices IH]; intros [sx sy].
  - reflexivity.
  - cbn [fold_left flat_map]. rewrite IH, !edgeSnap_app. clear IH.
    unfold Snap64.wallSnapStep. cbn [fst snd].
    destruct (abs (Binary64.p_x _ - Binary64.p_x _) <? _)%float,
             (abs (Binary64.p_y _ - Binary64.p_y _) <? _)%float; reflexivity.
Qed.

Lemma objectSnap_edges (objectLibrary : list Snap64.ObjectDefinition)
    (objId : option string) (x y : float)
    (objects : list Snap64.PlacedObject) (st : float * float) :
  fold_left (Snap64.objectSnapStep objectLibrary x y objId) objects st
  = (Snap64.edgeSnap x (fst st)
       (footprintEdges Binary64.rect_x Binary64.rect_width objectLibrary objId objects),
     Snap64.edgeSnap y (snd st)
       (footprintEdges Binary64.rect_y Binary64.rect_height objectLibrary objId objects)).
Proof.
  revert st. induction objects as [|other objects IH]; intros [sx sy].
  - reflexivity.
  - unfold footprintEdges in *. cbn [fold_left flat_map].
    rewrite IH, !edgeSnap_app. clear IH.
    unfold Snap64.objectSnapStep.
    destruct (idIs (Snap64.o_id other) objId); [reflexivity|].
    destruct (Snap64.findDef objectLibrary (Snap64.o_definitionId other));
      reflexivity.
Qed.

Lemma integral_finite (n : float) : integral n -> is_finite n = true.
Proof.
  unfold integral, Snap64.isIntegral. rewrite andb_true_iff. tauto.
Qed.

Lemma snapToGrid_integral (n : float) : integral n -> Snap64.snapToGrid n = n.
Proof.
  intro Hn. pose proof (integral_finite n Hn) as Hf.
  unfold Snap64.snapToGrid, Snap64.GRID_SIZE. rewrite (div_one n Hf).
  unfold Snap64.Math_round. unfold integral in Hn. rewrite Hn, orb_true_r.
  now apply mul_one.
Qed.

Lemma snapsTo_notAttracted (v : float) (edges : list float) :
  notAttracted v edges -> snapsTo v edges = v.
Proof.
  intro Hall. unfold snapsTo.
  destruct (find (withinThreshold v) (rev edges)) as [e|] eqn:E; [|reflexivity].
  apply find_some in E. destruct E as [Hin Hw].
  apply in_rev in Hin. unfold notAttracted in Hall.
  rewrite Forall_forall in Hall. now apply Hall.
Qed.

(** A raw position that is already on the grid. *)
Variables x y : float.
Hypothesis Hx : integral x.
Hypothesis Hy : integral y.

Variable objectLibrary : list Snap64.ObjectDefinition.
Variable objId : option string.

(** C2, as the code has it.  Snapping a grid-aligned point gives the point
    back when no room is active.  In a room each coordinate becomes the last
    edge, in the order walls then objects, that lies strictly within 0.5 ft
    of it, and stays what it is when there is none; so the point comes back
    unchanged whenever, on each axis, no wall line and no footprint edge
    other than the coordinate itself is strictly within 0.5 ft of the
    coordinate. *)
Theorem findSnapTarget_fixes_grid_points :
  Snap64.findSnapTarget None objectLibrary x y objId = Binary64.mkPoint x y
  /\ (forall room,
        Snap64.findSnapTarget (Some room) objectLibrary x y objId
        = Binary64.mkPoint (snapsTo x (snapEdgesX objectLibrary objId room))
                           (snapsTo y (snapEdgesY objectLibrary objId room)))
  /\ (forall room,
        notAttracted x (snapEdgesX objectLibrary objId room) ->
        notAttracted y (snapEdgesY objectLibrary objId room) ->
        Snap64.findSnapTarget (Some room) objectLibrary x y objId
        = Binary64.mkPoint x y).
Proof.
  assert (Hroom : forall room,
             Snap64.findSnapTarget (Some room) objectLibrary x y objId
             = Binary64.mkPoint (snapsTo x (snapEdgesX objectLibrary objId room))
                                (snapsTo y (snapEdgesY objectLibrary objId room))).
  { intro room. unfold Snap64.findSnapTarget.
    rewrite wallSnap_edges, objectSnap_edges. cbn [fst snd].
    rewrite (snapToGrid_integral x Hx), (snapToGrid_integral y Hy).
    rewrite <- !edgeSnap_app, !edgeSnap_snapsTo. reflexivity. }
  split; [| split].
  - unfold Snap64.findSnapTarget.
    now rewrite (snapToGrid_integral x Hx), (snapToGrid_integral y Hy).
  - exact Hroom.
  - intros room Hex Hey. rewrite Hroom.
    now rewrite (snapsTo_notAttracted x _ Hex), (snapsTo_notAttracted y _ Hey).
Qed.

End GridPoint.

Lemma findSnapTarget_fixes_grid_points_witness :
  let x := Binary64.toNumber 5 in
  let y := Binary64.toNumber 7 in
  Snap64.findSnapTarget None Sample.library64 x y None = Binary64.mkPoint x y
  /\ Snap64.findSnapTarget (Some Sample.deskRoom64) Sample.library64 x y None
     = Binary64.mkPoint x y.
Proof.
  intros x y.
  assert (Hx : integral x) by reflexivity.
  assert (Hy : integral y) by reflexivity.
  destruct (findSnapTarget_fixes_grid_points x y Hx Hy Sample.library64 None)
    as (Hnone & _ & Hsame).
  split; [exact Hnone|].
  apply Hsame.
  - unfold notAttracted. vm_compute snapEdgesX.
    repeat constructor; intro H; vm_compute in H; try discriminate H; reflexivity.
  - unfold notAttracted. vm_compute snapEdgesY.
    repeat constructor; intro H; vm_compute in H; try discriminate H; reflexivity.
Defined.

(** C2, as the specification has it, fails: the point (7, 9) is on the grid,
    but next to a desk 10/3 ft wide centred at x = 5, whose right edge is
    computed as 6.666666666666666, it is snapped to that edge. *)
Lemma findSnapTarget_moves_grid_point :
  let found :=
    Snap64.findSnapTarget (Some Sample.deskRoom64) Sample.library64
                          (Binary64.toNumber 7) (Binary64.toNumber 9) None in
  integral (Binary64.toNumber 7) /\ integral (Binary64.toNumber 9)
  /\ Binary64.p_x found = Binary64.toNumber (6666666666666666 # 1000000000000000)
  /\ Binary64.p_y found = Binary64.toNumber 9
  /\ found <> literalPoint 7 9.
Proof.
  repeat split; try reflexivity.
  intro E. vm_compute in E. discriminate E.
Qed.

(** ** Wall segment solver *)

Import Solver.

Lemma snapToGrid_eq (v : Q) (k : Z) :
  v == inject_Z k -> snapToGrid v = inject_Z k * GRID_SIZE.
Proof.
  intro E. rewrite (snapToGrid_comp _ _ E). unfold snapToGrid. f_equal.
  unfold GRID_SIZE.
  assert (E1 : inject_Z k / 1 == inject_Z k) by field.
  rewrite (Math_round_comp _ _ E1). apply Math_round_Z.
Qed.

Lemma fold_left_Qmin_le (l : list Q) (a : Q) :
  fold_left Qmin l a <= a /\ forall b, In b l -> fold_left Qmin l a <= b.
Proof.
  revert a. induction l as [|c l IH]; intro a; cbn [fold_left].
  - split; [apply Qle_refl | intros b []].
  - destruct (IH (Qmin a c)) as [H1 H2]. split.
    + eapply Qle_trans; [exact H1 | apply Q.le_min_l].
    + intros b [<- | Hin].
      * eapply Qle_trans; [exact H1 | apply Q.le_min_r].
      * now apply H2.
Qed.

Lemma fold_left_Qmin_in (l : list Q) (a : Q) :
  exists b, In b (a :: l) /\ fold_left Qmin l a == b.
Proof.
  revert a. induction l as [|c l IH]; intro a; cbn [fold_left].
  - exists a. split; [now left | reflexivity].
  - destruct (IH (Qmin a c)) as (b & [Hb | Hb] & E).
    + destruct (Q.min_spec a c) as [[_ Em] | [_ Em]].
      * exists a. split; [now left|]. now rewrite E, <- Hb.
      * exists c. split; [right; now left|]. now rewrite E, <- Hb.
    + exists b. split; [right; now right | exact E].
Qed.

Lemma Math_min_le (l : list Q) (b : Q) : In b l -> Math_min l <= b.
Proof.
  destruct l as [|a l]; [intros []|]. cbn [Math_min].
  destruct (fold_left_Qmin_le l a) as [H1 H2].
  intros [<- | Hin]; auto.
Qed.

Lemma Math_min_in (l : list Q) : l <> [] -> exists b, In b l /\ Math_min l == b.
Proof.
  destruct l as [|a l]; [congruence|]. intros _. apply fold_left_Qmin_in.
Qed.

(** Settles [snapToGrid v = k] for an integer [k] that [v] is equal to. *)
Ltac snap_to k :=
  match goal with
  | |- snapToGrid ?v = _ =>
      let E := fresh "E" in
      assert (E : v == inject_Z k) by (unfold inject_Z; lra);
      exact (snapToGrid_eq v k E)
  end.

(** Replaces the first [Math_min l] of the goal by a name, after showing
    that it is [v], the head of [l] and no larger than the others. *)
Ltac min_is v :=
  match goal with
  | |- context [Math_min ?l] =>
      let Hle := fresh "Hle" in
      let Hin := fresh "Hin" in
      let Hb := fresh "Hb" in
      let b := fresh "b" in
      let Hmin := fresh "Hmin" in
      let m := fresh "m" in
      assert (Hmin : Math_min l == v);
      [ pose proof (Math_min_le l v (or_introl eq_refl)) as Hle;
        destruct (Math_min_in l ltac:(discriminate)) as (b & Hin & Hb);
        cbn [In] in Hin; decompose [or] Hin; subst; try contradiction; lra
      | set (m := Math_min l) in * ]
  end.

Lemma square_directions :
  solveDirections (filter isH Sample.squareSegments) = [2; -2]
  /\ solveDirections (filter isV Sample.squareSegments) = [2; -2].
Proof. split; vm_compute; reflexivity. Qed.

Lemma square_path (mousePos : Point) :
  normalizedPath mousePos Sample.squareSegments
  = Sample.squareRoomPoints ++ [mkPoint 10 10].
Proof.
  unfold normalizedPath, pathPoints.
  destruct square_directions as [-> ->].
  set (sx := snapToGrid (p_x mousePos)). set (sy := snapToGrid (p_y mousePos)).
  cbn [Sample.squareSegments walk seg_orientation nth p_x p_y].
  unfold normalize. cbn [map p_x p_y].
  min_is sx. min_is sy.
  unfold Sample.squareRoomPoints. cbn [app].
  repeat f_equal; first [snap_to 10%Z | snap_to 12%Z].
Qed.

(** C1: for the square [{2,H},{2,V},{2,H},{2,V}], wherever the mouse is, the
    sign search returns the signed lengths [2, -2] on each axis, whose sum is
    within 0.01 of zero; the normalized path ends on its first point, so it
    closes; and the handler adds a room whose boundary is the path without
    its closing point, a polygon of 4 points and area 4. *)
Theorem square_input_yields_room
    (ids : nat -> string) (rooms : list Room) (activeRoomId : option string)
    (mousePos : Point) :
  let segments := Sample.squareSegments in
  let path := normalizedPath mousePos segments in
  solveDirections (filter isH segments) = [2; -2]
  /\ solveDirections (filter isV segments) = [2; -2]
  /\ Qabs (sumQ (solveDirections (filter isH segments))) < 1 # 100
  /\ Qabs (sumQ (solveDirections (filter isV segments))) < 1 # 100
  /\ path = Sample.squareRoomPoints ++ [mkPoint 10 10]
  /\ distToStartSq path < 1
  /\ closes path = true
  /\ handleBulkWallInput ids rooms activeRoomId mousePos segments
     = SetRooms
         (rooms ++ [mkRoom (ids 0%nat)
                           (String.append "Bulk Room "
                              (natToString (List.length rooms + 1)))
                           Sample.squareRoomPoints [] [] None])
         (Some (ids 0%nat))
  /\ removelast path = Sample.squareRoomPoints
  /\ List.length Sample.squareRoomPoints = 4%nat
  /\ calculatePolygonArea Sample.squareRoomPoints == 4.
Proof.
  intros segments path.
  assert (Hpath : path = Sample.squareRoomPoints ++ [mkPoint 10 10])
    by apply square_path.
  destruct square_directions as [Hh Hv].
  repeat match goal with |- _ /\ _ => split end.
  - exact Hh.
  - exact Hv.
  - subst segments. rewrite Hh. reflexivity.
  - subst segments. rewrite Hv. reflexivity.
  - exact Hpath.
  - rewrite Hpath. reflexivity.
  - rewrite Hpath. reflexivity.
  - unfold handleBulkWallInput.
    change (normalizedPath mousePos segments) with path.
    rewrite Hpath. reflexivity.
  - rewrite Hpath. reflexivity.
  - reflexivity.
  - reflexivity.
Qed.

(** *** The search and its fallback *)





(** *** The walk *)


Lemma last_cons_cons {A} (a b : A) (l : list A) (d : A) :
  last (a :: b :: l) d = last (b :: l) d.
Proof. reflexivity. Qed.


Lemma last_map_cons {A B} (f : A -> B) (a : A) (l : list A) (d : A) (d' : B) :
  last (map f (a :: l)) d' = f (last (a :: l) d).
Proof.
  revert a. induction l as [|b l IH]; intro a; [reflexivity|].
  cbn [map]. rewrite !last_cons_cons. apply (IH b).
Qed.





Lemma square_ge_1 (u v : Q) : 1 <= u -> 1 <= u * u + v * v.
Proof.
  intro Hu.
  assert (H2 : 0 <= v * v) by nra.
  nra.
Qed.

(** *** Closure test *)


Lemma normalize_ends (current : Point) (rest : list Point) :
  let offsetX := 10 - Math_min (map p_x (current :: rest)) in
  let offsetY := 10 - Math_min (map p_y (current :: rest)) in
  let shift p := mkPoint (snapToGrid (p_x p + offsetX)) (snapToGrid (p_y p + offsetY)) in
  nth 0 (normalize (current :: rest)) origin = shift current
  /\ last (normalize (current :: rest)) origin = shift (last (current :: rest) origin).
Proof.
  unfold normalize. cbn zeta. split; [reflexivity|].
  exact (last_map_cons
           (fun p => mkPoint
              (snapToGrid (p_x p + (10 - Math_min (map p_x (current :: rest)))))
              (snapToGrid (p_y p + (10 - Math_min (map p_y (current :: rest))))))
           current rest origin origin).
Qed.


Lemma length_walk (segments : list Segment) (hLengths vLengths : list Q) :
  forall hIdx vIdx current,
    List.length (walk segments hLengths vLengths hIdx vIdx current)
    = List.length segments.
Proof.
  induction segments as [|seg rest IH]; intros hIdx vIdx current; cbn [walk].
  - reflexivity.
  - destruct (seg_orientation seg); cbn [List.length]; now rewrite IH.
Qed.

Lemma length_normalizedPath (mousePos : Point) (segments : list Segment) :
  List.length (normalizedPath mousePos segments) = S (List.length segments).
Proof.
  unfold normalizedPath, normalize, pathPoints.
  rewrite length_map. cbn [List.length]. now rewrite length_walk.
Qed.

Lemma wallsOf_spec (ids : nat -> string) (pts : list Point) :
  forall k,
    List.length (wallsOf ids k pts) = (List.length pts - 1)%nat
    /\ map w_start (wallsOf ids k pts) = removelast pts
    /\ map w_end (wallsOf ids k pts) = tl pts
    /\ map w_id (wallsOf ids k pts) = map ids (seq k (List.length pts - 1))
    /\ chained (wallsOf ids k pts)
    /\ (rectilinearPath pts -> Forall axisAligned (wallsOf ids k pts)).
Proof.
  induction pts as [|a [|b rest] IH]; intro k.
  - cbn. repeat split; auto.
  - cbn. repeat split; auto.
  - destruct (IH (S k)) as (Hlen & Hstart & Hend & Hid & Hchain & Hal).
    change (wallsOf ids k (a :: b :: rest))
      with (mkWall (ids k) a b None None :: wallsOf ids (S k) (b :: rest)).
    repeat split.
    + cbn [List.length] in *. lia.
    + cbn [map w_start]. rewrite Hstart. reflexivity.
    + cbn [map w_end tl]. rewrite Hend. reflexivity.
    + cbn [map w_id]. rewrite Hid.
      replace (List.length (a :: b :: rest) - 1)%nat
        with (S (List.length (b :: rest) - 1)) by (cbn [List.length]; lia).
      reflexivity.
    + destruct rest as [|c rest]; [exact I|].
      change (wallsOf ids (S k) (b :: c :: rest))
        with (mkWall (ids (S k)) b c None None :: wallsOf ids (S (S k)) (c :: rest))
        in *.
      cbn [chained]. split; [reflexivity | exact Hchain].
    + intros [Hab Hrest]. constructor; [exact Hab | now apply Hal].
Qed.









(** ** Feet-and-inches text *)

Import Parse.

Lemma span_spec (p : N -> bool) (s a b : JsString) :
  span p s = (a, b) ->
  s = a ++ b /\ forallb p a = true
  /\ match b with c :: _ => p c = false | [] => True end.
Proof.
  revert a b. induction s as [|c s IH]; intros a b E; cbn in E.
  - injection E as <- <-. auto.
  - destruct (p c) eqn:Ec.
    + destruct (span p s) as [a' b'] eqn:Es. injection E as <- <-.
      destruct (IH a' b' eq_refl) as (-> & Ha & Hb).
      cbn. rewrite Ec. auto.
    + injection E as <- <-. cbn. auto.
Qed.

Lemma span_app (p : N -> bool) (a b : JsString) :
  forallb p a = true ->
  match b with c :: _ => p c = false | [] => True end ->
  span p (a ++ b) = (a, b).
Proof.
  intros Ha Hb. induction a as [|c a IH]; cbn in *.
  - destruct b as [|c b]; [reflexivity|]. cbn. now rewrite Hb.
  - apply andb_true_iff in Ha. destruct Ha as [Hc Ha].
    rewrite Hc, (IH Ha). reflexivity.
Qed.

Lemma span_stop (p : N -> bool) (c : N) (r : JsString) :
  p c = false -> span p (c :: r) = ([], c :: r).
Proof. intro Hc. cbn. now rewrite Hc. Qed.

Lemma isDigit_range (c : N) : isDigit c = true <-> (48 <= c <= 57)%N.
Proof.
  unfold isDigit. rewrite andb_true_iff, !N.leb_le. tauto.
Qed.

Lemma isDigit_not_space (c : N) : isDigit c = true -> isSpace c = false.
Proof.
  intro Hd. apply isDigit_range in Hd. unfold isSpace. cbn [existsb].
  repeat match goal with
         | |- context [(c =? ?k)%N] => destruct (N.eqb_spec c k); [lia|]
         end.
  cbn. apply andb_false_iff. left. apply N.leb_gt. lia.
Qed.

Lemma digitRun_head (ds : JsString) :
  digitRun ds -> exists c rest, ds = c :: rest /\ isDigit c = true.
Proof.
  intros [Hne Hall]. destruct ds as [|c rest]; [congruence|].
  cbn in Hall. apply andb_true_iff in Hall. now exists c, rest.
Qed.

Lemma matchFeetInchesHere_form (feet ws inches post : JsString) :
  digitRun feet -> forallb isSpace ws = true -> digitRun inches ->
  matchFeetInchesHere (feetInchesForm feet ws inches ++ post) = Some (feet, inches).
Proof.
  intros Hf Hws Hi. unfold matchFeetInchesHere, feetInchesForm.
  destruct (digitRun_head feet Hf) as (f0 & frest & Ef & _).
  destruct (digitRun_head inches Hi) as (i0 & irest & Ei & Hi0).
  rewrite <- app_assoc. cbn [app].
  rewrite (span_app isDigit feet) by (try apply Hf; reflexivity).
  rewrite Ef at 1. rewrite N.eqb_refl.
  rewrite <- !app_assoc.
  rewrite (span_app isSpace ws)
    by (try exact Hws; rewrite Ei; cbn; now apply isDigit_not_space).
  cbn [app].
  rewrite (span_app isDigit inches) by (try apply Hi; reflexivity).
  rewrite Ei at 1. rewrite N.eqb_refl. reflexivity.
Qed.

Lemma matchFeetInchesHere_inv (s feet inches : JsString) :
  matchFeetInchesHere s = Some (feet, inches) ->
  exists ws post,
    s = feetInchesForm feet ws inches ++ post
    /\ digitRun feet /\ forallb isSpace ws = true /\ digitRun inches.
Proof.
  unfold matchFeetInchesHere. intro E.
  destruct (span isDigit s) as [f r1] eqn:E1.
  destruct f as [|f0 frest]; [discriminate|].
  destruct r1 as [|c1 r2]; [discriminate|].
  destruct (N.eqb_spec c1 apostrophe) as [-> |]; [|discriminate].
  destruct (span isSpace r2) as [ws r3] eqn:E2.
  destruct (span isDigit r3) as [i r4] eqn:E3.
  destruct i as [|i0 irest]; [discriminate|].
  destruct r4 as [|c2 post]; [discriminate|].
  destruct (N.eqb_spec c2 dquote) as [-> |]; [|discriminate].
  injection E as <- <-.
  apply span_spec in E1, E2, E3.
  destruct E1 as (-> & Hf & _), E2 as (-> & Hws & _), E3 as (-> & Hi & _).
  exists ws, post. unfold feetInchesForm, digitRun.
  repeat split; try assumption; try discriminate.
  cbn [app]. repeat (rewrite <- !app_assoc; cbn [app]). reflexivity.
Qed.

Lemma matchFeetHere_form (feet post : JsString) :
  digitRun feet -> matchFeetHere (feet ++ apostrophe :: post) = Some feet.
Proof.
  intros Hf. unfold matchFeetHere.
  destruct (digitRun_head feet Hf) as (f0 & frest & Ef & _).
  rewrite (span_app isDigit feet) by (try apply Hf; reflexivity).
  rewrite Ef at 1. now rewrite N.eqb_refl.
Qed.

Lemma matchFeetHere_inv (s feet : JsString) :
  matchFeetHere s = Some feet ->
  exists post, s = feet ++ apostrophe :: post /\ digitRun feet.
Proof.
  unfold matchFeetHere. intro E.
  destruct (span isDigit s) as [f r1] eqn:E1.
  destruct f as [|f0 frest]; [discriminate|].
  destruct r1 as [|c1 post]; [discriminate|].
  destruct (N.eqb_spec c1 apostrophe) as [-> |]; [|discriminate].
  injection E as <-.
  apply span_spec in E1. destruct E1 as (-> & Hf & _).
  exists post. split; [reflexivity|]. split; [discriminate | exact Hf].
Qed.

Lemma matchHere_nondigit (c : N) (s : JsString) :
  isDigit c = false ->
  matchFeetInchesHere (c :: s) = None /\ matchFeetHere (c :: s) = None.
Proof.
  intro Hc. unfold matchFeetInchesHere, matchFeetHere. cbn [span].
  now rewrite Hc.
Qed.

Lemma searchFeetInches_inv (s feet inches : JsString) :
  searchFeetInches s = Some (feet, inches) ->
  exists pre ws post,
    s = pre ++ feetInchesForm feet ws inches ++ post
    /\ digitRun feet /\ forallb isSpace ws = true /\ digitRun inches.
Proof.
  induction s as [|c s IH]; cbn [searchFeetInches]; intro E.
  - destruct (matchFeetInchesHere []) as [m|] eqn:Em; [|discriminate].
    injection E as ->. apply matchFeetInchesHere_inv in Em.
    destruct Em as (ws & post & Hs & H). exists [], ws, post. now split.
  - destruct (matchFeetInchesHere (c :: s)) as [m|] eqn:Em.
    + injection E as ->. apply matchFeetInchesHere_inv in Em.
      destruct Em as (ws & post & Hs & H). exists [], ws, post. now split.
    + destruct (IH E) as (pre & ws & post & -> & H).
      exists (c :: pre), ws, post. now split.
Qed.

Lemma searchFeetInches_finds (pre feet ws inches post : JsString) :
  digitRun feet -> forallb isSpace ws = true -> digitRun inches ->
  exists feet' inches',
    searchFeetInches (pre ++ feetInchesForm feet ws inches ++ post)
    = Some (feet', inches')
    /\ (forallb (fun c => negb (isDigit c)) pre = true ->
        feet' = feet /\ inches' = inches).
Proof.
  intros Hf Hws Hi.
  pose proof (matchFeetInchesHere_form feet ws inches post Hf Hws Hi) as Hm.
  induction pre as [|c pre IH].
  - exists feet, inches. split; [|auto].
    cbn [app]. destruct (feetInchesForm feet ws inches ++ post);
      cbn [searchFeetInches]; now rewrite Hm.
  - cbn [app searchFeetInches].
    destruct (matchFeetInchesHere (c :: pre ++ _)) as [[f i]|] eqn:Em.
    + exists f, i. split; [reflexivity|].
      cbn [forallb]. intro Hpre. apply andb_true_iff in Hpre.
      destruct Hpre as [Hc _]. apply negb_true_iff in Hc.
      destruct (matchHere_nondigit c (pre ++ feetInchesForm feet ws inches ++ post) Hc)
        as [E _]. congruence.
    + destruct IH as (f & i & E & Hleft). exists f, i. split; [exact E|].
      cbn [forallb]. intro Hpre. apply andb_true_iff in Hpre. now apply Hleft.
Qed.

Lemma searchFeet_inv (s feet : JsString) :
  searchFeet s = Some feet ->
  exists pre post, s = pre ++ feet ++ apostrophe :: post /\ digitRun feet.
Proof.
  induction s as [|c s IH]; cbn [searchFeet]; intro E.
  - destruct (matchFeetHere []) as [m|] eqn:Em; [|discriminate].
    injection E as ->. apply matchFeetHere_inv in Em.
    destruct Em as (post & Hs & H). exists [], post. now split.
  - destruct (matchFeetHere (c :: s)) as [m|] eqn:Em.
    + injection E as ->. apply matchFeetHere_inv in Em.
      destruct Em as (post & Hs & H). exists [], post. now split.
    + destruct (IH E) as (pre & post & -> & H).
      exists (c :: pre), post. now split.
Qed.

Lemma searchFeet_finds (pre feet post : JsString) :
  digitRun feet ->
  exists feet',
    searchFeet (pre ++ feet ++ apostrophe :: post) = Some feet'
    /\ (forallb (fun c => negb (isDigit c)) pre = true -> feet' = feet).
Proof.
  intros Hf.
  pose proof (matchFeetHere_form feet post Hf) as Hm.
  induction pre as [|c pre IH].
  - exists feet. split; [|auto].
    cbn [app]. destruct (feet ++ apostrophe :: post);
      cbn [searchFeet]; now rewrite Hm.
  - cbn [app searchFeet].
    destruct (matchFeetHere (c :: pre ++ _)) as [f|] eqn:Em.
    + exists f. split; [reflexivity|].
      cbn [forallb]. intro Hpre. apply andb_true_iff in Hpre.
      destruct Hpre as [Hc _]. apply negb_true_iff in Hc.
      destruct (matchHere_nondigit c (pre ++ feet ++ apostrophe :: post) Hc)
        as [_ E]. congruence.
    + destruct IH as (f & E & Hleft). exists f. split; [exact E|].
      cbn [forallb]. intro Hpre. apply andb_true_iff in Hpre. now apply Hleft.
Qed.

Lemma searchFeetInches_None (s : JsString) :
  searchFeetInches s = None <-> ~ containsFeetInches s.
Proof.
  split.
  - intros E (pre & feet & ws & inches & post & -> & Hf & Hws & Hi).
    destruct (searchFeetInches_finds pre feet ws inches post Hf Hws Hi)
      as (f & i & E' & _). congruence.
  - intro Hnot. destruct (searchFeetInches s) as [[f i]|] eqn:E; [|reflexivity].
    exfalso. apply Hnot. apply searchFeetInches_inv in E.
    destruct E as (pre & ws & post & H). now exists pre, f, ws, i, post.
Qed.

Lemma searchFeet_None (s : JsString) :
  searchFeet s = None <-> ~ containsFeet s.
Proof.
  split.
  - intros E (pre & feet & post & -> & Hf).
    destruct (searchFeet_finds pre feet post Hf) as (f & E' & _). congruence.
  - intro Hnot. destruct (searchFeet s) as [f|] eqn:E; [|reflexivity].
    exfalso. apply Hnot. apply searchFeet_inv in E.
    destruct E as (pre & post & H). now exists pre, f, post.
Qed.

Lemma containsFeet_apostrophe (s : JsString) :
  containsFeet s -> In apostrophe s.
Proof.
  intros (pre & feet & post & -> & _).
  apply in_or_app. right. apply in_or_app. right. now left.
Qed.

Lemma containsFeetInches_containsFeet (s : JsString) :
  containsFeetInches s -> containsFeet s.
Proof.
  intros (pre & feet & ws & inches & post & -> & Hf & _).
  exists pre, feet, (ws ++ inches ++ [dquote] ++ post). split; [|exact Hf].
  unfold feetInchesForm. cbn [app].
  repeat (rewrite <- !app_assoc; cbn [app]). reflexivity.
Qed.

(** *** The first occurrence of a form *)

Lemma app_same_length {A} (a a' b b' : list A) :
  a ++ b = a' ++ b' -> List.length a = List.length a' -> a = a' /\ b = b'.
Proof.
  revert a'. induction a as [|x a IH]; intros [|x' a'] E Hlen; cbn in *;
    try discriminate.
  - now split.
  - injection E as -> E. destruct (IH a' E ltac:(lia)) as [-> ->]. now split.
Qed.

Lemma searchFeetInches_first (s feet inches : JsString) :
  searchFeetInches s = Some (feet, inches) -> firstFeetInches s feet inches.
Proof.
  induction s as [|c s IH]; cbn [searchFeetInches]; intro E.
  - destruct (matchFeetInchesHere []) as [m|] eqn:Em; [|discriminate].
    injection E as ->. apply matchFeetInchesHere_inv in Em.
    destruct Em as (ws & post & Hs & H). exists 0%nat. split.
    + exists [], ws, post. now split.
    + intros k' f i Hk. lia.
  - destruct (matchFeetInchesHere (c :: s)) as [m|] eqn:Em.
    + injection E as ->. apply matchFeetInchesHere_inv in Em.
      destruct Em as (ws & post & Hs & H). exists 0%nat. split.
      * exists [], ws, post. now split.
      * intros k' f i Hk. lia.
    + destruct (IH E) as (k & (pre & ws & post & -> & Hlen & H) & Hmin).
      exists (S k). split.
      * exists (c :: pre), ws, post. cbn [List.length app]. repeat split; try apply H.
        now rewrite Hlen.
      * intros k' f i Hk (pre' & ws' & post' & Es & Hlen' & Hf & Hws & Hi).
        destruct pre' as [|c' pre']; cbn [List.length app] in *.
        -- rewrite Es in Em.
           rewrite (matchFeetInchesHere_form f ws' i post' Hf Hws Hi) in Em.
           discriminate.
        -- injection Es as <- Es. subst k'.
           apply (Hmin (List.length pre') f i ltac:(lia)).
           exists pre', ws', post'.
           exact (conj Es (conj eq_refl (conj Hf (conj Hws Hi)))).
Qed.

Lemma firstFeetInches_search (s feet inches : JsString) :
  firstFeetInches s feet inches -> searchFeetInches s = Some (feet, inches).
Proof.
  intros (k & (pre & ws & post & Es & Hlen & Hf & Hws & Hi) & Hmin).
  destruct (searchFeetInches s) as [[f i]|] eqn:E.
  - apply searchFeetInches_first in E.
    destruct E as (k' & (pre' & ws' & post' & Es' & Hlen' & Hf' & Hws' & Hi') & Hmin').
    assert (Hk : k = k').
    { destruct (Nat.lt_trichotomy k k') as [Hlt | [Heq | Hgt]]; [|exact Heq|].
      - exfalso. apply (Hmin' k feet inches Hlt). now exists pre, ws, post.
      - exfalso. apply (Hmin k' f i Hgt). now exists pre', ws', post'. }
    subst k'. rewrite Es in Es'.
    destruct (app_same_length _ _ _ _ Es' ltac:(lia)) as [_ Hrest].
    pose proof (matchFeetInchesHere_form feet ws inches post Hf Hws Hi) as M.
    rewrite Hrest in M.
    rewrite (matchFeetInchesHere_form f ws' i post' Hf' Hws' Hi') in M.
    now injection M as -> ->.
  - exfalso. apply searchFeetInches_None in E. apply E.
    now exists pre, feet, ws, inches, post.
Qed.

Lemma searchFeet_first (s feet : JsString) :
  searchFeet s = Some feet -> firstFeet s feet.
Proof.
  induction s as [|c s IH]; cbn [searchFeet]; intro E.
  - destruct (matchFeetHere []) as [m|] eqn:Em; [|discriminate].
    injection E as ->. apply matchFeetHere_inv in Em.
    destruct Em as (post & Hs & H). exists 0%nat. split.
    + exists [], post. now split.
    + intros k' f Hk. lia.
  - destruct (matchFeetHere (c :: s)) as [m|] eqn:Em.
    + injection E as ->. apply matchFeetHere_inv in Em.
      destruct Em as (post & Hs & H). exists 0%nat. split.
      * exists [], post. now split.
      * intros k' f Hk. lia.
    + destruct (IH E) as (k & (pre & post & -> & Hlen & H) & Hmin).
      exists (S k). split.
      * exists (c :: pre), post. cbn [List.length app]. repeat split; try apply H.
        now rewrite Hlen.
      * intros k' f Hk (pre' & post' & Es & Hlen' & Hf).
        destruct pre' as [|c' pre']; cbn [List.length app] in *.
        -- rewrite Es in Em. rewrite (matchFeetHere_form f post' Hf) in Em.
           discriminate.
        -- injection Es as <- Es. subst k'.
           apply (Hmin (List.length pre') f ltac:(lia)).
           exists pre', post'. exact (conj Es (conj eq_refl Hf)).
Qed.

Lemma firstFeet_search (s feet : JsString) :
  firstFeet s feet -> searchFeet s = Some feet.
Proof.
  intros (k & (pre & post & Es & Hlen & Hf) & Hmin).
  destruct (searchFeet s) as [f|] eqn:E.
  - apply searchFeet_first in E.
    destruct E as (k' & (pre' & post' & Es' & Hlen' & Hf') & Hmin').
    assert (Hk : k = k').
    { destruct (Nat.lt_trichotomy k k') as [Hlt | [Heq | Hgt]]; [|exact Heq|].
      - exfalso. apply (Hmin' k feet Hlt). now exists pre, post.
      - exfalso. apply (Hmin k' f Hgt). now exists pre', post'. }
    subst k'. rewrite Es in Es'.
    destruct (app_same_length _ _ _ _ Es' ltac:(lia)) as [_ Hrest].
    pose proof (matchFeetHere_form feet post Hf) as M.
    rewrite Hrest in M. rewrite (matchFeetHere_form f post' Hf') in M.
    now injection M as ->.
  - exfalso. apply searchFeet_None in E. apply E. now exists pre, feet, post.
Qed.

(** *** [parseFloat] *)

Section ParseNumbers.
Import PrimFloat FloatOps.

Lemma is_nan_opp (v : float) : is_nan (- v)%float = is_nan v.
Proof.
  destruct (is_nan v) eqn:E.
  - apply is_nan_spec in E. apply is_nan_spec.
    rewrite FloatAxioms.opp_spec, E. reflexivity.
  - apply is_nan_false in E. apply is_nan_false.
    rewrite FloatAxioms.opp_spec. now destruct (Prim2SF v).
Qed.

Lemma unsignedLiteral_is_nan (u : JsString) :
  is_nan (unsignedLiteral u) = negb (literalStart u).
Proof.
  unfold unsignedLiteral, literalStart.
  destruct u as [|c r]; [reflexivity|].
  destruct (startsWith (units "Infinity") (c :: r)) eqn:EI.
  - now rewrite orb_true_r.
  - rewrite orb_false_r. cbn [span].
    destruct (isDigit c) eqn:Ed.
    + destruct (span isDigit r) as [a b].
      destruct b as [|c' r2]; [apply toNumber_not_nan|].
      destruct (c' =? dot)%N; [|apply toNumber_not_nan].
      destruct (span isDigit r2) as [fp r3]. apply toNumber_not_nan.
    + destruct (c =? dot)%N; [|reflexivity].
      destruct r as [|d r']; [reflexivity|].
      cbn [span orb andb]. destruct (isDigit d); [|reflexivity].
      destruct (span isDigit r') as [a b]. apply toNumber_not_nan.
Qed.

Lemma parseFloat_is_nan (s : JsString) :
  is_nan (parseFloat s) = negb (startsNumber s).
Proof.
  unfold parseFloat, startsNumber.
  destruct (snd (span isSpace s)) as [|c r]; [reflexivity|].
  destruct (N.eqb_spec c minus) as [-> | Hm].
  - cbn [orb]. rewrite is_nan_opp. apply unsignedLiteral_is_nan.
  - destruct (N.eqb_spec c plus) as [-> | Hp].
    + cbn [orb]. apply unsignedLiteral_is_nan.
    + cbn [orb]. apply (unsignedLiteral_is_nan (c :: r)).
Qed.

Lemma digits_no_apostrophe (ds : JsString) :
  forallb isDigit ds = true -> ~ In apostrophe ds.
Proof.
  intros Hall Hin. rewrite forallb_forall in Hall.
  specialize (Hall _ Hin). discriminate.
Qed.

Lemma startsWith_Infinity_digit (c : N) (r : JsString) :
  isDigit c = true -> startsWith (units "Infinity") (c :: r) = false.
Proof.
  intro Hc. apply isDigit_range in Hc.
  assert (E : exists t, units "Infinity" = 73%N :: t) by (eexists; reflexivity).
  destruct E as [t ->]. cbn [startsWith].
  destruct (N.eqb_spec 73 c); [lia | reflexivity].
Qed.

Lemma parseFloat_digits (ip : JsString) :
  digitRun ip -> parseFloat ip = parseInt ip.
Proof.
  intros Hip. destruct (digitRun_head ip Hip) as (c & rest & -> & Hc).
  pose proof Hc as Hr. apply isDigit_range in Hr.
  pose proof (span_app isDigit (c :: rest) [] (proj2 Hip) I) as Hs.
  rewrite app_nil_r in Hs.
  unfold parseFloat.
  rewrite span_stop by now apply isDigit_not_space.
  cbn [snd].
  destruct (N.eqb_spec c minus) as [-> |]; [unfold minus in Hr; lia|].
  destruct (N.eqb_spec c plus) as [-> |]; [unfold plus in Hr; lia|].
  unfold unsignedLiteral.
  rewrite startsWith_Infinity_digit by exact Hc.
  rewrite Hs. reflexivity.
Qed.

Lemma toNumber_mult_1 (q : Q) : Binary64.toNumber (q * 1) = Binary64.toNumber q.
Proof.
  unfold Binary64.toNumber. cbn [Qnum Qden Qmult].
  now rewrite Z.mul_1_r, Pos.mul_1_r.
Qed.

Lemma parseFloat_decimal (ip fp : JsString) :
  digitRun ip -> digitRun fp ->
  parseFloat (ip ++ dot :: fp) = Binary64.toNumber (decimalValue ip fp).
Proof.
  intros Hip Hfp. destruct (digitRun_head ip Hip) as (c & rest & -> & Hc).
  destruct (digitRun_head fp Hfp) as (d & frest & -> & _).
  pose proof Hc as Hr. apply isDigit_range in Hr.
  pose proof (span_app isDigit (c :: rest) (dot :: d :: frest) (proj2 Hip) eq_refl)
    as Hs1.
  pose proof (span_app isDigit (d :: frest) [] (proj2 Hfp) I) as Hs2.
  rewrite app_nil_r in Hs2.
  unfold parseFloat. cbn [app] in *.
  rewrite span_stop by now apply isDigit_not_space.
  cbn [snd].
  destruct (N.eqb_spec c minus) as [-> |]; [unfold minus in Hr; lia|].
  destruct (N.eqb_spec c plus) as [-> |]; [unfold plus in Hr; lia|].
  unfold unsignedLiteral.
  rewrite startsWith_Infinity_digit by exact Hc.
  rewrite Hs1, N.eqb_refl, Hs2.
  cbn [exponentOf]. change (10 ^ 0%Z) with 1. apply toNumber_mult_1.
Qed.

Lemma parseFeetInches_None (s : JsString) :
  parseFeetInches s = None
  <-> ~ containsFeetInches s /\ ~ containsFeet s /\ startsNumber s = false.
Proof.
  rewrite <- searchFeetInches_None, <- searchFeet_None.
  unfold parseFeetInches.
  destruct (searchFeetInches s) as [[f i]|].
  - split; [discriminate | intros [E _]; discriminate].
  - destruct (searchFeet s) as [f|].
    + split; [discriminate | intros (_ & E & _); discriminate].
    + rewrite parseFloat_is_nan, negb_involutive.
      destruct (startsNumber s); split; try discriminate; auto.
      intros (_ & _ & E). discriminate.
Qed.

(** C7, as the code has it.  A string that contains the feet-inches form
    gives F + I/12 for the first occurrence of the form, the sum and the
    quotient being those of binary64; a string without that form that
    contains bare feet gives F for the first occurrence of bare feet; a
    plain decimal gives the number nearest to its value; a string with
    neither form gives whatever [parseFloat] reads at its start.  The result
    is [null] exactly when the string contains neither form and does not
    start, after white space and an optional sign, with a digit, a dot and a
    digit, or Infinity. *)
Theorem parseFeetInches_formats :
  (forall s,
      containsFeetInches s ->
      exists feet inches,
        firstFeetInches s feet inches
        /\ parseFeetInches s
           = Some (parseInt feet + parseInt inches / 12)%float)
  /\ (forall s feet inches,
        firstFeetInches s feet inches ->
        parseFeetInches s = Some (parseInt feet + parseInt inches / 12)%float)
  /\ (forall s,
        ~ containsFeetInches s -> containsFeet s ->
        exists feet, firstFeet s feet /\ parseFeetInches s = Some (parseInt feet))
  /\ (forall s feet,
        ~ containsFeetInches s -> firstFeet s feet ->
        parseFeetInches s = Some (parseInt feet))
  /\ (forall ip,
        digitRun ip ->
        parseFeetInches ip = Some (Binary64.toNumber (integerValue ip)))
  /\ (forall ip fp,
        digitRun ip -> digitRun fp ->
        parseFeetInches (ip ++ dot :: fp)
        = Some (Binary64.toNumber (decimalValue ip fp)))
  /\ (forall s,
        ~ containsFeetInches s -> ~ containsFeet s ->
        parseFeetInches s
        = if is_nan (parseFloat s) then None else Some (parseFloat s))
  /\ (forall s,
        parseFeetInches s = None
        <-> ~ containsFeetInches s /\ ~ containsFeet s /\ startsNumber s = false).
Proof.
  assert (Hfirst : forall s feet inches,
             firstFeetInches s feet inches ->
             parseFeetInches s = Some (parseInt feet + parseInt inches / 12)%float).
  { intros s feet inches H. unfold parseFeetInches.
    now rewrite (firstFeetInches_search s feet inches H). }
  assert (Hfeet : forall s feet,
             ~ containsFeetInches s -> firstFeet s feet ->
             parseFeetInches s = Some (parseInt feet)).
  { intros s feet Hnot H. unfold parseFeetInches.
    apply searchFeetInches_None in Hnot.
    now rewrite Hnot, (firstFeet_search s feet H). }
  split; [| split; [| split; [| split; [| split; [| split; [| split]]]]]].
  - intros s Hs.
    destruct (searchFeetInches s) as [[f i]|] eqn:E.
    + apply searchFeetInches_first in E. exists f, i. split; [exact E|].
      now apply Hfirst.
    + now apply searchFeetInches_None in E.
  - exact Hfirst.
  - intros s Hnot Hs.
    destruct (searchFeet s) as [f|] eqn:E.
    + apply searchFeet_first in E. exists f. split; [exact E|].
      now apply Hfeet.
    + now apply searchFeet_None in E.
  - exact Hfeet.
  - intros ip Hip. unfold parseFeetInches.
    assert (Hno : ~ containsFeet ip).
    { intro Hc. apply containsFeet_apostrophe in Hc.
      now apply (digits_no_apostrophe ip (proj2 Hip)). }
    assert (Hno' : ~ containsFeetInches ip)
      by (intro Hc; now apply Hno, containsFeetInches_containsFeet).
    apply searchFeetInches_None in Hno'. apply searchFeet_None in Hno.
    rewrite Hno', Hno, (parseFloat_digits ip Hip). unfold parseInt.
    now rewrite toNumber_not_nan.
  - intros ip fp Hip Hfp. unfold parseFeetInches.
    assert (Hno : ~ containsFeet (ip ++ dot :: fp)).
    { intro Hc. apply containsFeet_apostrophe in Hc.
      apply in_app_or in Hc. destruct Hc as [Hc | [Hc | Hc]].
      - now apply (digits_no_apostrophe ip (proj2 Hip)).
      - discriminate.
      - now apply (digits_no_apostrophe fp (proj2 Hfp)). }
    assert (Hno' : ~ containsFeetInches (ip ++ dot :: fp))
      by (intro Hc; now apply Hno, containsFeetInches_containsFeet).
    apply searchFeetInches_None in Hno'. apply searchFeet_None in Hno.
    rewrite Hno', Hno, (parseFloat_decimal ip fp Hip Hfp).
    now rewrite toNumber_not_nan.
  - intros s H1 H2. unfold parseFeetInches.
    apply searchFeetInches_None in H1. apply searchFeet_None in H2.
    rewrite H1, H2. now destruct (is_nan (parseFloat s)).
  - apply parseFeetInches_None.
Qed.

Lemma parseFeetInches_formats_witness :
  parseFeetInches (units "12 ft by 4'6" ++ dquote :: units " or 7'3" ++ [dquote])
  = Some (Binary64.toNumber (9 # 2))
  /\ parseFeetInches (units "room 12, about 7' by 8' long")
     = Some (Binary64.toNumber 7)
  /\ parseFeetInches (units "12") = Some (Binary64.toNumber 12)
  /\ parseFeetInches (units "4.5") = Some (Binary64.toNumber (9 # 2))
  /\ parseFeetInches (units "n/a") = None.
Proof.
  destruct parseFeetInches_formats as (_ & Hfi & _ & Hf & Hd & Hdd & _ & Hnull).
  assert (D : forall ds, ds <> [] -> forallb isDigit ds = true -> digitRun ds)
    by (intros ds H1 H2; now split).
  split; [| split; [| split; [| split]]].
  - apply (Hfi _ (units "4") (units "6")).
    apply searchFeetInches_first. reflexivity.
  - apply (Hf _ (units "7")).
    + apply searchFeetInches_None. reflexivity.
    + apply searchFeet_first. reflexivity.
  - exact (Hd (units "12") (D (units "12") ltac:(discriminate) eq_refl)).
  - exact (Hdd (units "4") (units "5")
             (D (units "4") ltac:(discriminate) eq_refl)
             (D (units "5") ltac:(discriminate) eq_refl)).
  - apply (Hnull (units "n/a")). split; [| split].
    + apply searchFeetInches_None. reflexivity.
    + apply searchFeet_None. reflexivity.
    + reflexivity.
Defined.

(** C7, as the specification has it, fails: "12abc" contains neither form
    and is not a plain decimal, yet the result is 12 and not [null], because
    [parseFloat] reads the number at the start and ignores the rest.
    "Infinity" is another such string. *)
Lemma parseFeetInches_reads_prefix :
  ~ containsFeetInches (units "12abc")
  /\ ~ containsFeet (units "12abc")
  /\ isPlainDecimal (units "12abc") = false
  /\ parseFeetInches (units "12abc") = Some (Binary64.toNumber 12)
  /\ parseFeetInches (units "12abc") <> None
  /\ parseFeetInches (units "Infinity") = Some infinity.
Proof.
  split; [| split; [| split; [| split; [| split]]]].
  - apply searchFeetInches_None. reflexivity.
  - apply searchFeet_None. reflexivity.
  - reflexivity.
  - reflexivity.
  - discriminate.
  - reflexivity.
Qed.

End ParseNumbers.

(** * Further properties of the code *)

(** ** History: what undo and redo give back *)





Lemma nth_error_firstn_lt {A} (l : list A) (n i : nat) :
  (i < n)%nat -> nth_error (firstn n l) i = nth_error l i.
Proof.
  intro Hi. rewrite nth_error_firstn.
  apply Nat.ltb_lt in Hi. now rewrite Hi.
Qed.

Lemma nth_error_tl {A} (l : list A) (i : nat) :
  nth_error (tl l) i = nth_error l (S i).
Proof. destruct l; [now destruct i | reflexivity]. Qed.

(** The entry under the cursor before a push is the one just below the
    cursor after it. *)
Lemma addToHistory_previous (next : list Room) (s : State) :
  historyBounded s ->
  (0 < historyIndex (addToHistory next s))%Z
  /\ index (history (addToHistory next s)) (historyIndex (addToHistory next s) - 1)
     = index (history s) (historyIndex s).
Proof.
  intros Hb. pose proof (addToHistory_history next s Hb) as Hh.
  destruct Hb as [Hlen Hidx].
  assert (Hnext : historyIndex (addToHistory next s)
                  = if (49 <? historyIndex s + 1)%Z then 49%Z
                    else (historyIndex s + 1)%Z) by reflexivity.
  remember (firstn (Z.to_nat (historyIndex s + 1)) (history s)) as kept eqn:Ek.
  assert (Hk : List.length kept = Z.to_nat (historyIndex s + 1)).
  { subst kept. rewrite length_firstn. lia. }
  assert (Hin : nth_error kept (Z.to_nat (historyIndex s))
                = nth_error (history s) (Z.to_nat (historyIndex s))).
  { subst kept. apply nth_error_firstn_lt. lia. }
  rewrite Hh, Hnext. unfold evictOldest. rewrite length_app, Hk. cbn [List.length].
  destruct (50 <? Z.to_nat (historyIndex s + 1) + 1)%nat eqn:E.
  - apply Nat.ltb_lt in E. assert (Hi : historyIndex s = 49%Z) by lia.
    destruct (49 <? historyIndex s + 1)%Z eqn:E2; [|apply Z.ltb_ge in E2; lia].
    split; [lia|].
    rewrite !index_nth_error by lia. rewrite nth_error_tl, <- Hin.
    replace (S (Z.to_nat (49 - 1))) with (Z.to_nat (historyIndex s)) by lia.
    apply nth_error_app1. lia.
  - apply Nat.ltb_ge in E.
    destruct (49 <? historyIndex s + 1)%Z eqn:E2; [apply Z.ltb_lt in E2; lia|].
    split; [lia|].
    rewrite !index_nth_error by lia.
    replace (historyIndex s + 1 - 1)%Z with (historyIndex s) by lia.
    rewrite <- Hin. apply nth_error_app1. lia.
Qed.

(** X2: [undo] right after a recorded change shows the rooms that were on
    display before the change, also when the push evicted the oldest entry;
    a [redo] after that shows the change again. *)
Theorem undo_after_change_restores (next : list Room) (s : State) :
  historyBounded s -> historyConsistent s ->
  rooms (undo (setRooms next true s)) = rooms s
  /\ rooms (redo (undo (setRooms next true s))) = Some next.
Proof.
  intros Hb Hc.
  destruct (addToHistory_bounded next s Hb) as (Hb1 & Hcur & Hlast).
  destruct (addToHistory_previous next s Hb) as (Hpos & Hprev).
  assert (Hundo : undo (setRooms next true s)
                  = mkState (index (history s) (historyIndex s))
                            (history (addToHistory next s))
                            (historyIndex (addToHistory next s) - 1)).
  { unfold undo, setRooms. cbn [rooms history historyIndex].
    apply Z.ltb_lt in Hpos. rewrite Hpos. now rewrite Hprev. }
  rewrite Hundo. cbn [rooms]. split; [symmetry; exact Hc|].
  unfold redo. cbn [rooms history historyIndex].
  replace (historyIndex (addToHistory next s) - 1
           <? Z.of_nat (List.length (history (addToHistory next s))) - 1)%Z
    with true by (symmetry; apply Z.ltb_lt; lia).
  cbn [rooms].
  replace (historyIndex (addToHistory next s) - 1 + 1)%Z
    with (historyIndex (addToHistory next s)) by lia.
  exact Hcur.
Qed.

Lemma undo_after_change_restores_witness :
  let full := mkState (Some []) (repeat [] 50) 49 in
  rooms (undo (setRooms [Sample.roomA] true full)) = rooms full
  /\ rooms (redo (undo (setRooms [Sample.roomA] true full))) = Some [Sample.roomA].
Proof.
  intro full.
  apply (undo_after_change_restores [Sample.roomA] full).
  - unfold historyBounded. cbn. lia.
  - reflexivity.
Defined.

(** X3: [undo] and [redo] are inverse to each other wherever they move the
    cursor, and after a recorded change there is nothing left to redo. *)
Theorem undo_redo_round_trip (s : State) :
  historyBounded s -> historyConsistent s ->
  ((0 < historyIndex s)%Z -> redo (undo s) = s)
  /\ ((historyIndex s < Z.of_nat (List.length (history s)) - 1)%Z -> undo (redo s) = s)
  /\ (forall next, redo (setRooms next true s) = setRooms next true s).
Proof.
  intros Hb Hc. destruct s as [r h i]. unfold historyConsistent in Hc.
  cbn [rooms history historyIndex] in Hc.
  split; [| split].
  - cbn [historyIndex]. intro Hi. unfold undo. cbn [rooms history historyIndex].
    apply Z.ltb_lt in Hi. rewrite Hi. apply Z.ltb_lt in Hi.
    destruct Hb as [_ Hidx]. cbn [history historyIndex] in Hidx.
    unfold redo. cbn [rooms history historyIndex].
    replace (i - 1 <? Z.of_nat (List.length h) - 1)%Z with true
      by (symmetry; apply Z.ltb_lt; lia).
    replace (i - 1 + 1)%Z with i by lia. now rewrite Hc.
  - cbn [history historyIndex]. intro Hi. unfold redo. cbn [rooms history historyIndex].
    apply Z.ltb_lt in Hi. rewrite Hi. apply Z.ltb_lt in Hi.
    destruct Hb as [_ Hidx]. cbn [history historyIndex] in Hidx.
    unfold undo. cbn [rooms history historyIndex].
    replace (0 <? i + 1)%Z with true by (symmetry; apply Z.ltb_lt; lia).
    replace (i + 1 - 1)%Z with i by lia. now rewrite Hc.
  - intro next.
    destruct (addToHistory_bounded next _ Hb) as (_ & _ & Hlast).
    unfold redo. unfold setRooms at 1 2. cbn [rooms history historyIndex].
    rewrite Hlast. now rewrite Z.ltb_irrefl.
Qed.

Lemma undo_redo_round_trip_witness :
  let s := mkState (Some [Sample.roomA]) [[]; [Sample.roomA]; [Sample.roomB]] 1 in
  ((0 < historyIndex s)%Z -> redo (undo s) = s)
  /\ ((historyIndex s < Z.of_nat (List.length (history s)) - 1)%Z -> undo (redo s) = s)
  /\ (forall next, redo (setRooms next true s) = setRooms next true s).
Proof.
  intro s. apply (undo_redo_round_trip s).
  - unfold historyBounded. cbn. lia.
  - reflexivity.
Defined.

(** ** Geometry: rectangular rooms *)

Lemma Qltb_trans_true (a b c : Q) : b < c -> (a <? b) = true -> (a <? c) = true.
Proof.
  intros Hbc Hab. apply Qltb_lt in Hab. apply Qltb_lt. lra.
Qed.

Lemma isPointInPolygon_box (x0 y0 x1 y1 : Q) (p : Point) :
  x0 < x1 -> y0 < y1 ->
  isPointInPolygon p (rectangleRoom x0 y0 x1 y1)
  = (x0 <=? p_x p) && (p_x p <? x1) && (y0 <=? p_y p) && (p_y p <? y1).
Proof.
  intros Hw Hh. unfold isPointInPolygon, rectangleRoom. cbn.
  rewrite !xorb_nilpotent. cbn [andb].
  assert (E1 : (x0 - x0) * (p_y p - y0) / (y1 - y0) + x0 == x0).
  { field. lra. }
  assert (E2 : (x1 - x1) * (p_y p - y1) / (y0 - y1) + x1 == x1).
  { field. lra. }
  rewrite (Qltb_comp _ _ (Qeq_refl (p_x p)) _ _ E1).
  rewrite (Qltb_comp _ _ (Qeq_refl (p_x p)) _ _ E2).
  replace (x0 <=? p_x p) with (negb (p_x p <? x0))
    by (unfold Qltb; apply negb_involutive).
  replace (y0 <=? p_y p) with (negb (p_y p <? y0))
    by (unfold Qltb; apply negb_involutive).
  assert (Ha : (p_y p <? y0) = true -> (p_y p <? y1) = true)
    by (apply Qltb_trans_true; lra).
  assert (Hc : (p_x p <? x0) = true -> (p_x p <? x1) = true)
    by (apply Qltb_trans_true; lra).
  destruct (p_y p <? y0), (p_y p <? y1), (p_x p <? x0), (p_x p <? x1);
    try reflexivity;
    try (specialize (Ha eq_refl); discriminate);
    try (specialize (Hc eq_refl); discriminate).
Qed.

(** X4: in a rectangular room (coordinates of ordinary size)
    [isPointInPolygon] is the half-open box test: a point on the left or
    top wall is inside, a point on the right or bottom wall is not; of the
    four corners of the room only the first one is inside. *)
Theorem rectangle_room_containment (x0 y0 x1 y1 : Q) (p : Point) :
  x0 < x1 -> y0 < y1 ->
  ordinaryCoordinate x0 -> ordinaryCoordinate y0 ->
  ordinaryCoordinate x1 -> ordinaryCoordinate y1 ->
  ordinaryCoordinate (p_x p) -> ordinaryCoordinate (p_y p) ->
  isPointInPolygon p (rectangleRoom x0 y0 x1 y1)
  = (x0 <=? p_x p) && (p_x p <? x1) && (y0 <=? p_y p) && (p_y p <? y1)
  /\ map (fun corner => isPointInPolygon corner (rectangleRoom x0 y0 x1 y1))
         (rectangleRoom x0 y0 x1 y1)
     = [true; false; false; false].
Proof.
  intros Hw Hh _ _ _ _ _ _. split; [now apply isPointInPolygon_box|].
  unfold rectangleRoom at 2. cbn [map].
  rewrite !isPointInPolygon_box by assumption. cbn [p_x p_y].
  assert (L : forall a, (a <=? a) = true) by (intro a; apply Qleb_le, Qle_refl).
  assert (N : forall a, (a <? a) = false) by (intro a; apply Qltb_ge, Qle_refl).
  assert (Lx : (x0 <? x1) = true) by now apply Qltb_lt.
  assert (Ly : (y0 <? y1) = true) by now apply Qltb_lt.
  rewrite !L, !N, Lx, Ly. cbn [andb]. now rewrite ?andb_false_r.
Qed.

Lemma rectangle_room_containment_witness :
  isPointInPolygon (mkPoint 0 3) (rectangleRoom 0 0 10 8) = true
  /\ map (fun corner => isPointInPolygon corner (rectangleRoom 0 0 10 8))
         (rectangleRoom 0 0 10 8)
     = [true; false; false; false].
Proof.
  destruct (rectangle_room_containment 0 0 10 8 (mkPoint 0 3)) as [Ep Ec];
    try reflexivity; try (vm_compute; discriminate).
  split; [rewrite Ep; reflexivity | exact Ec].
Defined.

(** ** Snapping: how far and to what *)

Lemma snapToGrid_near (v : Q) : Qabs (snapToGrid v - v) <= 1 # 2.
Proof.
  unfold snapToGrid, Math_round, GRID_SIZE.
  pose proof (Qfloor_le (v / 1 + (1 # 2))) as Hlo.
  pose proof (Qlt_floor (v / 1 + (1 # 2))) as Hhi.
  rewrite inject_Z_plus in Hhi. change (inject_Z 1) with 1 in Hhi.
  assert (E : v / 1 == v) by field.
  set (f := inject_Z (Qfloor (v / 1 + (1 # 2)))) in *.
  apply Qabs_Qle_condition. split; lra.
Qed.

Lemma close_edge_near (v e : Q) :
  (Qabs (v - e) <? threshold) = true -> Qabs (e - v) <= 1 # 2.
Proof.
  intro H. apply Qltb_lt in H. rewrite Qabs_Qminus. unfold threshold in H.
  now apply Qlt_le_weak.
Qed.

Lemma edgeSnap_near (v snapped : Q) (edges : list Q) :
  Qabs (snapped - v) <= 1 # 2 -> Qabs (edgeSnap v snapped edges - v) <= 1 # 2.
Proof.
  unfold edgeSnap. revert snapped.
  induction edges as [|e edges IH]; intros snapped Hs; cbn [fold_left].
  - exact Hs.
  - apply IH. destruct (Qabs (v - e) <? threshold) eqn:E; [|exact Hs].
    now apply close_edge_near.
Qed.

(** X11: snapping never moves the cursor by more than half a foot on either
    axis, whatever the room and the library contain. *)
Theorem findSnapTarget_within_half_foot
    (activeRoom : option Room) (objectLibrary : list ObjectDefinition)
    (x y : Q) (objId : option string) :
  Qabs (p_x (findSnapTarget activeRoom objectLibrary x y objId) - x) <= 1 # 2
  /\ Qabs (p_y (findSnapTarget activeRoom objectLibrary x y objId) - y) <= 1 # 2.
Proof.
  unfold findSnapTarget. destruct activeRoom as [room|]; cbn [p_x p_y].
  - change (nearRaw x y
              (fold_left (objectSnapStep objectLibrary x y objId) (r_objects room)
                 (fold_left (wallSnapStep (r_points room) x y)
                    (seq 0 (List.length (r_points room)))
                    (snapToGrid x, snapToGrid y)))).
    apply (fold_left_invariant (nearRaw x y) (fun _ => True)).
    + intros st other [Hsx Hsy] _. unfold objectSnapStep.
      destruct (idIs (o_id other) objId); [now split|].
      destruct (findDef objectLibrary (o_definitionId other)); [|now split].
      split; cbn [fst snd]; now apply edgeSnap_near.
    + apply Forall_forall. trivial.
    + apply (fold_left_invariant (nearRaw x y) (fun _ => True)).
      * intros st i [Hsx Hsy] _. unfold wallSnapStep, nearRaw. cbn [fst snd].
        split.
        -- destruct (Qabs (p_x _ - p_x _) <? _); [|exact Hsx].
           destruct (Qabs (x - _) <? threshold) eqn:E; [|exact Hsx].
           now apply close_edge_near.
        -- destruct (Qabs (p_y _ - p_y _) <? _); [|exact Hsy].
           destruct (Qabs (y - _) <? threshold) eqn:E; [|exact Hsy].
           now apply close_edge_near.
      * apply Forall_forall. trivial.
      * split; cbn [fst snd]; apply snapToGrid_near.
  - split; apply snapToGrid_near.
Qed.

Lemma fold_left_filter {A B} (f : A -> B -> A) (keep : B -> bool) (l : list B) (a : A) :
  (forall a b, keep b = false -> f a b = a) ->
  fold_left f (filter keep l) a = fold_left f l a.
Proof.
  intro Hskip. revert a. induction l as [|b l IH]; intro a; cbn.
  - reflexivity.
  - destruct (keep b) eqn:E; cbn.
    + apply IH.
    + rewrite (Hskip a b E). apply IH.
Qed.

(** X12: the object that is being moved, and objects whose definition is
    missing, never attract the cursor: the snapped position is the one for
    the room without them. *)
Theorem findSnapTarget_ignores_moved_and_dangling
    (room : Room) (objectLibrary : list ObjectDefinition)
    (x y : Q) (objId : option string) :
  findSnapTarget (Some room) objectLibrary x y objId
  = findSnapTarget
      (Some (withObjects room (filter (attracts objectLibrary objId) (r_objects room))))
      objectLibrary x y objId.
Proof.
  unfold findSnapTarget, withObjects. cbn [r_points r_objects].
  rewrite fold_left_filter; [reflexivity|].
  intros st other Hskip. unfold attracts in Hskip. unfold objectSnapStep.
  destruct (idIs (o_id other) objId); [reflexivity|].
  destruct (findDef objectLibrary (o_definitionId other)); [discriminate | reflexivity].
Qed.

(** ** Placement: fewer obstacles never hurt *)

Lemma objectOverlapCheck_true_iff
    (objectLibrary : list ObjectDefinition) (obj : PlacedObject) (rect : Rect)
    (excludeId : option string) (others : list PlacedObject) :
  objectOverlapCheck objectLibrary obj rect excludeId others = true
  <-> forall other, In other others ->
        idIs (o_id other) excludeId || String.eqb (o_id other) (o_id obj) = true
        \/ match findDef objectLibrary (o_definitionId other) with
           | Some otherDef => checkRectOverlap rect (getObjectRect other otherDef) = false
           | None => True
           end.
Proof.
  induction others as [|o others IH]; cbn [objectOverlapCheck].
  - split; [intros _ other [] | reflexivity].
  - destruct (idIs (o_id o) excludeId || String.eqb (o_id o) (o_id obj)) eqn:Eskip.
    + rewrite IH. split.
      * intros H other [<- | Hin]; [now left | now apply H].
      * intros H other Hin. apply H. now right.
    + destruct (findDef objectLibrary (o_definitionId o)) as [def|] eqn:Edef.
      * destruct (checkRectOverlap rect (getObjectRect o def)) eqn:Eov.
        -- split; [discriminate|]. intro H.
           destruct (H o (or_introl eq_refl)) as [H1 | H1].
           ++ congruence.
           ++ rewrite Edef in H1. congruence.
        -- rewrite IH. split.
           ++ intros H other [<- | Hin]; [right; now rewrite Edef | now apply H].
           ++ intros H other Hin. apply H. now right.
      * rewrite IH. split.
        -- intros H other [<- | Hin]; [right; now rewrite Edef | now apply H].
        -- intros H other Hin. apply H. now right.
Qed.

Lemma tempWallCheck_true_iff (rect : Rect) (walls : list TempWall) :
  tempWallCheck rect walls = true
  <-> forall wall, In wall walls ->
        lineIntersectRect (w_start wall) (w_end wall) rect = false.
Proof.
  induction walls as [|w walls IH]; cbn [tempWallCheck].
  - split; [intros _ wall [] | reflexivity].
  - destruct (lineIntersectRect (w_start w) (w_end w) rect) eqn:E.
    + split; [discriminate|]. intro H. specialize (H w (or_introl eq_refl)). congruence.
    + rewrite IH. split.
      * intros H wall [<- | Hin]; [exact E | now apply H].
      * intros H wall Hin. apply H. now right.
Qed.

(** X13: a placement that is valid stays valid when objects or temporary
    walls are taken out of the room or put in another order; only what is
    in the room can invalidate it. *)
Theorem isValidPlacement_fewer_obstacles
    (objectLibrary : list ObjectDefinition) (obj : PlacedObject) (room : Room)
    (excludeId : option string) (objects : list PlacedObject) (walls : list TempWall) :
  incl objects (r_objects room) -> incl walls (r_tempWalls room) ->
  isValidPlacement objectLibrary obj room excludeId = true ->
  isValidPlacement objectLibrary obj (withContents room objects walls) excludeId = true.
Proof.
  intros Hobjects Hwalls. unfold isValidPlacement, withContents.
  cbn [r_objects r_tempWalls].
  destruct (findDef objectLibrary (o_definitionId obj)) as [def|]; [|discriminate].
  destruct (objectOverlapCheck _ _ _ _ (r_objects room)) eqn:E1; [|discriminate].
  intro E2.
  pose proof (proj1 (objectOverlapCheck_true_iff _ _ _ _ _) E1) as H1.
  pose proof (proj1 (tempWallCheck_true_iff _ _) E2) as H2.
  replace (objectOverlapCheck objectLibrary obj (getObjectRect obj def) excludeId objects)
    with true.
  - apply tempWallCheck_true_iff. intros wall Hin. apply H2. now apply Hwalls.
  - symmetry. apply objectOverlapCheck_true_iff. intros other Hin.
    apply H1. now apply Hobjects.
Qed.

Lemma isValidPlacement_fewer_obstacles_witness :
  isValidPlacement Sample.library Sample.sofa
    (withContents Sample.haunted [Sample.ghost] []) None = true.
Proof.
  apply (isValidPlacement_fewer_obstacles
           Sample.library Sample.sofa Sample.haunted None [Sample.ghost] []).
  - intros o [<- | []]. right. now left.
  - intros w [].
  - reflexivity.
Defined.

(** ** Solver: what the sign search returns *)

Lemma signLoop_spec (i : nat) (segs : list Segment) :
  forall (j : nat) (sum : Q) (dirs : list Q),
    fst (signLoop i segs j sum dirs) == sum + sumQ (signedFrom i segs j)
    /\ snd (signLoop i segs j sum dirs)
       = dirs ++ map (dirOf i) (seq j (List.length segs)).
Proof.
  induction segs as [|s rest IH]; intros j sum dirs; cbn [signLoop signedFrom].
  - cbn. split; [ring | now rewrite app_nil_r].
  - destruct (IH (S j) (sum + seg_length s * dirOf i j) (dirs ++ [dirOf i j]))
      as [Hsum Hdirs].
    fold (dirOf i j). split.
    + rewrite Hsum. unfold sumQ. cbn [fold_right]. ring.
    + rewrite Hdirs, <- app_assoc. reflexivity.
Qed.

Lemma applyDirs_signedFrom (i n : nat) (segs : list Segment) :
  forall idx, (idx + List.length segs <= n)%nat ->
    applyDirs segs (map (dirOf i) (seq 0 n)) idx = signedFrom i segs idx.
Proof.
  induction segs as [|s rest IH]; intros idx Hidx; cbn [applyDirs signedFrom].
  - reflexivity.
  - cbn [List.length] in Hidx. rewrite IH by lia. f_equal. f_equal.
    rewrite (nth_indep _ 0 (dirOf i 0%nat)) by (rewrite length_map, length_seq; lia).
    rewrite map_nth, seq_nth by lia. reflexivity.
Qed.

Lemma signedFrom_signs (i : nat) (segs : list Segment) :
  forall j,
    Forall2 (fun s q => q == seg_length s \/ q == - seg_length s)
            segs (signedFrom i segs j).
Proof.
  induction segs as [|s rest IH]; intro j; cbn [signedFrom]; constructor.
  - unfold dirOf. destruct (Nat.testbit i j); [left | right]; ring.
  - apply IH.
Qed.

(** X14: [solveDirections] gives every segment its own length back with a
    sign, in the same order; and, for lengths of at most 4096 ft, either the
    signed lengths add up to within 0.01 of zero (up to the rounding margin
    of the sums), or every length is returned unchanged. *)
Theorem solveDirections_signs (segs : list Segment) :
  ordinaryLengths segs ->
  Forall2 (fun s q => q == seg_length s \/ q == - seg_length s)
          segs (solveDirections segs)
  /\ (Qabs (sumQ (solveDirections segs)) < (1 # 100) + roundingMargin
      \/ solveDirections segs = map seg_length segs).
Proof.
  intros _.
  assert (Hplain : Forall2 (fun s q => q == seg_length s \/ q == - seg_length s)
                           segs (map seg_length segs)).
  { induction segs as [|s rest IH]; cbn; constructor; [left; reflexivity | exact IH]. }
  unfold solveDirections.
  destruct (12 <? List.length segs)%nat; [split; [exact Hplain | now right]|].
  destruct (find (closesAt segs) (seq 0 (2 ^ List.length segs))) as [i|] eqn:E;
    [|split; [exact Hplain | now right]].
  apply find_some in E. destruct E as [_ Hclose].
  unfold closesAt, signedSum in Hclose. apply Qltb_lt in Hclose.
  destruct (signLoop_spec i segs 0 0 []) as [Hsum Hdirs].
  unfold signDirs. rewrite Hdirs. cbn [app].
  rewrite applyDirs_signedFrom by (cbn; lia).
  split; [apply signedFrom_signs|].
  left. rewrite Hsum in Hclose.
  assert (E0 : 0 + sumQ (signedFrom i segs 0) == sumQ (signedFrom i segs 0)) by ring.
  rewrite E0 in Hclose. unfold roundingMargin. lra.
Qed.

Lemma solveDirections_signs_witness :
  Forall2 (fun s q => q == seg_length s \/ q == - seg_length s)
          (filter isH Sample.squareSegments)
          (solveDirections (filter isH Sample.squareSegments))
  /\ (Qabs (sumQ (solveDirections (filter isH Sample.squareSegments)))
      < (1 # 100) + roundingMargin
      \/ solveDirections (filter isH Sample.squareSegments)
         = map seg_length (filter isH Sample.squareSegments)).
Proof.
  apply (solveDirections_signs (filter isH Sample.squareSegments)).
  repeat constructor; vm_compute; discriminate.
Defined.

(** ** Solver: the shape of the normalized path *)


Lemma snapToGrid_onGrid_value (v : Q) : onGrid (snapToGrid v).
Proof.
  exists (Qfloor (v / GRID_SIZE + (1 # 2))). reflexivity.
Qed.



Lemma walk_rectilinear (segments : list Segment) (hLengths vLengths : list Q) :
  forall hIdx vIdx current,
    rectilinearPath (current :: walk segments hLengths vLengths hIdx vIdx current).
Proof.
  induction segments as [|seg rest IH]; intros hIdx vIdx current; cbn [walk].
  - exact I.
  - destruct (seg_orientation seg); cbn [rectilinearPath]; split;
      try apply IH; cbn [p_x p_y]; auto.
Qed.

Lemma map_rectilinear (f g : Q -> Q) (pts : list Point) :
  rectilinearPath pts ->
  rectilinearPath (map (fun p => mkPoint (f (p_x p)) (g (p_y p))) pts).
Proof.
  induction pts as [|a [|b rest] IH]; intro H; cbn [map rectilinearPath];
    try exact I.
  destruct H as [Hab Hrest]. split.
  - cbn [p_x p_y]. destruct Hab as [-> | ->]; auto.
  - apply IH. exact Hrest.
Qed.

Lemma normalizedPath_rectilinear (mousePos : Point) (segments : list Segment) :
  rectilinearPath (normalizedPath mousePos segments).
Proof.
  unfold normalizedPath, normalize.
  apply (map_rectilinear (fun x => snapToGrid (x + _)) (fun y => snapToGrid (y + _))).
  apply walk_rectilinear.
Qed.

(** Two grid values less than one grid unit apart are the same value. *)
Lemma snapToGrid_close_eq (u v u' v' : Q) :
  (snapToGrid u - snapToGrid v) * (snapToGrid u - snapToGrid v)
  + (snapToGrid u' - snapToGrid v') * (snapToGrid u' - snapToGrid v') < 1 ->
  snapToGrid u = snapToGrid v /\ snapToGrid u' = snapToGrid v'.
Proof.
  assert (Hint : forall a b c d : Z,
             (inject_Z a * 1 - inject_Z b * 1) * (inject_Z a * 1 - inject_Z b * 1)
             + (inject_Z c * 1 - inject_Z d * 1) * (inject_Z c * 1 - inject_Z d * 1) < 1 ->
             a = b).
  { intros a b c d H.
    destruct (Z.lt_trichotomy a b) as [Hlt | [Heq | Hgt]]; [| exact Heq |]; exfalso.
    - assert (Hstep : (a + 1 <= b)%Z) by lia.
      rewrite Zle_Qle, inject_Z_plus in Hstep. change (inject_Z 1) with 1 in Hstep.
      assert (H1 : 1 <= inject_Z b * 1 - inject_Z a * 1) by lra.
      pose proof (square_ge_1 (inject_Z b * 1 - inject_Z a * 1)
                    (inject_Z c * 1 - inject_Z d * 1) H1) as Hsq.
      assert (E : (inject_Z b * 1 - inject_Z a * 1) * (inject_Z b * 1 - inject_Z a * 1)
                  == (inject_Z a * 1 - inject_Z b * 1) * (inject_Z a * 1 - inject_Z b * 1))
        by ring.
      rewrite E in Hsq. lra.
    - assert (Hstep : (b + 1 <= a)%Z) by lia.
      rewrite Zle_Qle, inject_Z_plus in Hstep. change (inject_Z 1) with 1 in Hstep.
      assert (H1 : 1 <= inject_Z a * 1 - inject_Z b * 1) by lra.
      pose proof (square_ge_1 (inject_Z a * 1 - inject_Z b * 1)
                    (inject_Z c * 1 - inject_Z d * 1) H1) as Hsq.
      lra. }
  unfold snapToGrid, Math_round, GRID_SIZE. intro H. split.
  - f_equal. f_equal. exact (Hint _ _ _ _ H).
  - f_equal. f_equal. rewrite Qplus_comm in H. exact (Hint _ _ _ _ H).
Qed.

Lemma removelast_cons_nth0 {A} (a b : A) (l : list A) (d : A) :
  nth 0 (removelast (a :: b :: l)) d = a.
Proof. reflexivity. Qed.

(** X16: when the path closes, its last point is exactly its first one, so
    the room boundary is the whole path with nothing lost; the boundary has
    as many points as there were segments, and every edge of it, the closing
    edge included, is horizontal or vertical. *)
Theorem closed_path_room_shape
    (ids : nat -> string) (rooms : list Room) (activeRoomId : option string)
    (mousePos : Point) (segments : list Segment) :
  segments <> [] ->
  closes (normalizedPath mousePos segments) = true ->
  let path := normalizedPath mousePos segments in
  let boundary := removelast path in
  handleBulkWallInput ids rooms activeRoomId mousePos segments
  = SetRooms
      (rooms ++ [mkRoom (ids 0%nat)
                        (String.append "Bulk Room " (natToString (List.length rooms + 1)))
                        boundary [] [] None])
      (Some (ids 0%nat))
  /\ last path origin = nth 0 path origin
  /\ boundary ++ [nth 0 boundary origin] = path
  /\ rectilinearPath (boundary ++ [nth 0 boundary origin])
  /\ List.length boundary = List.length segments.
Proof.
  intros Hne Hclose. cbn zeta.
  pose proof (length_normalizedPath mousePos segments) as Hlen.
  pose proof (normalizedPath_rectilinear mousePos segments) as Hrect.
  assert (Hlast : last (normalizedPath mousePos segments) origin
                  = nth 0 (normalizedPath mousePos segments) origin).
  { unfold closes, distToStartSq in Hclose. apply Qltb_lt in Hclose.
    revert Hclose. unfold normalizedPath, pathPoints.
    set (current := mkPoint _ _). set (rest := walk _ _ _ _ _ _).
    destruct (normalize_ends current rest) as (Hfirst & Hend). cbn zeta in Hfirst, Hend.
    rewrite Hfirst, Hend. cbn [p_x p_y]. intro Hclose.
    destruct (snapToGrid_close_eq _ _ _ _ Hclose) as [-> ->]. reflexivity. }
  assert (Hsplit : removelast (normalizedPath mousePos segments)
                   ++ [nth 0 (removelast (normalizedPath mousePos segments)) origin]
                   = normalizedPath mousePos segments).
  { destruct (normalizedPath mousePos segments) as [|a [|b l]] eqn:Ep.
    - discriminate.
    - cbn in Hlen. destruct segments; [congruence | discriminate].
    - rewrite removelast_cons_nth0.
      rewrite (app_removelast_last origin (l := a :: b :: l)) at 2 by discriminate.
      now rewrite Hlast. }
  split; [| split; [| split; [| split]]].
  - unfold handleBulkWallInput. destruct segments; [congruence|]. now rewrite Hclose.
  - exact Hlast.
  - exact Hsplit.
  - now rewrite Hsplit.
  - pose proof (f_equal (@List.length Point) Hsplit) as Hl.
    rewrite length_app, Hlen in Hl. cbn [List.length] in Hl. lia.
Qed.

Lemma closed_path_room_shape_witness :
  let path := normalizedPath (mkPoint 3 4) Sample.squareSegments in
  let boundary := removelast path in
  handleBulkWallInput Sample.ids [] None (mkPoint 3 4) Sample.squareSegments
  = SetRooms
      ([] ++ [mkRoom (Sample.ids 0%nat)
                     (String.append "Bulk Room " (natToString (List.length (@nil Room) + 1)))
                     boundary [] [] None])
      (Some (Sample.ids 0%nat))
  /\ last path origin = nth 0 path origin
  /\ boundary ++ [nth 0 boundary origin] = path
  /\ rectilinearPath (boundary ++ [nth 0 boundary origin])
  /\ List.length boundary = List.length Sample.squareSegments.
Proof.
  apply (closed_path_room_shape Sample.ids [] None (mkPoint 3 4) Sample.squareSegments).
  - discriminate.
  - reflexivity.
Defined.

(** ** Solver: the walls of an open path *)

(** X17: the temporary walls built from the path are one per segment, each
    horizontal or vertical, each starting where the one before ends, and
    together they run through all the points of the path in order. *)
Theorem path_walls_shape
    (ids : nat -> string) (mousePos : Point) (segments : list Segment) :
  let path := normalizedPath mousePos segments in
  let walls := wallsOf ids 0 path in
  List.length walls = List.length segments
  /\ Forall axisAligned walls
  /\ chained walls
  /\ map w_start walls = removelast path
  /\ map w_end walls = tl path.
Proof.
  cbn zeta.
  destruct (wallsOf_spec ids (normalizedPath mousePos segments) 0)
    as (Hlen & Hstart & Hend & _ & Hchain & Hal).
  rewrite length_normalizedPath in Hlen.
  repeat split; try assumption.
  - rewrite Hlen. lia.
  - apply Hal. apply normalizedPath_rectilinear.
Qed.

(** X18: when the path stays open and the active room id is set but names
    no room of the list (as after an undo that took the active room away),
    the handler sets the rooms to what they were: the walls are lost. *)
Theorem stale_active_room_drops_walls
    (ids : nat -> string) (rooms : list Room) (activeRoomId : option string)
    (mousePos : Point) (segments : list Segment) :
  segments <> [] ->
  closes (normalizedPath mousePos segments) = false ->
  truthy activeRoomId = true ->
  Forall (fun r => idIs (r_id r) activeRoomId = false) rooms ->
  handleBulkWallInput ids rooms activeRoomId mousePos segments
  = SetRooms rooms activeRoomId.
Proof.
  intros Hne Hopen Hactive Hstale. unfold handleBulkWallInput.
  destruct segments as [|seg rest]; [congruence|].
  rewrite Hopen, Hactive. f_equal.
  induction Hstale as [|r rooms Hr Hstale IH]; cbn [map].
  - reflexivity.
  - now rewrite Hr, IH.
Qed.

Lemma stale_active_room_drops_walls_witness :
  handleBulkWallInput Sample.ids [Sample.roomA] (Some "gone"%string)
    (mkPoint 0 0) [mkSeg 5 H]
  = SetRooms [Sample.roomA] (Some "gone"%string).
Proof.
  apply (stale_active_room_drops_walls Sample.ids [Sample.roomA] (Some "gone"%string)
           (mkPoint 0 0) [mkSeg 5 H]).
  - discriminate.
  - reflexivity.
  - reflexivity.
  - repeat constructor.
Defined.

(** ** Printing a length and reading it back *)










(** X21: the inches are rounded without carrying into the feet: a length
    within half an inch below a whole number of feet is printed with twelve
    inches. *)
Theorem formatFeetInches_twelve_inches (d : Q) :
  23 # 24 <= d - inject_Z (Qfloor d) -> plainFeet d ->
  Format.formatFeetInches d
  = Format.intToString (Qfloor d) ++ units "'12" ++ [dquote].
Proof.
  intros Hfrac _. unfold Format.formatFeetInches.
  pose proof (Qlt_floor d) as Hhi.
  rewrite inject_Z_plus in Hhi. change (inject_Z 1) with 1 in Hhi.
  assert (E : Qfloor ((d - inject_Z (Qfloor d)) * 12 + (1 # 2)) = 12%Z).
  { set (f := inject_Z (Qfloor d)) in *. apply Qfloor_unique.
    - change (inject_Z 12) with 12. lra.
    - change (inject_Z (12 + 1)) with 13. lra. }
  rewrite E. reflexivity.
Qed.

Lemma formatFeetInches_twelve_inches_witness :
  23 # 24 <= (599 # 100) - inject_Z (Qfloor (599 # 100)) /\ plainFeet (599 # 100)
  /\ Format.formatFeetInches (599 # 100) = units "5'12" ++ [dquote].
Proof.
  split; [discriminate|]. split; [reflexivity|].
  apply (formatFeetInches_twelve_inches (599 # 100)); [discriminate | reflexivity].
Defined.

(** ** Deleting a room, merging a library *)

Lemma find_filter {A} (f g : A -> bool) (l : list A) (x : A) :
  find f l = Some x -> g x = true -> find f (filter g l) = Some x.
Proof.
  induction l as [|a l IH]; cbn [find filter]; [discriminate|].
  intros E Hg. destruct (f a) eqn:Ef.
  - injection E as ->. rewrite Hg. cbn [find]. now rewrite Ef.
  - destruct (g a); [cbn [find]; rewrite Ef|]; now apply IH.
Qed.

Lemma activeRoomOf_id (rooms : list Room) (activeRoomId : option string) (r : Room) :
  Rooms.activeRoomOf rooms activeRoomId = Some r ->
  In r rooms /\ activeRoomId = Some (r_id r).
Proof.
  intro E. apply find_some in E. destruct E as [Hin Hid].
  split; [exact Hin|]. destruct activeRoomId as [s|]; [|discriminate].
  cbn in Hid. apply String.eqb_eq in Hid. now subst.
Qed.

(** X22: after [handleDeleteRoom] no room of the list has the deleted id
    and the active room id is never the deleted one; when the active room
    was the deleted one the first remaining room becomes active (none when
    the list is empty), and an active room other than the deleted one
    stays active. *)
Theorem handleDeleteRoom_active
    (rooms : list Room) (activeRoomId : option string) (id : string) :
  let result := Rooms.handleDeleteRoom rooms activeRoomId id in
  ~ In id (map r_id (fst result))
  /\ snd result <> Some id
  /\ (activeRoomId = Some id ->
      Rooms.activeRoomOf (fst result) (snd result) = hd_error (fst result))
  /\ (forall r, Rooms.activeRoomOf rooms activeRoomId = Some r -> r_id r <> id ->
      Rooms.activeRoomOf (fst result) (snd result) = Some r).
Proof.
  cbv zeta. unfold Rooms.handleDeleteRoom. cbn [fst snd].
  set (newRooms := filter (fun r => negb (r_id r =? id)%string) rooms).
  assert (Hgone : forall r, In r newRooms -> r_id r <> id).
  { intros r Hr. apply filter_In in Hr. destruct Hr as [_ Hr].
    apply negb_true_iff in Hr. now apply String.eqb_neq in Hr. }
  split; [|split; [|split]].
  - intro Hin. apply in_map_iff in Hin. destruct Hin as (r & Hid & Hr).
    exact (Hgone r Hr Hid).
  - destruct (idIs id activeRoomId) eqn:Eid.
    + destruct newRooms as [|r rest]; [discriminate|].
      intro E. injection E as E. exact (Hgone r (or_introl eq_refl) E).
    + intros ->. cbn in Eid. now rewrite String.eqb_refl in Eid.
  - intros ->. cbn [idIs]. rewrite String.eqb_refl.
    destruct newRooms as [|r rest]; [reflexivity|].
    unfold Rooms.activeRoomOf. cbn [find idIs hd_error].
    now rewrite String.eqb_refl.
  - intros r Hact Hne. destruct (activeRoomOf_id _ _ _ Hact) as [_ ->].
    cbn [idIs]. destruct (String.eqb_spec id (r_id r)) as [E|_]; [congruence|].
    unfold Rooms.activeRoomOf. apply find_filter; [exact Hact|].
    apply negb_true_iff. now apply String.eqb_neq.
Qed.

Lemma findDef_app (l1 l2 : list ObjectDefinition) (id : string) :
  findDef (l1 ++ l2) id
  = match findDef l1 id with
    | Some d => Some d
    | None => findDef l2 id
    end.
Proof.
  unfold findDef. induction l1 as [|a l1 IH]; cbn [app find]; [reflexivity|].
  now destruct (d_id a =? id)%string.
Qed.

Lemma findDef_None_existsb (l : list ObjectDefinition) (id : string) :
  findDef l id = None <-> existsb (fun d => (d_id d =? id)%string) l = false.
Proof.
  unfold findDef. induction l as [|a l IH]; cbn [find existsb]; [tauto|].
  destruct (d_id a =? id)%string; cbn [orb]; [split; discriminate | exact IH].
Qed.

(** X23: in the library merged by an import, an id that the library had
    keeps its definition, whatever the file says; an id that is new gets
    the first definition that the file gives for it.  The library the user
    had is a prefix of the merged one. *)
Theorem mergeLibrary_lookup (prev imported : list ObjectDefinition) (id : string) :
  findDef (Rooms.mergeLibrary prev imported) id
  = match findDef prev id with
    | Some d => Some d
    | None => findDef imported id
    end
  /\ exists added, Rooms.mergeLibrary prev imported = prev ++ added.
Proof.
  unfold Rooms.mergeLibrary. revert prev.
  induction imported as [|x imported IH]; intro prev; cbn [fold_left].
  - split; [now destruct (findDef prev id) | exists []; now rewrite app_nil_r].
  - destruct (existsb (fun d => (d_id d =? d_id x)%string) prev) eqn:Ex.
    + destruct (IH prev) as [-> Hpre]. split; [|exact Hpre].
      destruct (findDef prev id) eqn:Ep; [reflexivity|].
      unfold findDef at 2. cbn [find].
      destruct (String.eqb_spec (d_id x) id) as [E|_]; [|reflexivity].
      apply findDef_None_existsb in Ep. rewrite E in Ex. congruence.
    + destruct (IH (prev ++ [x])) as [-> (added & ->)]. split.
      * rewrite findDef_app. destruct (findDef prev id); [reflexivity|].
        unfold findDef. cbn [find]. now destruct (d_id x =? id)%string.
      * exists (x :: added). now rewrite <- app_assoc.
Qed.

(** ** Turning and dragging objects and walls *)

Lemma activeRoomOf_updateActive
    (rooms : list Room) (activeRoomId : option string) (f : Room -> Room)
    (room : Room) :
  (forall r, r_id (f r) = r_id r) ->
  Rooms.activeRoomOf rooms activeRoomId = Some room ->
  Rooms.activeRoomOf (Rooms.updateActive activeRoomId f rooms) activeRoomId
  = Some (f room).
Proof.
  intros Hid. unfold Rooms.activeRoomOf, Rooms.updateActive.
  induction rooms as [|r rooms IH]; cbn [map find]; [discriminate|].
  destruct (idIs (r_id r) activeRoomId) eqn:E.
  - intro Er. injection Er as ->. now rewrite Hid, E.
  - rewrite E. exact IH.
Qed.

Lemma overlap_after_replace
    (objectLibrary : list ObjectDefinition) (obj : PlacedObject) (rect : Rect)
    (id : string) (objects : list PlacedObject) :
  o_id obj = id ->
  objectOverlapCheck objectLibrary obj rect None
    (map (fun o => if (o_id o =? id)%string then obj else o) objects)
  = objectOverlapCheck objectLibrary obj rect (Some id) objects.
Proof.
  intro Hid. induction objects as [|o objects IH]; cbn [map objectOverlapCheck];
    [reflexivity|].
  destruct (o_id o =? id)%string eqn:E.
  - cbn [idIs]. rewrite E, String.eqb_refl. cbn [orb]. exact IH.
  - cbn [idIs]. rewrite Hid, E. cbn [orb]. rewrite IH. reflexivity.
Qed.

(** X24: a rotation that [handleRotate] commits leaves the turned object
    free of overlaps in the room as it is afterwards: it is a valid
    placement there, with no object left out of the test.  The room keeps
    its boundary and its walls, and only the objects of that id change. *)
Theorem handleRotate_commits_valid
    (objectLibrary : list ObjectDefinition) (rooms : list Room)
    (activeRoomId : option string) (id : string) (rooms' : list Room) :
  Objects.handleRotate objectLibrary rooms activeRoomId id = Some rooms' ->
  exists room obj room',
    Rooms.activeRoomOf rooms activeRoomId = Some room
    /\ find (fun o => (o_id o =? id)%string) (r_objects room) = Some obj
    /\ Rooms.activeRoomOf rooms' activeRoomId = Some room'
    /\ r_objects room'
       = map (fun o => if (o_id o =? id)%string then turned obj else o) (r_objects room)
    /\ r_points room' = r_points room
    /\ r_tempWalls room' = r_tempWalls room
    /\ isValidPlacement objectLibrary (turned obj) room' None = true.
Proof.
  unfold Objects.handleRotate. intro E.
  destruct (Rooms.activeRoomOf rooms activeRoomId) as [room|] eqn:Eroom;
    [|discriminate].
  destruct (find (fun o => (o_id o =? id)%string) (r_objects room)) as [obj|] eqn:Eobj;
    [|discriminate].
  fold (turned obj) in E.
  destruct (isValidPlacement objectLibrary (turned obj) room (Some id)) eqn:Evalid;
    [|discriminate].
  injection E as <-.
  exists room, obj. eexists. split; [reflexivity|]. split; [exact Eobj|].
  split; [apply activeRoomOf_updateActive; [reflexivity | exact Eroom]|].
  cbn [Objects.setObjects r_objects r_points r_tempWalls].
  repeat (split; [reflexivity|]).
  unfold isValidPlacement, Objects.setObjects in *. cbn [r_objects r_tempWalls].
  destruct (findDef objectLibrary (o_definitionId (turned obj))) as [def|];
    [|discriminate].
  rewrite overlap_after_replace; [exact Evalid|].
  apply find_some in Eobj. destruct Eobj as [_ Eid].
  apply String.eqb_eq in Eid. exact Eid.
Qed.

Lemma handleRotate_commits_valid_witness :
  exists room obj room',
    Rooms.activeRoomOf [Sample.roomA] (Some (r_id Sample.roomA)) = Some room
    /\ find (fun o => (o_id o =? o_id Sample.chair)%string) (r_objects room) = Some obj
    /\ Rooms.activeRoomOf
         (Rooms.updateActive (Some (r_id Sample.roomA))
            (fun r => Objects.setObjects r
               (map (fun o => if (o_id o =? o_id Sample.chair)%string
                              then turned Sample.chair else o) (r_objects r)))
            [Sample.roomA])
         (Some (r_id Sample.roomA)) = Some room'
    /\ r_objects room'
       = map (fun o => if (o_id o =? o_id Sample.chair)%string then turned obj else o)
             (r_objects room)
    /\ r_points room' = r_points room
    /\ r_tempWalls room' = r_tempWalls room
    /\ isValidPlacement Sample.library (turned obj) room' None = true.
Proof.
  apply (handleRotate_commits_valid Sample.library [Sample.roomA]
           (Some (r_id Sample.roomA)) (o_id Sample.chair)).
  reflexivity.
Defined.

Lemma jsRem_comp (a a' b : Q) : a == a' -> Objects.jsRem a b == Objects.jsRem a' b.
Proof.
  intro E. unfold Objects.jsRem.
  assert (Eq : a / b == a' / b) by now rewrite E.
  assert (E1 : (0 <=? a / b) = (0 <=? a' / b)) by now rewrite Eq.
  assert (E2 : Qfloor (a / b) = Qfloor (a' / b)) by now rewrite Eq.
  assert (E3 : Qceiling (a / b) = Qceiling (a' / b)) by now rewrite Eq.
  rewrite E1, E2, E3, E. reflexivity.
Qed.

Lemma turned_rotation (obj : PlacedObject) (r : Q) :
  o_rotation obj == r ->
  o_rotation (turned obj) == Objects.jsRem (r + 90) 360.
Proof.
  intro E. unfold turned, Objects.setRotation. cbn [o_rotation].
  apply jsRem_comp. now rewrite E.
Qed.

Ltac decide_rotations :=
  repeat match goal with
         | |- context [Qeq_bool ?a ?b] =>
             let E := fresh "E" in
             destruct (Qeq_bool a b) eqn:E;
             [apply Qeq_bool_iff in E | apply Qeq_bool_neq in E];
             try (exfalso; lra)
         end.

(** X25: for an object at a whole number of quarter turns, the turn of
    [handleRotate] gives the next quarter turn, keeps the centre and swaps
    the width and the height of the footprint; four turns give the first
    rotation back. *)
Theorem quarter_turn_swaps_footprint (obj : PlacedObject) (def : ObjectDefinition) :
  quarterTurn (o_rotation obj) ->
  quarterTurn (o_rotation (turned obj))
  /\ rect_width (getObjectRect (turned obj) def) = rect_height (getObjectRect obj def)
  /\ rect_height (getObjectRect (turned obj) def) = rect_width (getObjectRect obj def)
  /\ o_x (turned obj) = o_x obj /\ o_y (turned obj) = o_y obj
  /\ o_rotation (turned (turned (turned (turned obj)))) == o_rotation obj.
Proof.
  intro Hq.
  assert (Hnext : forall o r, o_rotation o == r ->
                  o_rotation (turned o) == Objects.jsRem (r + 90) 360)
    by exact turned_rotation.
  assert (E0 : Objects.jsRem (0 + 90) 360 == 90) by reflexivity.
  assert (E1 : Objects.jsRem (90 + 90) 360 == 180) by reflexivity.
  assert (E2 : Objects.jsRem (180 + 90) 360 == 270) by reflexivity.
  assert (E3 : Objects.jsRem (270 + 90) 360 == 0) by reflexivity.
  assert (Hstep : forall o,
            (o_rotation o == 0 -> o_rotation (turned o) == 90)
            /\ (o_rotation o == 90 -> o_rotation (turned o) == 180)
            /\ (o_rotation o == 180 -> o_rotation (turned o) == 270)
            /\ (o_rotation o == 270 -> o_rotation (turned o) == 0)).
  { intro o. repeat split; intro E; rewrite (Hnext o _ E); assumption. }
  assert (Hfour : o_rotation (turned (turned (turned (turned obj)))) == o_rotation obj).
  { destruct Hq as [E|[E|[E|E]]]; rewrite E.
    - apply Hstep. apply Hstep. apply Hstep. now apply Hstep.
    - apply Hstep. apply Hstep. apply Hstep. now apply Hstep.
    - apply Hstep. apply Hstep. apply Hstep. now apply Hstep.
    - apply Hstep. apply Hstep. apply Hstep. now apply Hstep. }
  assert (Hq' : quarterTurn (o_rotation (turned obj))).
  { unfold quarterTurn.
    destruct Hq as [E|[E|[E|E]]]; apply Hstep in E; tauto. }
  split; [exact Hq'|].
  assert (Hrect :
    rect_width (getObjectRect (turned obj) def) = rect_height (getObjectRect obj def)
    /\ rect_height (getObjectRect (turned obj) def) = rect_width (getObjectRect obj def)).
  { unfold getObjectRect. cbn [rect_width rect_height].
    destruct Hq as [E|[E|[E|E]]]; pose proof E as E'; apply Hstep in E';
      decide_rotations; cbn [orb]; split; reflexivity. }
  destruct Hrect as [Hw Hh].
  repeat split; try assumption; reflexivity.
Qed.

Lemma quarter_turn_swaps_footprint_witness :
  quarterTurn (o_rotation Sample.chair)
  /\ quarterTurn (o_rotation (turned Sample.chair))
  /\ rect_width (getObjectRect (turned Sample.chair) (mkDef "sofa" "Sofa" 3 6 None))
     = rect_height (getObjectRect Sample.chair (mkDef "sofa" "Sofa" 3 6 None)).
Proof.
  assert (Hq : quarterTurn (o_rotation Sample.chair)) by (right; left; reflexivity).
  split; [exact Hq|].
  destruct (quarter_turn_swaps_footprint Sample.chair (mkDef "sofa" "Sofa" 3 6 None) Hq)
    as (H1 & H2 & _).
  split; [exact H1 | exact H2].
Defined.

Lemma NoDup_map_same {A B} (f : A -> B) (l : list A) (x y : A) :
  NoDup (map f l) -> In x l -> In y l -> f x = f y -> x = y.
Proof.
  induction l as [|a l IH]; cbn [map In]; [tauto|].
  intros Hnd Hx Hy E. inversion Hnd as [|? ? Hnotin Hnd']; subst.
  destruct Hx as [<- | Hx], Hy as [<- | Hy].
  - reflexivity.
  - exfalso. apply Hnotin. rewrite E. now apply in_map.
  - exfalso. apply Hnotin. rewrite <- E. now apply in_map.
  - now apply IH.
Qed.

Lemma Forall2_map_right {A B} (P : A -> B -> Prop) (f : A -> B) (l : list A) :
  (forall x, In x l -> P x (f x)) -> Forall2 P l (map f l).
Proof.
  induction l as [|a l IH]; intro Hall; cbn [map]; constructor.
  - apply Hall. now left.
  - apply IH. intros x Hx. apply Hall. now right.
Qed.

Lemma Qabs_zero_le (v m : Q) : v == 0 -> 0 <= m -> Qabs v <= m.
Proof. intros E Hm. rewrite E. exact Hm. Qed.

(** X26: when the dragged object belongs to the multi-selection (and the
    ids of the room's objects are distinct, and the positions are of
    ordinary size), [handleObjectDragEnd] moves every selected object by
    the same offset, the one that takes the dragged object to the drop
    position, up to the rounding of the sums, keeping what it is and how it
    is turned, and leaves the other objects as they are.  The drop is
    committed without any test of the placement. *)
Theorem group_drag_is_translation
    (rooms : list Room) (activeRoomId : option string)
    (selectedObjectIds : list string) (id : string) (targetX targetY : Q)
    (room : Room) (obj : PlacedObject) :
  Rooms.activeRoomOf rooms activeRoomId = Some room ->
  find (fun o => (o_id o =? id)%string) (r_objects room) = Some obj ->
  NoDup (map o_id (r_objects room)) ->
  Objects.includes selectedObjectIds id = true ->
  ordinaryCoordinate targetX -> ordinaryCoordinate targetY ->
  Forall (fun o => ordinaryCoordinate (o_x o) /\ ordinaryCoordinate (o_y o))
         (r_objects room) ->
  let dx := targetX / PIXELS_PER_FOOT - o_x obj in
  let dy := targetY / PIXELS_PER_FOOT - o_y obj in
  exists rooms' room',
    Objects.handleObjectDragEnd rooms activeRoomId selectedObjectIds id targetX targetY
    = Some rooms'
    /\ Rooms.activeRoomOf rooms' activeRoomId = Some room'
    /\ Forall2 (fun o o' =>
                  if Objects.includes selectedObjectIds (o_id o)
                  then offsetBy dx dy o o'
                  else o' = o)
               (r_objects room) (r_objects room').
Proof.
  intros Hroom Hobj Hnd Hsel _ _ _ dx dy.
  assert (Hm : 0 <= roundingMargin) by discriminate.
  unfold Objects.handleObjectDragEnd. rewrite Hroom, Hobj, Hsel.
  eexists. eexists. split; [reflexivity|].
  split; [apply activeRoomOf_updateActive; [reflexivity | exact Hroom]|].
  unfold Objects.setObjects. cbn [r_objects].
  apply Forall2_map_right. intros o Ho. unfold Objects.dragGroupStep.
  apply find_some in Hobj. destruct Hobj as [Hin Hid].
  apply String.eqb_eq in Hid.
  destruct (String.eqb_spec (o_id o) id) as [E|E].
  - assert (o = obj) as -> by (apply (NoDup_map_same o_id (r_objects room)); congruence).
    rewrite Hid, Hsel. cbn [negb andb].
    unfold offsetBy, Objects.setPosition. cbn [o_id o_definitionId o_rotation o_x o_y].
    repeat split; try reflexivity; apply Qabs_zero_le; try exact Hm;
      unfold dx, dy; ring.
  - cbn [negb]. rewrite andb_true_r.
    destruct (Objects.includes selectedObjectIds (o_id o)); [|reflexivity].
    unfold offsetBy, Objects.setPosition. cbn [o_id o_definitionId o_rotation o_x o_y].
    repeat split; try reflexivity; apply Qabs_zero_le; try exact Hm;
      unfold dx, dy; ring.
Qed.

Lemma group_drag_is_translation_witness :
  exists rooms' room',
    Objects.handleObjectDragEnd [Sample.haunted] (Some "r3"%string)
      ["o3"%string; "o4"%string] "o4"%string 660 630
    = Some rooms'
    /\ Rooms.activeRoomOf rooms' (Some "r3"%string) = Some room'
    /\ Forall2 (fun o o' =>
                  if Objects.includes ["o3"%string; "o4"%string] (o_id o)
                  then offsetBy (660 / PIXELS_PER_FOOT - 20) (630 / PIXELS_PER_FOOT - 20) o o'
                  else o' = o)
               (r_objects Sample.haunted) (r_objects room').
Proof.
  apply (group_drag_is_translation [Sample.haunted] (Some "r3"%string)
           ["o3"%string; "o4"%string] "o4"%string 660 630
           Sample.haunted Sample.chair).
  - reflexivity.
  - reflexivity.
  - repeat constructor; cbn; intuition discriminate.
  - reflexivity.
  - vm_compute. discriminate.
  - vm_compute. discriminate.
  - repeat constructor; vm_compute; discriminate.
Defined.

(** X27: [handleWallDragEnd] moves the dragged wall as it is (positions of
    ordinary size): the new start is the grid point nearest to the drop
    position (within half a foot of it on each axis, up to the rounding of
    the division) and the end follows by the same offset, up to the
    rounding of the sums, so the wall keeps its direction and its length
    that closely; colour and style stay.  The other walls, the objects and
    the boundary are not touched, and the move is committed without any
    test against the objects of the room. *)
Theorem handleWallDragEnd_translates
    (rooms : list Room) (activeRoomId : option string) (id : string)
    (targetX targetY : Q) (room : Room) (wall : TempWall) :
  Rooms.activeRoomOf rooms activeRoomId = Some room ->
  find (fun w => (w_id w =? id)%string) (r_tempWalls room) = Some wall ->
  ordinaryCoordinate targetX -> ordinaryCoordinate targetY ->
  ordinaryCoordinate (p_x (w_start wall)) -> ordinaryCoordinate (p_y (w_start wall)) ->
  ordinaryCoordinate (p_x (w_end wall)) -> ordinaryCoordinate (p_y (w_end wall)) ->
  exists rooms' room' wall',
    Objects.handleWallDragEnd rooms activeRoomId id targetX targetY = Some rooms'
    /\ Rooms.activeRoomOf rooms' activeRoomId = Some room'
    /\ find (fun w => (w_id w =? id)%string) (r_tempWalls room') = Some wall'
    /\ onGrid (p_x (w_start wall')) /\ onGrid (p_y (w_start wall'))
    /\ Qabs (p_x (w_start wall') - targetX / PIXELS_PER_FOOT) <= (1 # 2) + roundingMargin
    /\ Qabs (p_y (w_start wall') - targetY / PIXELS_PER_FOOT) <= (1 # 2) + roundingMargin
    /\ Qabs (p_x (w_end wall') - p_x (w_start wall')
             - (p_x (w_end wall) - p_x (w_start wall))) <= roundingMargin
    /\ Qabs (p_y (w_end wall') - p_y (w_start wall')
             - (p_y (w_end wall) - p_y (w_start wall))) <= roundingMargin
    /\ w_color wall' = w_color wall /\ w_isDashed wall' = w_isDashed wall
    /\ filter (fun w => negb (w_id w =? id)%string) (r_tempWalls room')
       = filter (fun w => negb (w_id w =? id)%string) (r_tempWalls room)
    /\ r_objects room' = r_objects room /\ r_points room' = r_points room.
Proof.
  intros Hroom Hwall _ _ _ _ _ _.
  assert (Hm : 0 <= roundingMargin) by discriminate.
  unfold Objects.handleWallDragEnd. rewrite Hroom, Hwall.
  set (moved := mkWall _ _ _ _ _).
  eexists. eexists. exists moved. split; [reflexivity|].
  split; [apply activeRoomOf_updateActive; [reflexivity | exact Hroom]|].
  unfold Objects.setTempWalls. cbn [r_tempWalls r_objects r_points].
  assert (Hid : w_id moved = id).
  { apply find_some in Hwall. destruct Hwall as [_ E]. now apply String.eqb_eq in E. }
  split.
  { clear - Hwall Hid. induction (r_tempWalls room) as [|w walls IH];
      cbn [map find] in *; [discriminate|].
    destruct (w_id w =? id)%string eqn:E.
    - now rewrite Hid, String.eqb_refl.
    - rewrite E. now apply IH. }
  assert (Hrest :
    filter (fun w => negb (w_id w =? id)%string)
           (map (fun w => if (w_id w =? id)%string then moved else w) (r_tempWalls room))
    = filter (fun w => negb (w_id w =? id)%string) (r_tempWalls room)).
  { clear - Hid. induction (r_tempWalls room) as [|w walls IH]; cbn [map filter];
      [reflexivity|].
    destruct (w_id w =? id)%string eqn:E.
    - rewrite Hid, String.eqb_refl. cbn [negb]. exact IH.
    - rewrite E. cbn [negb]. now rewrite IH. }
  rewrite Hrest. clear Hrest Hid.
  unfold moved. cbn [w_start w_end w_color w_isDashed p_x p_y].
  split; [apply snapToGrid_onGrid_value|].
  split; [apply snapToGrid_onGrid_value|].
  split.
  { pose proof (snapToGrid_near (targetX / PIXELS_PER_FOOT)). unfold roundingMargin. lra. }
  split.
  { pose proof (snapToGrid_near (targetY / PIXELS_PER_FOOT)). unfold roundingMargin. lra. }
  split; [apply Qabs_zero_le; [ring | exact Hm]|].
  split; [apply Qabs_zero_le; [ring | exact Hm]|].
  repeat split; reflexivity.
Qed.

Lemma handleWallDragEnd_translates_witness :
  exists rooms' room' wall',
    Objects.handleWallDragEnd [Sample.roomA] (Some "r1"%string) "w1"%string 100 200
    = Some rooms'
    /\ Rooms.activeRoomOf rooms' (Some "r1"%string) = Some room'
    /\ find (fun w => (w_id w =? "w1")%string) (r_tempWalls room') = Some wall'
    /\ onGrid (p_x (w_start wall')) /\ onGrid (p_y (w_start wall'))
    /\ Qabs (p_x (w_start wall') - 100 / PIXELS_PER_FOOT) <= (1 # 2) + roundingMargin
    /\ Qabs (p_y (w_start wall') - 200 / PIXELS_PER_FOOT) <= (1 # 2) + roundingMargin
    /\ Qabs (p_x (w_end wall') - p_x (w_start wall')
             - (p_x (w_end Sample.wall) - p_x (w_start Sample.wall))) <= roundingMargin
    /\ Qabs (p_y (w_end wall') - p_y (w_start wall')
             - (p_y (w_end Sample.wall) - p_y (w_start Sample.wall))) <= roundingMargin
    /\ w_color wall' = w_color Sample.wall /\ w_isDashed wall' = w_isDashed Sample.wall
    /\ filter (fun w => negb (w_id w =? "w1")%string) (r_tempWalls room')
       = filter (fun w => negb (w_id w =? "w1")%string) (r_tempWalls Sample.roomA)
    /\ r_objects room' = r_objects Sample.roomA
    /\ r_points room' = r_points Sample.roomA.
Proof.
  apply (handleWallDragEnd_translates [Sample.roomA] (Some "r1"%string) "w1"%string
           100 200 Sample.roomA Sample.wall);
    try reflexivity; vm_compute; discriminate.
Defined.

(** ** Clicks on the canvas *)

Lemma rectilinearPath_snoc (pts : list Point) (p : Point) :
  rectilinearPath pts ->
  (pts <> [] -> p_x (last pts origin) = p_x p \/ p_y (last pts origin) = p_y p) ->
  rectilinearPath (pts ++ [p]).
Proof.
  induction pts as [|a [|b rest] IH]; intros Hpath Hlast.
  - exact I.
  - cbn [app rectilinearPath last] in *. split; [|exact I].
    apply Hlast. discriminate.
  - destruct Hpath as [Hab Hrest]. change ((a :: b :: rest) ++ [p])
      with (a :: (b :: rest) ++ [p]).
    cbn [app rectilinearPath]. split; [exact Hab|].
    apply IH; [exact Hrest|]. intros _. rewrite last_cons_cons in Hlast.
    apply Hlast. discriminate.
Qed.

Lemma alignTo_aligned (anchor : Point) (gridX gridY : Q) :
  p_x anchor = fst (Canvas.alignTo anchor gridX gridY)
  \/ p_y anchor = snd (Canvas.alignTo anchor gridX gridY).
Proof.
  unfold Canvas.alignTo.
  destruct (Qabs (gridY - p_y anchor) <? Qabs (gridX - p_x anchor));
    cbn [fst snd]; auto.
Qed.

Lemma Forall_updateActive (P : Room -> Prop) (activeRoomId : option string)
    (f : Room -> Room) (rooms : list Room) :
  (forall r, P r -> P (f r)) ->
  Forall P rooms -> Forall P (Rooms.updateActive activeRoomId f rooms).
Proof.
  intros Hf Hall. unfold Rooms.updateActive.
  induction Hall as [|r rooms Hr Hall IH]; cbn [map]; constructor; [|exact IH].
  destruct (idIs (r_id r) activeRoomId); auto.
Qed.

Lemma last_snoc {A} (l : list A) (x d : A) : last (l ++ [x]) d = x.
Proof. apply last_last. Qed.

Lemma closing_points_loop (drawingPoints : list Point) :
  (2 <? List.length drawingPoints)%nat = true ->
  rectilinearPath drawingPoints ->
  let first := nth 0 drawingPoints origin in
  let lastP := last drawingPoints origin in
  rectilinearLoop
    (if negb (p_x lastP =? p_x first) && negb (p_y lastP =? p_y first)
     then drawingPoints ++ [mkPoint (p_x lastP) (p_y first)]
     else drawingPoints).
Proof.
  intros Hlen Hpath first lastP.
  destruct drawingPoints as [|p0 rest]; [discriminate|].
  cbn [nth] in first.
  destruct (negb (p_x lastP =? p_x first) && negb (p_y lastP =? p_y first)) eqn:E.
  - split.
    + apply rectilinearPath_snoc; [exact Hpath|]. intros _. left. reflexivity.
    + unfold closingEdgeAligned. cbn [app]. right.
      change (p0 :: rest ++ [mkPoint (p_x lastP) (p_y first)])
        with ((p0 :: rest) ++ [mkPoint (p_x lastP) (p_y first)]).
      rewrite last_snoc. reflexivity.
  - split; [exact Hpath|]. unfold closingEdgeAligned. fold lastP.
    apply andb_false_iff in E. destruct E as [E|E]; apply negb_false_iff in E;
      apply Qeq_bool_iff in E; [left | right]; exact E.
Qed.

(** X28: a click on the canvas, wherever and in whatever mode, keeps a
    rectilinear plan rectilinear: the points clicked so far still make a
    path of horizontal and vertical steps, every room boundary is still a
    loop of horizontal and vertical edges (the closing edge included: the
    handler adds a corner when the last point is not in line with the
    first), and every temporary wall is still horizontal or vertical. *)
Theorem handleCanvasClick_keeps_rectilinear
    (objectLibrary : list ObjectDefinition) (ids : nat -> string)
    (s : Canvas.State) (pointerX pointerY : Q) (onStage : bool) :
  canvasWellFormed s ->
  canvasWellFormed
    (Canvas.handleCanvasClick objectLibrary ids s pointerX pointerY onStage).
Proof.
  intros (Hpath & Hrooms & Hwalls). unfold Canvas.handleCanvasClick.
  set (target := findSnapTarget _ _ _ _ _).
  assert (Hsame : forall s', Canvas.drawingPoints s' = Canvas.drawingPoints s ->
                             Canvas.rooms s' = Canvas.rooms s -> canvasWellFormed s').
  { intros s' E1 E2. unfold canvasWellFormed. rewrite E1, E2. auto. }
  destruct (Canvas.mode s) eqn:Emode;
    try (destruct (negb onStage); [now apply Hsame | now apply Hsame]).
  - (* draw_room *)
    destruct (negb onStage); [now apply Hsame|].
    destruct (Canvas.drawingPoints s) as [|p0 rest] eqn:Epts.
    + cbn [List.length Nat.ltb Nat.leb andb app].
      unfold canvasWellFormed. cbn [Canvas.drawingPoints Canvas.rooms].
      repeat split; assumption.
    + rewrite <- Epts in *.
      pose proof (alignTo_aligned (last (Canvas.drawingPoints s) origin)
                    (p_x target) (p_y target)) as Halign.
      destruct (Canvas.alignTo (last (Canvas.drawingPoints s) origin)
                  (p_x target) (p_y target)) as [gridX gridY].
      cbn [fst snd] in Halign.
      destruct ((2 <? List.length (Canvas.drawingPoints s))%nat) eqn:Elen;
        cbn [andb].
      * destruct ((Qabs (p_x (nth 0 (Canvas.drawingPoints s) origin) - gridX) <? 1 # 2)
                  && (Qabs (p_y (nth 0 (Canvas.drawingPoints s) origin) - gridY) <? 1 # 2)).
        -- destruct (truthy (Canvas.activeRoomId s)); [|now apply Hsame].
           unfold canvasWellFormed. cbn [Canvas.drawingPoints Canvas.rooms].
           split; [exact I|]. split.
           ++ apply Forall_updateActive; [|exact Hrooms]. intros r _.
              unfold Objects.setPoints. cbn [r_points].
              now apply closing_points_loop.
           ++ apply Forall_updateActive; [|exact Hwalls]. intros r Hr. exact Hr.
        -- unfold canvasWellFormed. cbn [Canvas.drawingPoints Canvas.rooms].
           split; [|split; assumption].
           apply rectilinearPath_snoc; [exact Hpath|].
           intros _. cbn [p_x p_y]. exact Halign.
      * unfold canvasWellFormed. cbn [Canvas.drawingPoints Canvas.rooms].
        split; [|split; assumption].
        apply rectilinearPath_snoc; [exact Hpath|].
        intros _. cbn [p_x p_y]. exact Halign.
  - (* draw_wall *)
    destruct (negb onStage); [now apply Hsame|].
    destruct (Canvas.tempWallStart s) as [start|]; [|now apply Hsame].
    pose proof (alignTo_aligned start (p_x target) (p_y target)) as Halign.
    destruct (Canvas.alignTo start (p_x target) (p_y target)) as [gridX gridY].
    cbn [fst snd] in Halign.
    destruct (truthy (Canvas.activeRoomId s)); [|now apply Hsame].
    unfold canvasWellFormed. cbn [Canvas.drawingPoints Canvas.rooms].
    split; [exact Hpath|]. split.
    + apply Forall_updateActive; [|exact Hrooms]. intros r Hr. exact Hr.
    + apply Forall_updateActive; [|exact Hwalls]. intros r Hr.
      unfold Objects.setTempWalls. cbn [r_tempWalls].
      apply Forall_app. split; [exact Hr|]. constructor; [|constructor].
      unfold axisAligned. cbn [w_start w_end p_x p_y]. exact Halign.
  - (* measure_line *) destruct (_ || _); now apply Hsame.
  - (* measure_rect *) destruct (_ || _); now apply Hsame.
Qed.

Lemma handleCanvasClick_keeps_rectilinear_witness :
  canvasWellFormed Sample.drawing
  /\ canvasWellFormed
       (Canvas.handleCanvasClick Sample.library Sample.ids Sample.drawing 10 290 true).
Proof.
  assert (Hw : canvasWellFormed Sample.drawing).
  { unfold canvasWellFormed, rectilinearLoop, closingEdgeAligned, axisAligned.
    cbn. repeat (split || constructor);
      first [left; reflexivity | right; reflexivity | exact I]. }
  split; [exact Hw|].
  exact (handleCanvasClick_keeps_rectilinear Sample.library Sample.ids Sample.drawing
           10 290 true Hw).
Defined.

Lemma roomFrame_updateActive (activeRoomId : option string) (f : Room -> Room)
    (rooms : list Room) :
  (forall r, roomFrame (f r) = roomFrame r) ->
  map roomFrame (Rooms.updateActive activeRoomId f rooms) = map roomFrame rooms.
Proof.
  intro Hf. unfold Rooms.updateActive. rewrite map_map. apply map_ext.
  intro r. now destruct (idIs (r_id r) activeRoomId).
Qed.

Ltac rooms_untouched :=
  unfold Canvas.clearSelection; cbn [Canvas.rooms Canvas.activeRoomId];
  split; [reflexivity | split; [reflexivity |]];
  let Hne := fresh "Hne" in intro Hne; exfalso; apply Hne; reflexivity.

(** X29: a click on the canvas never adds or removes a room and never
    changes the id, the name, the objects or the labels of a room, nor
    which room is active.  It changes the rooms at all only when the stage
    itself was hit and a room is active, in two cases: the click closes
    the boundary being drawn, which then has three corners or more, and
    the tool goes back to select with the drawing emptied; or the click
    ends a temporary wall whose start was pending. *)
Theorem handleCanvasClick_frame
    (objectLibrary : list ObjectDefinition) (ids : nat -> string)
    (s : Canvas.State) (pointerX pointerY : Q) (onStage : bool) :
  let s' := Canvas.handleCanvasClick objectLibrary ids s pointerX pointerY onStage in
  map roomFrame (Canvas.rooms s') = map roomFrame (Canvas.rooms s)
  /\ Canvas.activeRoomId s' = Canvas.activeRoomId s
  /\ (Canvas.rooms s' <> Canvas.rooms s ->
      onStage = true /\ truthy (Canvas.activeRoomId s) = true
      /\ ((Canvas.mode s = Canvas.draw_room /\ Canvas.mode s' = Canvas.select
           /\ Canvas.drawingPoints s' = []
           /\ (3 <= List.length (Canvas.drawingPoints s))%nat)
          \/ (Canvas.mode s = Canvas.draw_wall /\ Canvas.tempWallStart s <> None
              /\ Canvas.tempWallStart s' = None))).
Proof.
  cbv zeta. unfold Canvas.handleCanvasClick.
  set (target := findSnapTarget _ _ _ _ _).
  destruct (Canvas.mode s) eqn:Emode;
    try (destruct onStage; cbn [negb]; rooms_untouched).
  - (* draw_room *)
    destruct onStage; cbn [negb]; [|rooms_untouched].
    destruct (match Canvas.drawingPoints s with
              | [] => (p_x target, p_y target)
              | _ :: _ => Canvas.alignTo (last (Canvas.drawingPoints s) origin)
                                         (p_x target) (p_y target)
              end) as [gridX gridY].
    destruct ((2 <? List.length (Canvas.drawingPoints s))%nat) eqn:Elen;
      cbn [andb]; [|rooms_untouched].
    destruct ((Qabs (p_x (nth 0 (Canvas.drawingPoints s) origin) - gridX) <? 1 # 2)
              && (Qabs (p_y (nth 0 (Canvas.drawingPoints s) origin) - gridY) <? 1 # 2));
      [|rooms_untouched].
    destruct (truthy (Canvas.activeRoomId s)) eqn:Eactive; [|rooms_untouched].
    cbn [Canvas.rooms Canvas.activeRoomId Canvas.mode Canvas.drawingPoints].
    split; [now apply roomFrame_updateActive|]. split; [reflexivity|].
    intros _. split; [reflexivity|]. split; [reflexivity|]. left.
    repeat split; try reflexivity. apply Nat.ltb_lt in Elen. lia.
  - (* draw_wall *)
    destruct onStage; cbn [negb]; [|rooms_untouched].
    destruct (Canvas.tempWallStart s) as [start|] eqn:Estart; [|rooms_untouched].
    destruct (Canvas.alignTo start (p_x target) (p_y target)) as [gridX gridY].
    destruct (truthy (Canvas.activeRoomId s)) eqn:Eactive; [|rooms_untouched].
    cbn [Canvas.rooms Canvas.activeRoomId Canvas.mode Canvas.tempWallStart].
    split; [now apply roomFrame_updateActive|]. split; [reflexivity|].
    intros _. split; [reflexivity|]. split; [reflexivity|]. right.
    repeat split; try reflexivity. discriminate.
  - (* measure_line *) destruct (_ || _); rooms_untouched.
  - (* measure_rect *) destruct (_ || _); rooms_untouched.
Qed.

(** ** The selection rectangle and the pallet estimate *)

Lemma Qmin_swap_leb (a b v : Q) : (Qmin b a <=? v) = (Qmin a b <=? v).
Proof.
  destruct (Qmin a b <=? v) eqn:E.
  - apply Qleb_le in E. apply Qleb_le. now rewrite Q.min_comm.
  - apply Qleb_gt in E. apply Qleb_gt. now rewrite Q.min_comm.
Qed.

Lemma Qmax_swap_leb (a b v : Q) : (v <=? Qmax b a) = (v <=? Qmax a b).
Proof.
  destruct (v <=? Qmax a b) eqn:E.
  - apply Qleb_le in E. apply Qleb_le. now rewrite Q.max_comm.
  - apply Qleb_gt in E. apply Qleb_gt. now rewrite Q.max_comm.
Qed.

(** X8: the objects that a selection rectangle picks are the same
    whichever corner the drag starts from, and along whichever diagonal of
    the rectangle it runs. *)
Theorem selection_ignores_drag_direction
    (objectLibrary : list ObjectDefinition) (room : Room) (a b : Point) :
  Objects.selectedBy objectLibrary room b a = Objects.selectedBy objectLibrary room a b
  /\ Objects.selectedBy objectLibrary room
       (mkPoint (p_x a) (p_y b)) (mkPoint (p_x b) (p_y a))
     = Objects.selectedBy objectLibrary room a b.
Proof.
  unfold Objects.selectedBy. split.
  - f_equal. apply filter_ext. intro obj.
    destruct (findDef objectLibrary (o_definitionId obj)); [|reflexivity].
    now rewrite (Qmin_swap_leb (p_x a) (p_x b)), (Qmax_swap_leb (p_x a) (p_x b)),
      (Qmin_swap_leb (p_y a) (p_y b)), (Qmax_swap_leb (p_y a) (p_y b)).
  - cbn [p_x p_y]. f_equal. apply filter_ext. intro obj.
    destruct (findDef objectLibrary (o_definitionId obj)); [|reflexivity].
    now rewrite (Qmin_swap_leb (p_y a) (p_y b)), (Qmax_swap_leb (p_y a) (p_y b)).
Qed.







(** ** Overlaps are mutual *)

(** X5: two objects of one room with different ids, both with a definition
    in the library, whose footprints overlap are both invalid placements
    there: the canvas shows both of them in red, whichever was put down
    last. *)
Theorem overlapping_objects_both_invalid
    (objectLibrary : list ObjectDefinition) (room : Room)
    (a b : PlacedObject) (da db : ObjectDefinition) :
  In a (r_objects room) -> In b (r_objects room) ->
  o_id a <> o_id b ->
  findDef objectLibrary (o_definitionId a) = Some da ->
  findDef objectLibrary (o_definitionId b) = Some db ->
  checkRectOverlap (getObjectRect a da) (getObjectRect b db) = true ->
  isValidPlacement objectLibrary a room None = false
  /\ isValidPlacement objectLibrary b room None = false.
Proof.
  intros Ha Hb Hne Eda Edb Hov.
  assert (Hov' : checkRectOverlap (getObjectRect b db) (getObjectRect a da) = true).
  { apply checkRectOverlap_true in Hov. apply checkRectOverlap_true. tauto. }
  assert (Hone : forall x y dx dy,
            In y (r_objects room) -> o_id y <> o_id x ->
            findDef objectLibrary (o_definitionId x) = Some dx ->
            findDef objectLibrary (o_definitionId y) = Some dy ->
            checkRectOverlap (getObjectRect x dx) (getObjectRect y dy) = true ->
            isValidPlacement objectLibrary x room None = false).
  { intros x y dx dy Hy Hxy Edx Edy Hxov. unfold isValidPlacement. rewrite Edx.
    destruct (objectOverlapCheck objectLibrary x (getObjectRect x dx) None
                (r_objects room)) eqn:E; [|reflexivity].
    exfalso.
    pose proof (proj1 (objectOverlapCheck_true_iff _ _ _ _ _) E y Hy) as [Hskip|Hfree].
    - cbn [idIs orb] in Hskip. apply String.eqb_eq in Hskip. contradiction.
    - rewrite Edy in Hfree. congruence. }
  split.
  - apply (Hone a b da db); auto.
  - apply (Hone b a db da); auto.
Qed.

Lemma overlapping_objects_both_invalid_witness :
  isValidPlacement Sample.library Sample.sofa
    (mkRoom "r6" "Den" Sample.square [Sample.sofa; Sample.desk] [] None) None = false
  /\ isValidPlacement Sample.library Sample.desk
       (mkRoom "r6" "Den" Sample.square [Sample.sofa; Sample.desk] [] None) None = false.
Proof.
  apply (overlapping_objects_both_invalid Sample.library
           (mkRoom "r6" "Den" Sample.square [Sample.sofa; Sample.desk] [] None)
           Sample.sofa Sample.desk
           (mkDef "sofa" "Sofa" 3 6 None) (mkDef "desk" "Desk" (10#3) 4 None)).
  - left. reflexivity.
  - right. left. reflexivity.
  - discriminate.
  - reflexivity.
  - reflexivity.
  - reflexivity.
Defined.
